(** * OpenSTA timing search core (search/Search.cc): a shallow embedding

    The arrival/required search of the static timing analyzer is embedded
    as Rocq functions over explicit state.  Objects that the C++ code
    interns and then compares by pointer (Tag, ClkInfo, TagGroup) carry an
    identity field (their pool index, or an allocation number for ClkInfo);
    "same pointer" is equality of that field.  Delays are exact integers
    (a fixed time unit), so sums and differences along a path are exact;
    the total negative slack, which accumulates the slacks of all
    endpoints, rounds as a C float.  The fuzzy comparisons of the delay
    library are an interface record.  Fatal internal errors are the
    [InternalError] result.

    Part I holds the embedding, Part II sample designs used to exercise
    the theorems, Part III the theorems. *)

From stdpp Require Import base decidable option list gmap strings.
From Stdlib Require Import ZArith Lia.

Open Scope Z_scope.

(** * Part I: the embedding *)

(** ** Identifiers and small enumerations *)

Abbreviation Pin := nat (only parsing).
Abbreviation Vertex := nat (only parsing).
Abbreviation Clock := nat (only parsing).
Abbreviation Level := nat (only parsing).
Abbreviation PathAPIndex := nat (only parsing).
Abbreviation Delay := Z (only parsing).
Abbreviation Arrival := Z (only parsing).
Abbreviation Required := Z (only parsing).
Abbreviation ArcDelay := Z (only parsing).
Abbreviation Slack := Z (only parsing).

Inductive MinMax := MinMax_min | MinMax_max.

#[global] Instance MinMax_eq_dec : EqDecision MinMax.
Proof. solve_decision. Defined.

Definition MinMax_opposite (mm : MinMax) : MinMax :=
  match mm with MinMax_min => MinMax_max | MinMax_max => MinMax_min end.

Inductive TransRiseFall := TR_rise | TR_fall.

#[global] Instance TransRiseFall_eq_dec : EqDecision TransRiseFall.
Proof. solve_decision. Defined.

Definition TransRiseFall_opposite (tr : TransRiseFall) : TransRiseFall :=
  match tr with TR_rise => TR_fall | TR_fall => TR_rise end.

(** Modelled from the spec: the TimingRole enumeration (TimingRole.hh is not
    part of the sources).  The spec lists the edge roles as wire,
    combinational, reg-clk-to-Q, latch-en-to-Q, latch-D-to-Q,
    tristate-enable/disable and timing-check. *)
Inductive TimingRole :=
| role_wire
| role_combinational
| role_regClkToQ
| role_latchEnToQ
| role_latchDtoQ
| role_tristateEnable
| role_tristateDisable
| role_timingCheck.

#[global] Instance TimingRole_eq_dec : EqDecision TimingRole.
Proof. solve_decision. Defined.

Definition TimingRole_isWire (r : TimingRole) : bool :=
  bool_decide (r = role_wire).

Definition TimingRole_isTimingCheck (r : TimingRole) : bool :=
  bool_decide (r = role_timingCheck).

(** Modelled from the spec: reg-clk-to-Q and latch-en-to-Q share one rule
    ("reg-clk-to-Q / latch-en-to-Q"), so the generic role of latch-en-to-Q
    is reg-clk-to-Q; every other role is its own generic role. *)
Definition TimingRole_genericRole (r : TimingRole) : TimingRole :=
  match r with
  | role_latchEnToQ => role_regClkToQ
  | _ => r
  end.

Inductive TimingSense :=
| timing_sense_positive_unate
| timing_sense_negative_unate
| timing_sense_non_unate.

#[global] Instance TimingSense_eq_dec : EqDecision TimingSense.
Proof. solve_decision. Defined.

(** Modelled from the spec: the state of a latch D->Q edge is one of
    always-open, open, closed.  [latch_state_open] is the source's name for
    the always-open state ("Only search thru latch D->Q if it is always
    open"); [latch_state_enabled] is open while the enable is active. *)
Inductive LatchEnableState :=
| latch_state_closed
| latch_state_open
| latch_state_enabled.

#[global] Instance LatchEnableState_eq_dec : EqDecision LatchEnableState.
Proof. solve_decision. Defined.

(** ** Results of fallible code

    [internalError(msg)] aborts the search; the state is lost. *)
Inductive Result (A : Type) : Type :=
| Ok (a : A)
| InternalError (msg : string).

Arguments Ok {A} a.
Arguments InternalError {A} msg.

#[global] Instance Result_ret : MRet Result := fun A a => Ok a.

#[global] Instance Result_bind : MBind Result := fun A B k m =>
  match m with
  | Ok a => k a
  | InternalError msg => InternalError msg
  end.

Definition Result_isOk {A : Type} (m : Result A) : bool :=
  match m with Ok _ => true | InternalError _ => false end.

(** ** Exceptions and exception states *)

(** Modelled from the spec: ExceptionPath and ExceptionState (Sdc's
    ExceptionPath.hh is not part of the sources).  An exception has a type
    out of false, multicycle, min/max-delay, filter, loop, path-delay and a
    sequence of -thru matchers; a state points to its exception and holds a
    cursor that says which -thru has been satisfied. *)
Inductive ExceptionPathType :=
| exception_false
| exception_multicycle
| exception_min_max_delay
| exception_filter
| exception_loop
| exception_path_delay.

#[global] Instance ExceptionPathType_eq_dec : EqDecision ExceptionPathType.
Proof. solve_decision. Defined.

Record ExceptionPath := mkExceptionPath {
  exception_id : nat;
  exception_type : ExceptionPathType;
  (* the -thru matchers, by identifier; the SDC decides what they match *)
  exception_thrus : list nat
}.

#[global] Instance ExceptionPath_eq_dec : EqDecision ExceptionPath.
Proof. solve_decision. Defined.

Definition ExceptionPath_isFalse (e : ExceptionPath) : bool :=
  bool_decide (exception_type e = exception_false).

Definition ExceptionPath_isLoop (e : ExceptionPath) : bool :=
  bool_decide (exception_type e = exception_loop).

Definition ExceptionPath_isFilter (e : ExceptionPath) : bool :=
  bool_decide (exception_type e = exception_filter).

Record ExceptionState := mkExceptionState {
  exception : ExceptionPath;
  (* cursor: number of -thru matchers already satisfied *)
  next_thru_index : nat
}.

#[global] Instance ExceptionState_eq_dec : EqDecision ExceptionState.
Proof. solve_decision. Defined.

(** Modelled from the spec: "isComplete means the cursor has reached the
    final matcher". *)
Definition ExceptionState_isComplete (s : ExceptionState) : bool :=
  bool_decide (length (exception_thrus (exception s)) <= next_thru_index s)%nat.

Definition ExceptionState_nextThru (s : ExceptionState) : option nat :=
  exception_thrus (exception s) !! next_thru_index s.

Definition ExceptionState_nextState (s : ExceptionState) : ExceptionState :=
  {| exception := exception s; next_thru_index := S (next_thru_index s) |}.

(** An ExceptionStateSet is a set of states; the list is its iteration
    order.  The pointer may be null ([None]). *)
Abbreviation ExceptionStateSet := (list ExceptionState) (only parsing).

Definition ExceptionStateSet_insert (s : ExceptionState)
  (set : list ExceptionState) : list ExceptionState :=
  if bool_decide (s ∈ set) then set else set ++ [s].

Definition stateSetIncl (s1 s2 : list ExceptionState) : bool :=
  forallb (fun s => bool_decide (s ∈ s2)) s1.

(** Equality of two state-set pointers: both null, or the same states. *)
Definition stateSetEqual (s1 s2 : option (list ExceptionState)) : bool :=
  match s1, s2 with
  | None, None => true
  | Some l1, Some l2 => stateSetIncl l1 l2 && stateSetIncl l2 l1
  | _, _ => false
  end.

(** ** Path references *)

(** PathVertexRep: a compact reference (vertex, tag index) to a path, or
    null. *)
Abbreviation PathVertexRep := (option (nat * nat)) (only parsing).

(** ** ClkInfo

    The fields are the arguments of the constructor called by
    [Search::findClkInfo].  [clk_info_addr] is the identity of the object
    (its allocation number); it is not compared by [clkInfoEqual]. *)
Record ClockEdge := mkClockEdge {
  clock_edge_clock : Clock;
  clock_edge_transition : TransRiseFall;
  clock_edge_time : Z
}.

#[global] Instance ClockEdge_eq_dec : EqDecision ClockEdge.
Proof. solve_decision. Defined.

Record ClkInfo := mkClkInfo {
  clk_info_addr : nat;
  clk_edge : option ClockEdge;
  clk_src : option Pin;
  is_propagated : bool;
  gen_clk_src : option Pin;
  is_gen_clk_src_path : bool;
  pulse_clk_sense : option TransRiseFall;
  insertion : Arrival;
  latency : Z;
  uncertainties : option nat;
  clk_info_path_ap_index : PathAPIndex;
  crpr_clk_path : PathVertexRep
}.

#[global] Instance ClkInfo_eq_dec : EqDecision ClkInfo.
Proof. solve_decision. Defined.

Definition ClkInfo_clock (ci : ClkInfo) : option Clock :=
  clock_edge_clock <$> clk_edge ci.

Definition ClkInfo_hasCrprClkPin (ci : ClkInfo) : bool :=
  bool_decide (crpr_clk_path ci <> None).

(** Modelled from the spec: "Equality on all fields" of a ClkInfo (the
    comparison functor of ClkInfo.cc is not part of the sources). *)
Definition clkInfoEqual (c1 c2 : ClkInfo) : bool :=
  bool_decide (clk_edge c1 = clk_edge c2)
  && bool_decide (clk_src c1 = clk_src c2)
  && eqb (is_propagated c1) (is_propagated c2)
  && bool_decide (gen_clk_src c1 = gen_clk_src c2)
  && eqb (is_gen_clk_src_path c1) (is_gen_clk_src_path c2)
  && bool_decide (pulse_clk_sense c1 = pulse_clk_sense c2)
  && bool_decide (insertion c1 = insertion c2)
  && bool_decide (latency c1 = latency c2)
  && bool_decide (uncertainties c1 = uncertainties c2)
  && bool_decide (clk_info_path_ap_index c1 = clk_info_path_ap_index c2)
  && bool_decide (crpr_clk_path c1 = crpr_clk_path c2).

(** ** Tag

    The fields are the arguments of the Tag constructor called by
    [Search::findTag]; [tag_index] is the index of the tag in [tags_]. *)
Record Tag := mkTag {
  tag_index : nat;
  tr_index : TransRiseFall;
  path_ap_index : PathAPIndex;
  clk_info : ClkInfo;
  is_clk : bool;
  input_delay : option nat;
  is_segment_start : bool;
  states : option (list ExceptionState)
}.

#[global] Instance Tag_eq_dec : EqDecision Tag.
Proof. solve_decision. Defined.

Definition Tag_isClock (t : Tag) : bool := is_clk t.

Definition Tag_isGenClkSrcPath (t : Tag) : bool :=
  is_gen_clk_src_path (clk_info t).

Definition Tag_transition (t : Tag) : TransRiseFall := tr_index t.

Definition Tag_clkInfo (t : Tag) : ClkInfo := clk_info t.

(** Modelled from the spec: a tag "records whether any carried exception is
    a loop marker or filter marker". *)
Definition Tag_isLoop (t : Tag) : bool :=
  existsb (fun s => ExceptionPath_isLoop (exception s)) (default [] (states t)).

Definition Tag_isFilter (t : Tag) : bool :=
  existsb (fun s => ExceptionPath_isFilter (exception s)) (default [] (states t)).

(** Modelled from the spec: two tags are equal when they have the "same
    transition, path-analysis-point index, ClkInfo, is-clock flag,
    input-delay, segment-start flag and exception-state set"; the ClkInfo
    is compared as a reference. *)
Definition tagEqual (t1 t2 : Tag) : bool :=
  bool_decide (tr_index t1 = tr_index t2)
  && bool_decide (path_ap_index t1 = path_ap_index t2)
  && bool_decide (clk_info_addr (clk_info t1) = clk_info_addr (clk_info t2))
  && eqb (is_clk t1) (is_clk t2)
  && bool_decide (input_delay t1 = input_delay t2)
  && eqb (is_segment_start t1) (is_segment_start t2)
  && stateSetEqual (states t1) (states t2).

(** ** Paths at a vertex *)

Record PathVertex := mkPathVertex {
  path_vertex : Vertex;
  path_tag : Tag;
  path_arrival_index : nat;
  path_arrival : Arrival
}.

Definition PathVertexRep_init (p : PathVertex) : PathVertexRep :=
  Some (path_vertex p, tag_index (path_tag p)).

(** ** TagGroup

    The tags present at a vertex with their arrival slots.  [tag_group_index]
    is the index of the group in [tag_groups_]. *)
Record TagGroup := mkTagGroup {
  tag_group_index : nat;
  arrival_map : list (Tag * nat)
}.

#[global] Instance TagGroup_eq_dec : EqDecision TagGroup.
Proof. solve_decision. Defined.

Definition TagGroup_arrivalCount (g : TagGroup) : nat := length (arrival_map g).

Definition TagGroup_hasClkTag (g : TagGroup) : bool :=
  existsb (fun e => Tag_isClock (fst e)) (arrival_map g).

Definition TagGroup_hasGenClkSrcTag (g : TagGroup) : bool :=
  existsb (fun e => Tag_isGenClkSrcPath (fst e)) (arrival_map g).

Definition TagGroup_hasFilterTag (g : TagGroup) : bool :=
  existsb (fun e => Tag_isFilter (fst e)) (arrival_map g).

Definition TagGroup_hasLoopTag (g : TagGroup) : bool :=
  existsb (fun e => Tag_isLoop (fst e)) (arrival_map g).

Definition tagSetIncl (m1 m2 : list (Tag * nat)) : bool :=
  forallb (fun e1 =>
             existsb (fun e2 => bool_decide (tag_index (fst e1) = tag_index (fst e2))) m2)
          m1.

(** Modelled from the spec: TagGroup "Equality on the tag multiset"; tags
    are interned, so they are compared as references. *)
Definition tagGroupEqual (g1 g2 : TagGroup) : bool :=
  bool_decide (length (arrival_map g1) = length (arrival_map g2))
  && tagSetIncl (arrival_map g1) (arrival_map g2)
  && tagSetIncl (arrival_map g2) (arrival_map g1).

(** ** TagGroupBldr: the scratch tag group of a visitor *)
Record TagGroupBldr := mkTagGroupBldr {
  match_crpr_clk_pin_ : bool;
  arrival_map_ : list (Tag * nat);
  arrivals_ : list Arrival;
  prev_paths_ : list PathVertexRep;
  has_clk_tag_ : bool;
  has_genclk_src_tag_ : bool;
  has_filter_tag_ : bool;
  has_loop_tag_ : bool
}.

(** ** The graph *)
Record TimingArc := mkTimingArc {
  arc_index : nat;
  arc_fromTrans : TransRiseFall;
  arc_toTrans : TransRiseFall
}.

#[global] Instance TimingArc_eq_dec : EqDecision TimingArc.
Proof. solve_decision. Defined.

Record Edge := mkEdge {
  edge_id : nat;
  edge_from : Vertex;
  edge_to : Vertex;
  edge_role : TimingRole;
  edge_isDisabledLoop : bool;
  edge_arcs : list TimingArc;
  edge_sense : TimingSense
}.

#[global] Instance Edge_eq_dec : EqDecision Edge.
Proof. solve_decision. Defined.

(** [TimingArcSet::arcsFrom]: the (at most two) arcs of the set that leave
    the transition [from_tr]. *)
Definition TimingArcSet_arcsFrom (arcs : list TimingArc) (from_tr : TransRiseFall)
  : option TimingArc * option TimingArc :=
  match filter (fun a => arc_fromTrans a = from_tr) arcs with
  | [] => (None, None)
  | [a1] => (Some a1, None)
  | a1 :: a2 :: _ => (Some a1, Some a2)
  end.

Record InputDelay := mkInputDelay {
  input_delay_index : nat;
  input_delay_pin : Pin;
  input_delay_clkEdge : option ClockEdge;
  input_delay_clock : option Clock;
  input_delay_refPin : option Pin;
  input_delay_refTransition : TransRiseFall;
  input_delay_sourceLatencyIncluded : bool;
  input_delay_networkLatencyIncluded : bool
}.

(** ** Search state *)

(** The interning pools.  [tag_count_] is [length tags_] and
    [tag_group_count_] is [length tag_groups_]; the capacities and the
    grow-by-copy of the arrays are storage management and not modelled.
    [clk_info_alloc_] numbers the ClkInfo objects made so far. *)
Record Pools := mkPools {
  tags_ : list (option Tag);
  tag_set_ : list Tag;
  clk_info_set_ : list ClkInfo;
  clk_info_alloc_ : nat;
  tag_groups_ : list (option TagGroup);
  tag_group_set_ : list TagGroup
}.

Definition tag_count_ (p : Pools) : nat := length (tags_ p).
Definition tag_group_count_ (p : Pools) : nat := length (tag_groups_ p).

(** The slots of a vertex that the search owns.  The arrival array holds
    the arrivals in [0, n) and, when [has_requireds], the required times
    in [n, 2n), n the arrival count of the tag group. *)
Record VertexPaths := mkVertexPaths {
  vertex_tag_group_index : nat;
  vertex_arrivals : option (list Arrival);
  vertex_prev_paths : option (list PathVertexRep);
  vertex_has_requireds : bool
}.

#[global] Instance VertexPaths_eq_dec : EqDecision VertexPaths.
Proof. solve_decision. Defined.

(** ** Float accumulators

    A C [float] has a significand of 24 bits.  The time unit of the
    embedding is a power of two that divides every slack at hand (the
    smallest positive float divides them all).  A float is then an
    integer of at most 24 significant bits, and the sum or the difference
    of two floats is the exact one rounded to such an integer: to the
    nearest one, and to the even one of two nearest.  The exponent range
    (overflow to infinity) is outside the embedding. *)

(** [z] rounded to 24 significant bits. *)
Definition float_round (z : Z) : Z :=
  let a := Z.abs z in
  if a <? 2 ^ 24 then z
  else
    let e := Z.log2 a - 23 in
    let m := a / 2 ^ e in
    let r := a mod 2 ^ e in
    let half := 2 ^ (e - 1) in
    let m' := if r <? half then m
              else if half <? r then m + 1
              else if Z.even m then m else m + 1 in
    Z.sgn z * (m' * 2 ^ e).

(** [a + b] and [a - b] on floats. *)
Definition float_add (a b : Z) : Z := float_round (a + b).
Definition float_sub (a b : Z) : Z := float_round (a - b).

(** Total negative slack of one min/max index; [tns_] is a float. *)
Record Tns := mkTns {
  tns_ : Slack;
  tns_slacks_ : gmap Vertex Slack
}.

Record Flags := mkFlags {
  clk_arrivals_valid_ : bool;
  arrivals_exist_ : bool;
  arrivals_at_endpoints_exist_ : bool;
  arrivals_seeded_ : bool;
  requireds_exist_ : bool;
  requireds_seeded_ : bool;
  tns_exists_ : bool;
  (* [worst_slacks_ != NULL]; the WorstSlacks object itself is not modelled *)
  worst_slacks_exist_ : bool;
  have_paths_ : bool;
  report_unconstrained_paths_ : bool
}.

#[global] Instance Flags_eq_dec : EqDecision Flags.
Proof. solve_decision. Defined.

(** Work lists: the two BFS queues and the invalid-vertex sets. *)
Record Work := mkWork {
  arrival_iter_ : list Vertex;
  required_iter_ : list Vertex;
  invalid_arrivals_ : gset Vertex;
  invalid_requireds_ : gset Vertex;
  invalid_tns_ : gset Vertex;
  pending_latch_outputs_ : gset Vertex;
  (* null until the endpoints are first asked for *)
  endpoints_ : option (gset Vertex);
  invalid_endpoints_ : option (gset Vertex)
}.

Record Search := mkSearch {
  pools : Pools;
  vertex_paths : gmap Vertex VertexPaths;
  work : Work;
  flags : Flags;
  tns_min : Tns;
  tns_max : Tns
}.

(** ** Interfaces of the collaborators

    The search consumes the delay library, the SDC, the network, the
    graph, the latch and generated-clock engines, the CRPR engine, the
    levelizer and the corners.  Their code is outside Search.cc; each is a
    record of the queries the search makes. *)

Record DelayOps := mkDelayOps {
  fuzzyEqual : Z -> Z -> bool;
  fuzzyLess : Z -> Z -> bool;
  fuzzyGreater : Z -> Z -> bool;
  (* MinMax::min()->initValue(); the initial value of max is its negation *)
  INF : Z;
  (* derating factors are fixed-point numbers with this unit *)
  derate_unit : Z
}.

Inductive TimingDerateType :=
| timing_derate_cell_delay
| timing_derate_cell_check.

Record Sdc := mkSdc {
  isVertexPinClock : Pin -> bool;
  isPathDelayInternalEndpoint : Pin -> bool;
  isPathDelayInternalStartpoint : Pin -> bool;
  isInputDelayInternal : Pin -> bool;
  hasInputDelay : Pin -> bool;
  inputDelayVertexIterator : Pin -> list InputDelay;
  inputDelayValue : InputDelay -> TransRiseFall -> MinMax -> option Z;
  refPinInputDelays : Pin -> list InputDelay;
  useDefaultArrivalClock : bool;
  defaultArrivalClock : option Clock;
  defaultArrivalClockEdge : option ClockEdge;
  crprActive : bool;
  dynamicLoopBreaking : bool;
  clkStopPropagation : option Clock -> Pin -> TransRiseFall -> Pin -> TransRiseFall -> bool;
  clkStopPropagationPin : Pin -> option Clock -> bool;
  clkThruTristateEnabled : bool;
  clkDisabledByHpinThru : option Clock -> Pin -> Pin -> bool;
  isPropagatedClock : Pin -> bool;
  isClock : Pin -> bool;
  findVertexPinClocks : Pin -> option (list Clock);
  (* the vertex pins of all clocks, in iteration order *)
  clock_vertex_pins : list Pin;
  (* clocks *)
  clock_edge : Clock -> TransRiseFall -> ClockEdge;
  clock_isGenerated : Clock -> bool;
  clock_masterClk : Clock -> option Clock;
  clock_isPropagated : Clock -> bool;
  clock_isGeneratedWithPropagatedMaster : Clock -> bool;
  clock_combinational : Clock -> bool;
  clock_uncertainties : Clock -> option nat;
  clock_defaultPin : Clock -> option Pin;
  (* latency, insertion, uncertainty *)
  clockLatencyPin : option Clock -> Pin -> TransRiseFall -> MinMax -> option Z;
  clockLatencyEdge : Edge -> TransRiseFall -> MinMax -> option Z;
  clockLatencyClk : Clock -> TransRiseFall -> MinMax -> option Z;
  clockInsertionPin : Clock -> option Pin -> TransRiseFall -> MinMax -> MinMax -> option Z;
  clockInsertionClk : Clock -> TransRiseFall -> MinMax -> MinMax -> Z;
  clockUncertainties : Pin -> option nat;
  (* exceptions *)
  (* the -thru exception states that start at an edge; null when none *)
  exceptionThruStates : Pin -> Pin -> TransRiseFall -> MinMax -> option (list ExceptionState);
  (* does the -thru matcher (by identifier) match this edge *)
  exceptionThruMatches : nat -> Pin -> Pin -> TransRiseFall -> MinMax -> bool;
  (* [None]: a false path starts here; [Some states] otherwise *)
  exceptionFromStates : Pin -> TransRiseFall -> option Clock -> option TransRiseFall -> MinMax
                        -> option (option (list ExceptionState));
  exceptionFromClkStates : Pin -> TransRiseFall -> Clock -> TransRiseFall -> MinMax
                           -> option (list ExceptionState);
  filterRegQStates : Pin -> TransRiseFall -> MinMax -> option (list ExceptionState)
                     -> option (list ExceptionState);
  dataChecksFrom : Pin -> list Pin;
  gatedClkChecksEnabled : bool;
  (* derating, as fixed-point factors *)
  timingDerateNet : Pin -> bool -> TransRiseFall -> MinMax -> Z;
  timingDerateInstance : Pin -> TimingDerateType -> bool -> TransRiseFall -> MinMax -> Z
}.

Record Network := mkNetwork {
  isTopLevelPort : Pin -> bool;
  isLatchData : Pin -> bool;
  isRegClkPin : Pin -> bool;
  isLoad : Pin -> bool;
  isCheckClk : Pin -> bool;
  direction_isInternal : Pin -> bool;
  direction_isInput : Pin -> bool;
  direction_isBidirect : Pin -> bool;
  libertyPortPulseClkSense : Pin -> option TransRiseFall;
  (* the pins of the top instance whose direction is any input *)
  top_input_pins : list Pin
}.

Record Graph := mkGraph {
  vertices : list Vertex;
  vertex_pin : Vertex -> Pin;
  vertex_level : Vertex -> Level;
  vertex_isRegClk : Vertex -> bool;
  vertex_isBidirectDriver : Vertex -> bool;
  vertex_isConstant : Vertex -> bool;
  vertex_hasChecks : Vertex -> bool;
  vertex_isConstrained : Vertex -> bool;
  hasFaninOne : Vertex -> bool;
  vertex_in_edges : Vertex -> list Edge;
  vertex_out_edges : Vertex -> list Edge;
  (* vertex and bidirect driver vertex of a pin *)
  pinVertices : Pin -> Vertex * option Vertex;
  pinLoadVertex : Pin -> Vertex;
  pinDrvrVertex : Pin -> Vertex;
  arcDelay : Edge -> TimingArc -> nat -> ArcDelay
}.

Record Corners := mkCorners {
  (* the path analysis points, by index *)
  path_aps : list PathAPIndex;
  pathMinMax : PathAPIndex -> MinMax;
  dcalcAnalysisPt_index : PathAPIndex -> nat
}.

(** [tagMatch] and [tagMatchNoCrpr] of Tag.cc: the equivalence under which
    an ArrivalMap looks its keys up. *)
Record TagOps := mkTagOps {
  tagMatch : Tag -> Tag -> bool -> bool;
  tagMatchNoCrpr : Tag -> Tag -> bool;
  (* the generated clock a gen-clk-src-path tag is a source path of *)
  genClkSrcPathClk : Tag -> option Clock
}.

Record Genclks := mkGenclks {
  genclks_fanins : Clock -> list Vertex;
  genclks_latchFdbkEdges : Clock -> option (list nat);
  genclks_insertionDelay : Clock -> option Pin -> TransRiseFall -> MinMax -> PathAPIndex -> Arrival;
  copyGenClkSrcPaths : Vertex -> TagGroupBldr -> TagGroupBldr
}.

Record Crpr := mkCrpr {
  maxCrpr : ClkInfo -> Arrival
}.

Record Levelize := mkLevelize {
  maxLevel : Level;
  roots : list Vertex;
  isRoot : Vertex -> bool
}.

(** The predicate base class SearchPred0 and the conditional-disable test
    [searchThru(from_vertex, from_tr, edge, to_vertex, to_tr)] of
    SearchPred.cc. *)
Record SearchPred0 := mkSearchPred0 {
  SearchPred0_searchFrom : Vertex -> bool;
  SearchPred0_searchThru : Edge -> bool;
  SearchPred0_searchTo : Vertex -> bool;
  searchThruArc : Vertex -> TransRiseFall -> Edge -> Vertex -> TransRiseFall -> bool
}.

(** Index sentinels of SearchClass.hh / GraphClass.hh. *)
Record Limits := mkLimits {
  tag_index_max : nat;
  tag_group_index_max : nat
}.

(** The latch engine.  [latchOutArrival] returns the Q tag (or null), the
    arc delay and the Q arrival; it may intern tags. *)
Record Latches := mkLatches {
  latchDtoQState : Edge -> LatchEnableState;
  isLatchDtoQ : Edge -> bool;
  latchOutArrival : gmap Vertex VertexPaths -> PathVertex -> TimingArc -> Edge -> PathAPIndex
                    -> ArcDelay -> Pools -> Result (option Tag * ArcDelay * Arrival * Pools)
}.

(** [TagGroupBldr::init(vertex)] of TagGroup.cc, for a builder made with
    the given [match_crpr_clk_pin]. *)
Record BldrOps := mkBldrOps {
  TagGroupBldr_init : bool -> Vertex -> gmap Vertex VertexPaths -> Pools -> TagGroupBldr
}.

(** Path ends, gated clocks and the fanin/fanout tests of SearchPred.cc
    under [search_adj_]: what [Search::isEndpoint] and [Search::wnsSlacks]
    ask. *)
Record PathEnds := mkPathEnds {
  checkEdgeEnabled : Edge -> bool;
  isGatedClkEnable : Vertex -> bool;
  gatedClkEnables : Vertex -> list Pin;
  hasFanin_search_adj : Vertex -> bool;
  hasFanout_search_adj : Vertex -> bool;
  (* [Search::wnsSlacks]: the worst endpoint slack per min/max index,
     (min, max), read off the current arrivals and required times *)
  wnsSlacks : gmap Vertex VertexPaths -> Pools -> Vertex -> Slack * Slack
}.

(** StaState: the components every search object can reach. *)
Record StaState := mkStaState {
  delay_ops : DelayOps;
  sdc_ : Sdc;
  network_ : Network;
  graph_ : Graph;
  corners_ : Corners;
  tag_ops : TagOps;
  genclks_ : Genclks;
  crpr_ : Crpr;
  levelize_ : Levelize;
  search_pred0 : SearchPred0;
  limits : Limits;
  latches_ : Latches;
  bldr_ops : BldrOps;
  path_ends : PathEnds
}.

(** ** Delay comparisons (Delay.hh) *)

Definition delayFuzzyEqual (d : DelayOps) (a b : Delay) : bool := fuzzyEqual d a b.

Definition delayFuzzyLess (d : DelayOps) (a b : Delay) : bool := fuzzyLess d a b.

(** Modelled from the spec: the three-argument comparison picks the
    direction of the corner, "greater for the max corner, smaller for the
    min corner". *)
Definition delayFuzzyGreater (d : DelayOps) (a b : Delay) (min_max : MinMax) : bool :=
  match min_max with
  | MinMax_max => fuzzyGreater d a b
  | MinMax_min => fuzzyLess d a b
  end.

Definition MinMax_initValue (d : DelayOps) (min_max : MinMax) : Delay :=
  match min_max with
  | MinMax_min => INF d
  | MinMax_max => - INF d
  end.

Definition delayInitValue (d : DelayOps) (min_max : MinMax) : Delay :=
  MinMax_initValue d min_max.

(** ** ArrivalMap and TagGroupBldr (TagGroup.cc)

    Modelled from the spec: the builder maps a tag to an arrival slot;
    "look up t' in the builder; insert if absent", else the slot found is
    overwritten.  An ArrivalMap looks a key up under [tagMatch]. *)

Definition ArrivalMap_findKey (ops : TagOps) (match_crpr_clk_pin : bool) (tag : Tag)
  (m : list (Tag * nat)) : option (Tag * nat) :=
  List.find (fun e => tagMatch ops (fst e) tag match_crpr_clk_pin) m.

Definition ArrivalMap_erase (ops : TagOps) (match_crpr_clk_pin : bool) (tag : Tag)
  (m : list (Tag * nat)) : list (Tag * nat) :=
  List.filter (fun e => negb (tagMatch ops (fst e) tag match_crpr_clk_pin)) m.

Definition TagGroupBldr_new (match_crpr_clk_pin : bool) : TagGroupBldr :=
  {| match_crpr_clk_pin_ := match_crpr_clk_pin;
     arrival_map_ := []; arrivals_ := []; prev_paths_ := [];
     has_clk_tag_ := false; has_genclk_src_tag_ := false;
     has_filter_tag_ := false; has_loop_tag_ := false |}.

Definition TagGroupBldr_empty (b : TagGroupBldr) : bool :=
  bool_decide (length (arrival_map_ b) = 0%nat).

Definition TagGroupBldr_hasClkTag (b : TagGroupBldr) : bool := has_clk_tag_ b.
Definition TagGroupBldr_hasGenClkSrcTag (b : TagGroupBldr) : bool := has_genclk_src_tag_ b.
Definition TagGroupBldr_hasLoopTag (b : TagGroupBldr) : bool := has_loop_tag_ b.

Definition TagGroupBldr_arrival (b : TagGroupBldr) (arrival_index : nat) : Arrival :=
  default 0 (arrivals_ b !! arrival_index).

(** [tagMatchArrival(tag, tag_match, arrival, arrival_index)]: the entry
    that matches [tag], or null. *)
Definition TagGroupBldr_tagMatchArrival (ops : TagOps) (tag : Tag) (b : TagGroupBldr)
  : option (Tag * Arrival * nat) :=
  match ArrivalMap_findKey ops (match_crpr_clk_pin_ b) tag (arrival_map_ b) with
  | Some (tag_match, arrival_index) =>
      Some (tag_match, TagGroupBldr_arrival b arrival_index, arrival_index)
  | None => None
  end.

(** [tagArrival(tag, arrival, exists)]. *)
Definition TagGroupBldr_tagArrival (ops : TagOps) (tag : Tag) (b : TagGroupBldr)
  : option Arrival :=
  match TagGroupBldr_tagMatchArrival ops tag b with
  | Some (_, arrival, _) => Some arrival
  | None => None
  end.

Definition TagGroupBldr_setMatchArrival (ops : TagOps) (tag : Tag)
  (tag_match : option (Tag * nat)) (arrival : Arrival) (prev_path : PathVertexRep)
  (b : TagGroupBldr) : TagGroupBldr :=
  match tag_match with
  | Some (tm, arrival_index) =>
      {| match_crpr_clk_pin_ := match_crpr_clk_pin_ b;
         arrival_map_ :=
           if bool_decide (tag_index tm = tag_index tag) then arrival_map_ b
           else ArrivalMap_erase ops (match_crpr_clk_pin_ b) tm (arrival_map_ b)
                  ++ [(tag, arrival_index)];
         arrivals_ := <[arrival_index := arrival]> (arrivals_ b);
         prev_paths_ := <[arrival_index := prev_path]> (prev_paths_ b);
         has_clk_tag_ := has_clk_tag_ b;
         has_genclk_src_tag_ := has_genclk_src_tag_ b;
         has_filter_tag_ := has_filter_tag_ b;
         has_loop_tag_ := has_loop_tag_ b |}
  | None =>
      let arrival_index := length (arrivals_ b) in
      {| match_crpr_clk_pin_ := match_crpr_clk_pin_ b;
         arrival_map_ := arrival_map_ b ++ [(tag, arrival_index)];
         arrivals_ := arrivals_ b ++ [arrival];
         prev_paths_ := prev_paths_ b ++ [prev_path];
         has_clk_tag_ := has_clk_tag_ b || Tag_isClock tag;
         has_genclk_src_tag_ := has_genclk_src_tag_ b || Tag_isGenClkSrcPath tag;
         has_filter_tag_ := has_filter_tag_ b || Tag_isFilter tag;
         has_loop_tag_ := has_loop_tag_ b || Tag_isLoop tag |}
  end.

Definition TagGroupBldr_setArrival (ops : TagOps) (tag : Tag) (arrival : Arrival)
  (prev_path : PathVertexRep) (b : TagGroupBldr) : TagGroupBldr :=
  match TagGroupBldr_tagMatchArrival ops tag b with
  | Some (tag_match, _, arrival_index) =>
      TagGroupBldr_setMatchArrival ops tag (Some (tag_match, arrival_index)) arrival prev_path b
  | None => TagGroupBldr_setMatchArrival ops tag None arrival prev_path b
  end.

Definition TagGroupBldr_deleteArrival (ops : TagOps) (tag : Tag) (b : TagGroupBldr)
  : TagGroupBldr :=
  {| match_crpr_clk_pin_ := match_crpr_clk_pin_ b;
     arrival_map_ := ArrivalMap_erase ops (match_crpr_clk_pin_ b) tag (arrival_map_ b);
     arrivals_ := arrivals_ b;
     prev_paths_ := prev_paths_ b;
     has_clk_tag_ := has_clk_tag_ b;
     has_genclk_src_tag_ := has_genclk_src_tag_ b;
     has_filter_tag_ := has_filter_tag_ b;
     has_loop_tag_ := has_loop_tag_ b |}.

(** The probe [TagGroup(tag_bldr)] and [makeTagGroup(index)]: the group of
    the builder's tags, with slots numbered in map order. *)
Definition TagGroupBldr_makeTagGroup (index : nat) (b : TagGroupBldr) : TagGroup :=
  {| tag_group_index := index;
     arrival_map := imap (fun i e => (fst e, i)) (arrival_map_ b) |}.

Definition TagGroup_arrivalIndex (ops : TagOps) (g : TagGroup) (tag : Tag) : option nat :=
  snd <$> ArrivalMap_findKey ops true tag (arrival_map g).

Definition TagGroup_hasTag (ops : TagOps) (g : TagGroup) (tag : Tag) : bool :=
  bool_decide (is_Some (TagGroup_arrivalIndex ops g tag)).

(** [copyArrivals(tag_group, arrivals, prev_paths)]: every builder arrival
    goes to the slot its tag has in [tag_group]. *)
Fixpoint TagGroupBldr_copyArrivals_loop (ops : TagOps) (g : TagGroup) (b : TagGroupBldr)
  (entries : list (Tag * nat)) (arrivals : list Arrival) (prev_paths : option (list PathVertexRep))
  : Result (list Arrival * option (list PathVertexRep)) :=
  match entries with
  | [] => Ok (arrivals, prev_paths)
  | (tag1, arrival_index1) :: rest =>
      match TagGroup_arrivalIndex ops g tag1 with
      | Some arrival_index2 =>
          TagGroupBldr_copyArrivals_loop ops g b rest
            (<[arrival_index2 := TagGroupBldr_arrival b arrival_index1]> arrivals)
            ((fun pp => <[arrival_index2 := default None (prev_paths_ b !! arrival_index1)]> pp)
               <$> prev_paths)
      | None => InternalError "tag group missing tag"
      end
  end.

Definition TagGroupBldr_copyArrivals (ops : TagOps) (g : TagGroup) (b : TagGroupBldr)
  (arrivals : list Arrival) (prev_paths : option (list PathVertexRep))
  : Result (list Arrival * option (list PathVertexRep)) :=
  TagGroupBldr_copyArrivals_loop ops g b (arrival_map_ b) arrivals prev_paths.

(** ** The interning pools *)

Definition Pools_init : Pools :=
  {| tags_ := []; tag_set_ := []; clk_info_set_ := []; clk_info_alloc_ := 0%nat;
     tag_groups_ := []; tag_group_set_ := [] |}.

Definition TagHashSet_findKey (probe : Tag) (set : list Tag) : option Tag :=
  List.find (fun t => tagEqual t probe) set.

Definition ClkInfoSet_findKey (probe : ClkInfo) (set : list ClkInfo) : option ClkInfo :=
  List.find (fun c => clkInfoEqual c probe) set.

Definition TagGroupSet_findKey (probe : TagGroup) (set : list TagGroup) : option TagGroup :=
  List.find (fun g => tagGroupEqual g probe) set.

(** [Search::findTag].  [own_states] only says who frees [states]. *)
Definition Search_findTag (lim : Limits) (tr : TransRiseFall) (path_ap : PathAPIndex)
  (clk_info : ClkInfo) (is_clk : bool) (input_delay : option nat) (is_segment_start : bool)
  (states : option (list ExceptionState)) (own_states : bool) (p : Pools)
  : Result (Tag * Pools) :=
  let probe := mkTag 0 tr path_ap clk_info is_clk input_delay is_segment_start states in
  match TagHashSet_findKey probe (tag_set_ p) with
  | Some tag => Ok (tag, p)
  | None =>
      (* Recheck with lock. *)
      match TagHashSet_findKey probe (tag_set_ p) with
      | Some tag => Ok (tag, p)
      | None =>
          let tag := mkTag (tag_count_ p) tr path_ap clk_info is_clk input_delay
                           is_segment_start states in
          let p' := {| tags_ := tags_ p ++ [Some tag];
                       tag_set_ := tag :: tag_set_ p;
                       clk_info_set_ := clk_info_set_ p;
                       clk_info_alloc_ := clk_info_alloc_ p;
                       tag_groups_ := tag_groups_ p;
                       tag_group_set_ := tag_group_set_ p |} in
          if bool_decide (tag_index_max lim < tag_count_ p')%nat
          then InternalError "max tag index exceeded"
          else Ok (tag, p')
      end
  end.

(** [Search::findClkInfo] (the eleven-argument overload). *)
Definition Search_findClkInfo (clk_edge : option ClockEdge) (clk_src : option Pin)
  (is_propagated : bool) (gen_clk_src : option Pin) (gen_clk_src_path : bool)
  (pulse_clk_sense : option TransRiseFall) (insertion : Arrival) (latency : Z)
  (uncertainties : option nat) (path_ap : PathAPIndex) (crpr_clk_path : option PathVertex)
  (p : Pools) : ClkInfo * Pools :=
  let crpr_clk_path_rep := p ← crpr_clk_path; PathVertexRep_init p in
  let probe := mkClkInfo 0 clk_edge clk_src is_propagated gen_clk_src gen_clk_src_path
                         pulse_clk_sense insertion latency uncertainties path_ap
                         crpr_clk_path_rep in
  match ClkInfoSet_findKey probe (clk_info_set_ p) with
  | Some clk_info => (clk_info, p)
  | None =>
      let clk_info := mkClkInfo (clk_info_alloc_ p) clk_edge clk_src is_propagated gen_clk_src
                                gen_clk_src_path pulse_clk_sense insertion latency
                                uncertainties path_ap crpr_clk_path_rep in
      (clk_info,
       {| tags_ := tags_ p;
          tag_set_ := tag_set_ p;
          clk_info_set_ := clk_info :: clk_info_set_ p;
          clk_info_alloc_ := S (clk_info_alloc_ p);
          tag_groups_ := tag_groups_ p;
          tag_group_set_ := tag_group_set_ p |})
  end.

(** The five-argument overload. *)
Definition Search_findClkInfo5 (clk_edge : option ClockEdge) (clk_src : option Pin)
  (is_propagated : bool) (insertion : Arrival) (path_ap : PathAPIndex) (p : Pools)
  : ClkInfo * Pools :=
  Search_findClkInfo clk_edge clk_src is_propagated None false None insertion 0 None
                     path_ap None p.

(** [Search::findTagGroup]. *)
Definition Search_findTagGroup (lim : Limits) (tag_bldr : TagGroupBldr) (p : Pools)
  : Result (TagGroup * Pools) :=
  let probe := TagGroupBldr_makeTagGroup 0 tag_bldr in
  match TagGroupSet_findKey probe (tag_group_set_ p) with
  | Some tag_group => Ok (tag_group, p)
  | None =>
      (* Recheck with lock. *)
      match TagGroupSet_findKey probe (tag_group_set_ p) with
      | Some tag_group => Ok (tag_group, p)
      | None =>
          let tag_group := TagGroupBldr_makeTagGroup (tag_group_count_ p) tag_bldr in
          let p' := {| tags_ := tags_ p;
                       tag_set_ := tag_set_ p;
                       clk_info_set_ := clk_info_set_ p;
                       clk_info_alloc_ := clk_info_alloc_ p;
                       tag_groups_ := tag_groups_ p ++ [Some tag_group];
                       tag_group_set_ := tag_group :: tag_group_set_ p |} in
          if bool_decide (tag_group_index_max lim < tag_group_count_ p')%nat
          then InternalError "max tag group index exceeded"
          else Ok (tag_group, p')
      end
  end.

(** [Search::tag(index)] and [Search::tagGroup(index)]. *)
Definition Search_tag (p : Pools) (index : nat) : option Tag :=
  default None (tags_ p !! index).

Definition Search_tagGroupAt (p : Pools) (index : nat) : option TagGroup :=
  default None (tag_groups_ p !! index).


(** [ClkInfo::refsFilter]: the CRPR clock path of the ClkInfo carries a
    filter tag. *)
Definition ClkInfo_refsFilter (p : Pools) (ci : ClkInfo) : bool :=
  match crpr_clk_path ci with
  | Some (_, index) =>
      match Search_tag p index with
      | Some tag => Tag_isFilter tag
      | None => false
      end
  | None => false
  end.

(** [Search::deleteFilterTagGroups], [deleteFilterClkInfos] and
    [deleteFilterTags], in the order [deleteFilteredArrivals] calls them. *)
Definition Search_deleteFilterTagGroups (p : Pools) : Pools :=
  {| tags_ := tags_ p;
     tag_set_ := tag_set_ p;
     clk_info_set_ := clk_info_set_ p;
     clk_info_alloc_ := clk_info_alloc_ p;
     tag_groups_ :=
       map (fun og => match og with
                      | Some g => if TagGroup_hasFilterTag g then None else Some g
                      | None => None
                      end) (tag_groups_ p);
     tag_group_set_ := List.filter (fun g => negb (TagGroup_hasFilterTag g)) (tag_group_set_ p) |}.

Definition Search_deleteFilterClkInfos (p : Pools) : Pools :=
  {| tags_ := tags_ p;
     tag_set_ := tag_set_ p;
     clk_info_set_ := List.filter (fun ci => negb (ClkInfo_refsFilter p ci)) (clk_info_set_ p);
     clk_info_alloc_ := clk_info_alloc_ p;
     tag_groups_ := tag_groups_ p;
     tag_group_set_ := tag_group_set_ p |}.

Definition Search_deleteFilterTags (p : Pools) : Pools :=
  {| tags_ :=
       map (fun ot => match ot with
                      | Some t => if Tag_isFilter t then None else Some t
                      | None => None
                      end) (tags_ p);
     tag_set_ := List.filter (fun t => negb (Tag_isFilter t)) (tag_set_ p);
     clk_info_set_ := clk_info_set_ p;
     clk_info_alloc_ := clk_info_alloc_ p;
     tag_groups_ := tag_groups_ p;
     tag_group_set_ := tag_group_set_ p |}.

(** ** Exception-state and tag mutation *)

(** Modelled from the spec: "matchesNextThru(from,to,tr,min_max) advances
    the cursor when the edge lies on the next required -thru"; a state
    whose cursor is past the last -thru matches nothing. *)
Definition ExceptionState_matchesNextThru (sdc : Sdc) (state : ExceptionState)
  (from_pin to_pin : Pin) (to_tr : TransRiseFall) (min_max : MinMax) : bool :=
  match ExceptionState_nextThru state with
  | Some thru => exceptionThruMatches sdc thru from_pin to_pin to_tr min_max
  | None => false
  end.

(** The loop [while (state->matchesNextThru(...)) state = state->nextState();]
    of [Search::mutateTag]; every iteration moves the cursor, so the number
    of -thru matchers bounds the iterations. *)
Fixpoint mutateTag_advance (sdc : Sdc) (fuel : nat) (state : ExceptionState)
  (from_pin to_pin : Pin) (to_tr : TransRiseFall) (min_max : MinMax) : ExceptionState :=
  match fuel with
  | O => state
  | S fuel' =>
      if ExceptionState_matchesNextThru sdc state from_pin to_pin to_tr min_max
      then mutateTag_advance sdc fuel' (ExceptionState_nextState state)
                             from_pin to_pin to_tr min_max
      else state
  end.

(** First loop of [Search::mutateTag] over [from_states]: [None] is
    [return NULL], [Some state_change] the flag at the end of the loop. *)
Fixpoint mutateTag_check (sdc : Sdc) (from_states : list ExceptionState)
  (from_pin : Pin) (from_is_clk : bool) (to_pin : Pin) (to_tr : TransRiseFall)
  (to_is_reg_clk : bool) (min_max : MinMax) : option bool :=
  match from_states with
  | [] => Some false
  | state :: rest =>
      let exception := exception state in
      if ExceptionState_isComplete state
         && ExceptionPath_isFalse exception
         && negb from_is_clk
      then
        (* Don't propagate a completed false path -thru unless it is a
           clock (which ignores exceptions). *)
        None
      else if ExceptionState_matchesNextThru sdc state from_pin to_pin to_tr min_max
      then
        (* Found a -thru that we've been waiting for. *)
        if ExceptionState_isComplete (ExceptionState_nextState state)
           && ExceptionPath_isLoop exception
        then None (* to_pin/edge completes a loop path. *)
        else Some true
      else if to_is_reg_clk && ExceptionPath_isLoop exception
      then Some true (* Kill loop tags at register clock pins. *)
      else mutateTag_check sdc rest from_pin from_is_clk to_pin to_tr to_is_reg_clk min_max
  end.

(** Second loop of [Search::mutateTag]: applies the state changes and adds
    the updated states to [new_states]; [None] is [return NULL]. *)
Fixpoint mutateTag_apply (sdc : Sdc) (from_states : list ExceptionState)
  (from_pin : Pin) (from_is_clk : bool) (to_pin : Pin) (to_tr : TransRiseFall)
  (to_is_reg_clk : bool) (min_max : MinMax) (new_states : list ExceptionState)
  : option (list ExceptionState) :=
  match from_states with
  | [] => Some new_states
  | state :: rest =>
      let exception := exception state in
      if ExceptionState_isComplete state
         && ExceptionPath_isFalse exception
         && negb from_is_clk
      then None
      else
        (* One edge may traverse multiple hierarchical thru pins. *)
        let state' := mutateTag_advance sdc (length (exception_thrus exception)) state
                                        from_pin to_pin to_tr min_max in
        if ExceptionState_isComplete state' && ExceptionPath_isLoop exception
        then None (* to_pin/edge completes a loop path. *)
        else
          (* Kill loop tags at register clock pins. *)
          mutateTag_apply sdc rest from_pin from_is_clk to_pin to_tr to_is_reg_clk min_max
            (if negb (to_is_reg_clk && ExceptionPath_isLoop exception)
             then ExceptionStateSet_insert state' new_states
             else new_states)
  end.

(** The tail of [Search::mutateTag], after the state set is known. *)
Definition mutateTag_result (lim : Limits) (from_tag : Tag) (from_tr : TransRiseFall)
  (from_is_clk : bool) (from_clk_info : ClkInfo) (to_tr : TransRiseFall) (to_is_clk : bool)
  (to_is_segment_start : bool) (to_clk_info : ClkInfo) (to_input_delay : option nat)
  (path_ap : PathAPIndex) (new_states : option (list ExceptionState)) (p : Pools)
  : Result (option Tag * Pools) :=
  match new_states with
  | Some _ =>
      '(tag, p') ← Search_findTag lim to_tr path_ap to_clk_info to_is_clk
                                  (input_delay from_tag) to_is_segment_start new_states true p;
      mret (Some tag, p')
  | None =>
      (* No state change. *)
      if bool_decide (clk_info_addr to_clk_info = clk_info_addr from_clk_info)
         && bool_decide (to_tr = from_tr)
         && eqb to_is_clk from_is_clk
         && eqb (is_segment_start from_tag) to_is_segment_start
         && bool_decide (input_delay from_tag = to_input_delay)
      then Ok (Some from_tag, p)
      else
        '(tag, p') ← Search_findTag lim to_tr path_ap to_clk_info to_is_clk
                                    to_input_delay to_is_segment_start (states from_tag) false p;
        mret (Some tag, p')
  end.

(** [Search::mutateTag]: the tag for a path going from [from_tag] thru an
    edge to [to_pin]; [None] when the path is killed. *)
Definition Search_mutateTag (sta : StaState) (from_tag : Tag) (from_pin : Pin)
  (from_tr : TransRiseFall) (from_is_clk : bool) (from_clk_info : ClkInfo) (to_pin : Pin)
  (to_tr : TransRiseFall) (to_is_clk : bool) (to_is_reg_clk : bool)
  (to_is_segment_start : bool) (to_clk_info : ClkInfo) (to_input_delay : option nat)
  (min_max : MinMax) (path_ap : PathAPIndex) (p : Pools) : Result (option Tag * Pools) :=
  let finish := mutateTag_result (limits sta) from_tag from_tr from_is_clk from_clk_info
                                 to_tr to_is_clk to_is_segment_start to_clk_info
                                 to_input_delay path_ap in
  match states from_tag with
  | Some from_states =>
      (* Check for state changes in from_tag (but postpone copying state set). *)
      match mutateTag_check (sdc_ sta) from_states from_pin from_is_clk to_pin to_tr
                            to_is_reg_clk min_max with
      | None => Ok (None, p)
      | Some state_change =>
          (* Get the set of -thru exceptions starting at to_pin/edge. *)
          let new_states := exceptionThruStates (sdc_ sta) from_pin to_pin to_tr min_max in
          if bool_decide (is_Some new_states) || state_change
          then
            (* Second pass to apply state changes and add updated existing
               states to new states. *)
            match mutateTag_apply (sdc_ sta) from_states from_pin from_is_clk to_pin to_tr
                                  to_is_reg_clk min_max (default [] new_states) with
            | None => Ok (None, p)
            | Some new_states' => finish (Some new_states') p
            end
          else finish None p
      end
  | None =>
      (* Get the set of -thru exceptions starting at to_pin/edge. *)
      finish (exceptionThruStates (sdc_ sta) from_pin to_pin to_tr min_max) p
  end.

(** [Search::thruTag]: the tag for a path starting with [from_tag] going
    thru [edge]; null if the result tag completes a false path. *)
Definition Search_thruTag (sta : StaState) (from_tag : Tag) (edge : Edge)
  (to_tr : TransRiseFall) (min_max : MinMax) (path_ap : PathAPIndex) (p : Pools)
  : Result (option Tag * Pools) :=
  let from_pin := vertex_pin (graph_ sta) (edge_from edge) in
  let to_vertex := edge_to edge in
  let to_pin := vertex_pin (graph_ sta) to_vertex in
  let from_tr := Tag_transition from_tag in
  let from_clk_info := clk_info from_tag in
  let to_is_reg_clk := vertex_isRegClk (graph_ sta) to_vertex in
  Search_mutateTag sta from_tag from_pin from_tr false from_clk_info
                   to_pin to_tr false to_is_reg_clk false
                   (* input delay is not propagated. *)
                   from_clk_info None min_max path_ap p.

(** [Search::thruClkInfo].  The source reads the transition of the clock
    edge of [from_clk_info] without a null test; the embedding takes rise
    when there is no edge. *)
Definition Search_thruClkInfo (sta : StaState) (from_path : PathVertex)
  (from_clk_info : ClkInfo) (edge : Edge) (to_vertex : Vertex) (to_pin : Pin)
  (min_max : MinMax) (path_ap : PathAPIndex) (p : Pools) : ClkInfo * Pools :=
  let sdc := sdc_ sta in
  let from_clk_edge := clk_edge from_clk_info in
  let clk_tr := default TR_rise (clock_edge_transition <$> from_clk_edge) in
  let from_clk_prop := is_propagated from_clk_info in
  let prop_changed := negb from_clk_prop && isPropagatedClock sdc to_pin in
  let to_clk_prop0 := if prop_changed then true else from_clk_prop in
  (* Distinguish gen clk src path ClkInfo at generated clock roots. *)
  let gen_changed := is_gen_clk_src_path from_clk_info && crprActive sdc && isClock sdc to_pin in
  let gen_clk_src := if gen_changed then Some to_pin else None in
  let crpr_changed := crprActive sdc && vertex_isRegClk (graph_ sta) to_vertex in
  let to_crpr_clk_path := if crpr_changed then Some from_path else None in
  (* Propagate liberty "pulse_clock" transition to transitive fanout. *)
  let from_pulse_sense := pulse_clk_sense from_clk_info in
  let '(to_pulse_sense, pulse_changed) :=
    match libertyPortPulseClkSense (network_ sta) to_pin with
    | Some sense => (Some sense, true)
    | None =>
        match from_pulse_sense with
        | Some fs =>
            if bool_decide (edge_sense edge = timing_sense_negative_unate)
            then (Some (TransRiseFall_opposite fs), true)
            else (from_pulse_sense, false)
        | None => (from_pulse_sense, false)
        end
    end in
  let from_clk := ClkInfo_clock from_clk_info in
  let to_insertion := insertion from_clk_info in
  let '(to_latency, to_clk_prop, latency_changed) :=
    match clockLatencyPin sdc from_clk to_pin clk_tr min_max with
    | Some l =>
        (* Latency on pin has precidence over fanin or hierarchical pin latency. *)
        (l, false, true)
    | None =>
        (* Check for hierarchical pin latency thru edge. *)
        match clockLatencyEdge sdc edge clk_tr min_max with
        | Some l => (l, false, true)
        | None => (latency from_clk_info, to_clk_prop0, false)
        end
    end in
  let '(to_uncertainties, unc_changed) :=
    match clockUncertainties sdc to_pin with
    | Some u => (Some u, true)
    | None => (uncertainties from_clk_info, false)
    end in
  let changed := prop_changed || gen_changed || crpr_changed || pulse_changed
                 || latency_changed || unc_changed in
  if changed
  then Search_findClkInfo from_clk_edge (clk_src from_clk_info) to_clk_prop gen_clk_src
                          (is_gen_clk_src_path from_clk_info) to_pulse_sense to_insertion
                          to_latency to_uncertainties path_ap to_crpr_clk_path p
  else (from_clk_info, p).

(** [Search::thruClkTag]. *)
Definition Search_thruClkTag (sta : StaState) (from_path : PathVertex) (from_tag : Tag)
  (to_propagates_clk : bool) (edge : Edge) (to_tr : TransRiseFall) (min_max : MinMax)
  (path_ap : PathAPIndex) (p : Pools) : Result (option Tag * Pools) :=
  let from_pin := vertex_pin (graph_ sta) (edge_from edge) in
  let to_vertex := edge_to edge in
  let to_pin := vertex_pin (graph_ sta) to_vertex in
  let from_tr := Tag_transition from_tag in
  let from_clk_info := clk_info from_tag in
  let from_is_clk := Tag_isClock from_tag in
  let to_is_reg_clk := vertex_isRegClk (graph_ sta) to_vertex in
  let role := edge_role edge in
  let to_is_clk := from_is_clk && to_propagates_clk
                   && (TimingRole_isWire role || bool_decide (role = role_combinational)) in
  let '(to_clk_info, p1) := Search_thruClkInfo sta from_path from_clk_info edge to_vertex
                                               to_pin min_max path_ap p in
  Search_mutateTag sta from_tag from_pin from_tr from_is_clk from_clk_info
                   to_pin to_tr to_is_clk to_is_reg_clk false
                   to_clk_info None min_max path_ap p1.

(** [Search::clkInfoWithCrprClkPath]: insert [from_path] as the ClkInfo
    crpr_clk_path. *)
Definition Search_clkInfoWithCrprClkPath (sta : StaState) (from_clk_info : ClkInfo)
  (from_path : PathVertex) (path_ap : PathAPIndex) (p : Pools) : ClkInfo * Pools :=
  if crprActive (sdc_ sta)
  then Search_findClkInfo (clk_edge from_clk_info) (clk_src from_clk_info)
                          (is_propagated from_clk_info) (gen_clk_src from_clk_info)
                          (is_gen_clk_src_path from_clk_info) (pulse_clk_sense from_clk_info)
                          (insertion from_clk_info) (latency from_clk_info)
                          (uncertainties from_clk_info) path_ap (Some from_path) p
  else (from_clk_info, p).

(** [Search::fromUnclkedInputTag]: null if a false path starts at the pin. *)
Definition Search_fromUnclkedInputTag (sta : StaState) (pin : Pin) (tr : TransRiseFall)
  (min_max : MinMax) (path_ap : PathAPIndex) (is_segment_start : bool) (p : Pools)
  : Result (option Tag * Pools) :=
  match exceptionFromStates (sdc_ sta) pin tr None None min_max with
  | Some states =>
      let '(clk_info, p1) := Search_findClkInfo5 None None false 0 path_ap p in
      '(tag, p2) ← Search_findTag (limits sta) tr path_ap clk_info false None
                                  is_segment_start states true p1;
      mret (Some tag, p2)
  | None => Ok (None, p)
  end.

(** [Search::fromRegClkTag]. *)
Definition Search_fromRegClkTag (sta : StaState) (from_pin : Pin) (from_tr : TransRiseFall)
  (clk : option Clock) (clk_tr : option TransRiseFall) (clk_info : ClkInfo) (to_pin : Pin)
  (to_tr : TransRiseFall) (min_max : MinMax) (path_ap : PathAPIndex) (p : Pools)
  : Result (option Tag * Pools) :=
  match exceptionFromStates (sdc_ sta) from_pin from_tr clk clk_tr min_max with
  | Some states =>
      (* Hack for filter -from reg/Q. *)
      let states' := filterRegQStates (sdc_ sta) to_pin to_tr min_max states in
      '(tag, p1) ← Search_findTag (limits sta) to_tr path_ap clk_info false None false
                                  states' true p;
      mret (Some tag, p1)
  | None => Ok (None, p)
  end.

(** ** Vertex paths *)

(** The slots of a vertex without paths, as [Search::deletePaths1] leaves
    them. *)
Definition VertexPaths_none (lim : Limits) : VertexPaths :=
  {| vertex_tag_group_index := tag_group_index_max lim;
     vertex_arrivals := None;
     vertex_prev_paths := None;
     vertex_has_requireds := false |}.

Definition vertexPaths (lim : Limits) (vp : gmap Vertex VertexPaths) (vertex : Vertex)
  : VertexPaths :=
  default (VertexPaths_none lim) (vp !! vertex).

(** [Search::tagGroup(vertex)]. *)
Definition Search_tagGroup (lim : Limits) (vp : gmap Vertex VertexPaths) (p : Pools)
  (vertex : Vertex) : option TagGroup :=
  let index := vertex_tag_group_index (vertexPaths lim vp vertex) in
  if bool_decide (index = tag_group_index_max lim)
  then None
  else Search_tagGroupAt p index.

(** [VertexPathIterator(vertex, sta)]: the paths at a vertex, in the order
    of the arrival map of its tag group. *)
Definition VertexPathIterator (lim : Limits) (vp : gmap Vertex VertexPaths) (p : Pools)
  (vertex : Vertex) : list PathVertex :=
  match Search_tagGroup lim vp p vertex with
  | Some tag_group =>
      let arrivals := default [] (vertex_arrivals (vertexPaths lim vp vertex)) in
      map (fun e => {| path_vertex := vertex;
                       path_tag := fst e;
                       path_arrival_index := snd e;
                       path_arrival := default 0 (arrivals !! snd e) |})
          (arrival_map tag_group)
  | None => []
  end.

(** [VertexPathIterator(vertex, tr, path_ap, sta)]. *)
Definition VertexPathIterator_tr_ap (lim : Limits) (vp : gmap Vertex VertexPaths) (p : Pools)
  (vertex : Vertex) (tr : TransRiseFall) (path_ap : PathAPIndex) : list PathVertex :=
  List.filter (fun path => bool_decide (tr_index (path_tag path) = tr)
                           && bool_decide (path_ap_index (path_tag path) = path_ap))
              (VertexPathIterator lim vp p vertex).

(** [PathVertex::required]: the required time stored behind the arrivals,
    or the initial value when the vertex has no required times. *)
Definition PathVertex_required (sta : StaState) (vp : gmap Vertex VertexPaths) (p : Pools)
  (vertex : Vertex) (tag : Tag) : Required :=
  let paths := vertexPaths (limits sta) vp vertex in
  let init := delayInitValue (delay_ops sta)
                (MinMax_opposite (pathMinMax (corners_ sta) (path_ap_index tag))) in
  if vertex_has_requireds paths
  then
    match Search_tagGroup (limits sta) vp p vertex with
    | Some tag_group =>
        match TagGroup_arrivalIndex (tag_ops sta) tag_group tag with
        | Some arrival_index =>
            default init (default [] (vertex_arrivals paths)
                            !! (TagGroup_arrivalCount tag_group + arrival_index)%nat)
        | None => init
        end
    | None => init
    end
  else init.

(** ** Search predicates *)

(** [EvalPred::searchThru]. *)
Definition EvalPred_searchThru (sta : StaState) (search_thru_latches_ : bool) (edge : Edge)
  : bool :=
  let sdc := sdc_ sta in
  let role := edge_role edge in
  SearchPred0_searchThru (search_pred0 sta) edge
  && (dynamicLoopBreaking sdc || negb (edge_isDisabledLoop edge))
  && negb (TimingRole_isTimingCheck role)
  && (search_thru_latches_
      || bool_decide (role <> role_latchDtoQ)
      || bool_decide (latchDtoQState (latches_ sta) edge = latch_state_open)).

(** [EvalPred::searchTo]. *)
Definition EvalPred_searchTo (sta : StaState) (to_vertex : Vertex) : bool :=
  let sdc := sdc_ sta in
  let pin := vertex_pin (graph_ sta) to_vertex in
  SearchPred0_searchTo (search_pred0 sta) to_vertex
  && negb (isVertexPinClock sdc pin && negb (isPathDelayInternalEndpoint sdc pin)).

(** [ClkArrivalSearchPred::searchThru]. *)
Definition ClkArrivalSearchPred_searchThru (sta : StaState) (search_thru_latches_ : bool)
  (edge : Edge) : bool :=
  let role := edge_role edge in
  (TimingRole_isWire role || bool_decide (role = role_combinational))
  && EvalPred_searchThru sta search_thru_latches_ edge.

(** [DynLoopSrchPred::hasPendingLoopPaths]; [tag_bldr_] is the builder the
    predicate was made with (null for [search_adj_]).  [thruTag] may
    intern a tag. *)
Fixpoint hasPendingLoopPaths_loop (sta : StaState) (edge : Edge)
  (prev_tag_group : option TagGroup) (entries : list (Tag * nat)) (p : Pools)
  : Result (bool * Pools) :=
  match entries with
  | [] => Ok (false, p)
  | (from_tag, _) :: rest =>
      if Tag_isLoop from_tag
      then
        (* Loop false path exceptions apply to rise/fall edges so to_tr
           does not matter. *)
        let path_ap := path_ap_index from_tag in
        '(to_tag, p1) ← Search_thruTag sta from_tag edge TR_rise
                                       (pathMinMax (corners_ sta) path_ap) path_ap p;
        if bool_decide (is_Some to_tag)
           && match prev_tag_group with
              | None => true
              | Some g => negb (TagGroup_hasTag (tag_ops sta) g from_tag)
              end
        then Ok (true, p1)
        else hasPendingLoopPaths_loop sta edge prev_tag_group rest p1
      else hasPendingLoopPaths_loop sta edge prev_tag_group rest p
  end.

Definition DynLoopSrchPred_hasPendingLoopPaths (sta : StaState)
  (tag_bldr_ : option TagGroupBldr) (edge : Edge) (vp : gmap Vertex VertexPaths) (p : Pools)
  : Result (bool * Pools) :=
  match tag_bldr_ with
  | Some bldr =>
      if TagGroupBldr_hasLoopTag bldr
      then hasPendingLoopPaths_loop sta edge
             (Search_tagGroup (limits sta) vp p (edge_from edge)) (arrival_map_ bldr) p
      else Ok (false, p)
  | None => Ok (false, p)
  end.

(** [DynLoopSrchPred::loopEnabled]. *)
Definition DynLoopSrchPred_loopEnabled (sta : StaState) (tag_bldr_ : option TagGroupBldr)
  (edge : Edge) (vp : gmap Vertex VertexPaths) (p : Pools) : Result (bool * Pools) :=
  if negb (edge_isDisabledLoop edge)
  then Ok (true, p)
  else if dynamicLoopBreaking (sdc_ sta)
       then DynLoopSrchPred_hasPendingLoopPaths sta tag_bldr_ edge vp p
       else Ok (false, p).

(** [SearchThru::searchThru]: EvalPred unless latch D->Q edge. *)
Definition SearchThru_searchThru (sta : StaState) (tag_bldr_ : option TagGroupBldr)
  (edge : Edge) (vp : gmap Vertex VertexPaths) (p : Pools) : Result (bool * Pools) :=
  if EvalPred_searchThru sta true edge
     (* Only search thru latch D->Q if it is always open.
        Enqueue thru latches is handled explicitly by search. *)
     && (bool_decide (edge_role edge <> role_latchDtoQ)
         || bool_decide (latchDtoQState (latches_ sta) edge = latch_state_open))
  then DynLoopSrchPred_loopEnabled sta tag_bldr_ edge vp p
  else Ok (false, p).

(** The predicate object a visitor or an iterator holds. *)
Inductive SearchPred :=
| pred_EvalPred (search_thru_latches_ : bool)
| pred_ClkArrivalSearchPred (search_thru_latches_ : bool)
| pred_SearchThru (tag_bldr_ : option TagGroupBldr).

Definition SearchPred_searchFrom (sta : StaState) (pred : SearchPred) (from_vertex : Vertex)
  : bool :=
  SearchPred0_searchFrom (search_pred0 sta) from_vertex.

Definition SearchPred_searchTo (sta : StaState) (pred : SearchPred) (to_vertex : Vertex)
  : bool :=
  EvalPred_searchTo sta to_vertex.

Definition SearchPred_searchThru (sta : StaState) (pred : SearchPred) (edge : Edge)
  (vp : gmap Vertex VertexPaths) (p : Pools) : Result (bool * Pools) :=
  match pred with
  | pred_EvalPred thru_latches => Ok (EvalPred_searchThru sta thru_latches edge, p)
  | pred_ClkArrivalSearchPred thru_latches =>
      Ok (ClkArrivalSearchPred_searchThru sta thru_latches edge, p)
  | pred_SearchThru tag_bldr => SearchThru_searchThru sta tag_bldr edge vp p
  end.

(** ** Arc delays and clock path arrivals *)

(** [Search::timingDerate]. *)
Definition Search_timingDerate (sta : StaState) (from_vertex : Vertex) (arc : TimingArc)
  (edge : Edge) (is_clk : bool) (path_ap : PathAPIndex) : Z :=
  let derate_clk_data := is_clk in
  let role := edge_role edge in
  let pin := vertex_pin (graph_ sta) from_vertex in
  if TimingRole_isWire role
  then timingDerateNet (sdc_ sta) pin derate_clk_data (arc_toTrans arc)
                       (pathMinMax (corners_ sta) path_ap)
  else
    let '(derate_type, tr) :=
      if TimingRole_isTimingCheck role
      then (timing_derate_cell_check, arc_toTrans arc)
      else (timing_derate_cell_delay, arc_fromTrans arc) in
    timingDerateInstance (sdc_ sta) pin derate_type derate_clk_data tr
                         (pathMinMax (corners_ sta) path_ap).

(** [Search::deratedDelay]: [delay + (derate - 1.0) * delay], the factor a
    fixed-point number. *)
Definition Search_deratedDelay (sta : StaState) (from_vertex : Vertex) (arc : TimingArc)
  (edge : Edge) (is_clk : bool) (path_ap : PathAPIndex) : ArcDelay :=
  let ap_index := dcalcAnalysisPt_index (corners_ sta) path_ap in
  let derate := Search_timingDerate sta from_vertex arc edge is_clk path_ap in
  let delay := arcDelay (graph_ sta) edge arc ap_index in
  let unit := derate_unit (delay_ops sta) in
  delay + ((derate - unit) * delay) / unit.

(** [Search::clockInsertion]. *)
Definition Search_clockInsertion (sta : StaState) (clk : Clock) (pin : option Pin)
  (tr : TransRiseFall) (min_max early_late : MinMax) (path_ap : PathAPIndex) : Arrival :=
  match clockInsertionPin (sdc_ sta) clk pin tr min_max early_late with
  | Some insert => insert
  | None =>
      if clock_isGeneratedWithPropagatedMaster (sdc_ sta) clk
      then genclks_insertionDelay (genclks_ sta) clk pin tr early_late path_ap
      else 0
  end.

(** [Search::clkPathArrival] (the five-argument overload). *)
Definition Search_clkPathArrival (sta : StaState) (clk_path : PathVertex)
  (clk_info : ClkInfo) (clk_edge : option ClockEdge) (min_max : MinMax)
  (path_ap : PathAPIndex) : Arrival :=
  match clk_edge with
  | Some ce =>
      if vertex_isRegClk (graph_ sta) (path_vertex clk_path)
         && Tag_isClock (path_tag clk_path)
         && negb (is_propagated clk_info)
      then
        (* Ideal clock, apply ideal insertion delay and latency. *)
        let early_late := min_max in
        clock_edge_time ce
        + Search_clockInsertion sta (clock_edge_clock ce) (clk_src clk_info)
                                (clock_edge_transition ce) min_max early_late path_ap
        + latency clk_info
      else path_arrival clk_path
  | None => path_arrival clk_path
  end.

(** [Search::isSegmentStart]. *)
Definition Search_isSegmentStart (sta : StaState) (pin : Pin) : bool :=
  (isPathDelayInternalStartpoint (sdc_ sta) pin || isInputDelayInternal (sdc_ sta) pin)
  && negb (isVertexPinClock (sdc_ sta) pin).

(** [Search::pathPropagatedToClkSrc]. *)
Definition Search_pathPropagatedToClkSrc (sta : StaState) (pin : Pin) (path : PathVertex)
  : bool :=
  let tag := path_tag path in
  if negb (Tag_isGenClkSrcPath tag)
     (* Clock source can have input arrivals from unrelated clock. *)
     && bool_decide (input_delay tag = None)
     && isPathDelayInternalEndpoint (sdc_ sta) pin
  then
    match findVertexPinClocks (sdc_ sta) pin with
    | Some clks =>
        match ClkInfo_clock (clk_info tag) with
        | Some clk => negb (bool_decide (clk ∈ clks))
        | None => true
        end
    | None => false
    end
  else false.

(** ** PathVisitor

    The traversal shared by the arrival and the required visitors.  The
    visitor state [V] and its [visitFromToPath] are the derived class. *)

(** The outgoing tag, arc delay and arrival that [PathVisitor::visitFromPath]
    derives before it calls [visitFromToPath]; a null tag means the edge
    contributes nothing. *)
Definition PathVisitor_visitFromPath_to (sta : StaState) (vp : gmap Vertex VertexPaths)
  (from_pin : Pin) (from_vertex : Vertex) (from_tr : TransRiseFall) (from_path : PathVertex)
  (edge : Edge) (arc : TimingArc) (to_pin : Pin) (to_vertex : Vertex)
  (to_tr : TransRiseFall) (min_max : MinMax) (path_ap : PathAPIndex) (p : Pools)
  : Result (option Tag * ArcDelay * Arrival * Pools) :=
  let sdc := sdc_ sta in
  let role := edge_role edge in
  let from_tag := path_tag from_path in
  let from_clk_info := clk_info from_tag in
  let clk_edge := clk_edge from_clk_info in
  let clk := ClkInfo_clock from_clk_info in
  let from_arrival := path_arrival from_path in
  let tristate := bool_decide (role = role_tristateEnable)
                  || bool_decide (role = role_tristateDisable) in
  if is_gen_clk_src_path from_clk_info then
    if negb (clkStopPropagation sdc clk from_pin from_tr to_pin to_tr)
       && (clkThruTristateEnabled sdc || negb tristate)
    then
      match genClkSrcPathClk (tag_ops sta) from_tag with
      | Some gclk =>
          let fanins := genclks_fanins (genclks_ sta) gclk in
          (* Note: encountering a latch d->q edge means find the latch
             feedback edges, but they are referenced for other edges in
             the gen clk fanout. *)
          let fdbk_edges := genclks_latchFdbkEdges (genclks_ sta) gclk in
          if (bool_decide (role = role_combinational)
              || bool_decide (role = role_wire)
              || negb (clock_combinational sdc gclk))
             && bool_decide (to_vertex ∈ fanins)
             && negb (match fdbk_edges with
                      | Some es => bool_decide (edge_id edge ∈ es)
                      | None => false
                      end)
          then
            '(to_tag, p1) ← Search_thruClkTag sta from_path from_tag true edge to_tr
                                              min_max path_ap p;
            match to_tag with
            | Some _ =>
                let arc_delay := Search_deratedDelay sta from_vertex arc edge true path_ap in
                Ok (to_tag, arc_delay, from_arrival + arc_delay, p1)
            | None => Ok (None, 0, 0, p1)
            end
          else Ok (None, 0, 0, p)
      | None =>
          (* PLL out to feedback path. *)
          '(to_tag, p1) ← Search_thruTag sta from_tag edge to_tr min_max path_ap p;
          match to_tag with
          | Some _ =>
              let arc_delay := Search_deratedDelay sta from_vertex arc edge true path_ap in
              Ok (to_tag, arc_delay, from_arrival + arc_delay, p1)
          | None => Ok (None, 0, 0, p1)
          end
      end
    else Ok (None, 0, 0, p)
  else if bool_decide (TimingRole_genericRole role = role_regClkToQ) then
    if bool_decide (clk = None) || negb (clkStopPropagationPin sdc from_pin clk)
    then
      let arc_delay := Search_deratedDelay sta from_vertex arc edge false path_ap in
      (* Propagate from unclocked reg/latch clk pins, which have no
         clk but are distinguished with a segment_start flag. *)
      if (bool_decide (clk_edge = None) && is_segment_start from_tag)
         (* Do not propagate paths from input ports with default
            input arrival clk thru CLK->Q edges. *)
         || (bool_decide (clk <> defaultArrivalClock sdc)
             (* Only propagate paths from clocks that have not
                passed thru reg/latch D->Q edges. *)
             && Tag_isClock from_tag)
      then
        let clk_tr := clock_edge_transition <$> clk_edge in
        let '(to_clk_info, p1) :=
          if direction_isInternal (network_ sta) to_pin
          then Search_clkInfoWithCrprClkPath sta from_clk_info from_path path_ap p
          else (from_clk_info, p) in
        '(to_tag0, p2) ← Search_fromRegClkTag sta from_pin from_tr clk clk_tr to_clk_info
                                              to_pin to_tr min_max path_ap p1;
        '(to_tag, p3) ← match to_tag0 with
                        | Some t => Search_thruTag sta t edge to_tr min_max path_ap p2
                        | None => Ok (None, p2)
                        end;
        let from_arrival' := Search_clkPathArrival sta from_path from_clk_info clk_edge
                                                   min_max path_ap in
        Ok (to_tag, arc_delay, from_arrival' + arc_delay, p3)
      else Ok (None, arc_delay, 0, p)
    else Ok (None, 0, 0, p)
  else if bool_decide (role = role_latchDtoQ) then
    if bool_decide (min_max = MinMax_max)
    then
      let arc_delay := Search_deratedDelay sta from_vertex arc edge false path_ap in
      '(to_tag0, arc_delay', to_arrival, p1) ←
         latchOutArrival (latches_ sta) vp from_path arc edge path_ap arc_delay p;
      '(to_tag, p2) ← match to_tag0 with
                      | Some t => Search_thruTag sta t edge to_tr min_max path_ap p1
                      | None => Ok (None, p1)
                      end;
      Ok (to_tag, arc_delay', to_arrival, p2)
    else Ok (None, 0, 0, p)
  else if Tag_isClock from_tag then
    (* Disable edges from hierarchical clock source pins that do
       not go thru the hierarchical pin and edges from clock source pins
       that traverse a hierarchical source pin of a different clock.
       Clock arrivals used as data also need to be disabled. *)
    if negb (bool_decide (role = role_wire) && clkDisabledByHpinThru sdc clk from_pin to_pin)
    then
      (* Propagate arrival as non-clock at the end of the clock tree. *)
      let to_propagates_clk :=
        negb (clkStopPropagation sdc clk from_pin from_tr to_pin to_tr)
        && (clkThruTristateEnabled sdc || negb tristate) in
      let arc_delay := Search_deratedDelay sta from_vertex arc edge to_propagates_clk
                                           path_ap in
      '(to_tag, p1) ← Search_thruClkTag sta from_path from_tag to_propagates_clk edge to_tr
                                        min_max path_ap p;
      Ok (to_tag, arc_delay, from_arrival + arc_delay, p1)
    else Ok (None, 0, 0, p)
  else
    let arc_delay := Search_deratedDelay sta from_vertex arc edge false path_ap in
    if negb (delayFuzzyEqual (delay_ops sta) arc_delay
                             (MinMax_initValue (delay_ops sta) min_max))
    then
      '(to_tag, p1) ← Search_thruTag sta from_tag edge to_tr min_max path_ap p;
      Ok (to_tag, arc_delay, from_arrival + arc_delay, p1)
    else Ok (None, arc_delay, 0, p).

Section PathVisitor.

Context {V : Type}.

(** The virtual [visitFromToPath] of the derived visitor; it reads the
    pools and updates the visitor. *)
Variable visitFromToPath :
  Pin -> Vertex -> TransRiseFall -> Tag -> PathVertex -> Edge -> TimingArc -> ArcDelay ->
  Vertex -> TransRiseFall -> Tag -> Arrival -> MinMax -> PathAPIndex -> Pools -> V -> bool * V.

Variable sta : StaState.
Variable vp : gmap Vertex VertexPaths.

(** [PathVisitor::visitFromPath]. *)
Definition PathVisitor_visitFromPath (from_pin : Pin) (from_vertex : Vertex)
  (from_tr : TransRiseFall) (from_path : PathVertex) (edge : Edge) (arc : TimingArc)
  (to_pin : Pin) (to_vertex : Vertex) (to_tr : TransRiseFall) (min_max : MinMax)
  (path_ap : PathAPIndex) (p : Pools) (v : V) : Result (bool * V * Pools) :=
  '(to_tag, arc_delay, to_arrival, p1) ←
     PathVisitor_visitFromPath_to sta vp from_pin from_vertex from_tr from_path edge arc
                                  to_pin to_vertex to_tr min_max path_ap p;
  match to_tag with
  | Some to_tag =>
      let '(continue, v') :=
        visitFromToPath from_pin from_vertex from_tr (path_tag from_path) from_path edge arc
                        arc_delay to_vertex to_tr to_tag to_arrival min_max path_ap p1 v in
      Ok (continue, v', p1)
  | None => Ok (true, v, p1)
  end.

(** [PathVisitor::visitArc]. *)
Definition PathVisitor_visitArc (from_pin : Pin) (from_vertex : Vertex)
  (from_tr : TransRiseFall) (from_path : PathVertex) (edge : Edge) (arc : option TimingArc)
  (to_pin : Pin) (to_vertex : Vertex) (min_max : MinMax) (path_ap : PathAPIndex)
  (p : Pools) (v : V) : Result (bool * V * Pools) :=
  match arc with
  | Some arc =>
      let to_tr := arc_toTrans arc in
      if searchThruArc (search_pred0 sta) from_vertex from_tr edge to_vertex to_tr
      then PathVisitor_visitFromPath from_pin from_vertex from_tr from_path edge arc
                                     to_pin to_vertex to_tr min_max path_ap p v
      else Ok (true, v, p)
  | None => Ok (true, v, p)
  end.

(** The loop of [PathVisitor::visitEdge] over the paths of the from
    vertex. *)
Fixpoint PathVisitor_visitEdge_loop (from_pin : Pin) (from_vertex : Vertex) (edge : Edge)
  (to_pin : Pin) (to_vertex : Vertex) (from_paths : list PathVertex) (p : Pools) (v : V)
  : Result (bool * V * Pools) :=
  match from_paths with
  | [] => Ok (true, v, p)
  | from_path :: rest =>
      let from_tag := path_tag from_path in
      let next := PathVisitor_visitEdge_loop from_pin from_vertex edge to_pin to_vertex rest in
      (* Only propagate seeded paths from segment startpoint. *)
      if negb (Search_isSegmentStart sta from_pin) || is_segment_start from_tag
      then
        let path_ap := path_ap_index from_tag in
        let min_max := pathMinMax (corners_ sta) path_ap in
        let from_tr := Tag_transition from_tag in
        (* Do not propagate paths from a clock source unless they are
           defined on the from pin. *)
        if negb (Search_pathPropagatedToClkSrc sta from_pin from_path)
        then
          let '(arc1, arc2) := TimingArcSet_arcsFrom (edge_arcs edge) from_tr in
          '(continue1, v1, p1) ← PathVisitor_visitArc from_pin from_vertex from_tr from_path
                                                      edge arc1 to_pin to_vertex min_max
                                                      path_ap p v;
          if negb continue1 then Ok (false, v1, p1)
          else
            '(continue2, v2, p2) ← PathVisitor_visitArc from_pin from_vertex from_tr from_path
                                                        edge arc2 to_pin to_vertex min_max
                                                        path_ap p1 v1;
            if negb continue2 then Ok (false, v2, p2)
            else next p2 v2
        else next p v
      else next p v
  end.

(** [PathVisitor::visitEdge]. *)
Definition PathVisitor_visitEdge (from_pin : Pin) (from_vertex : Vertex) (edge : Edge)
  (to_pin : Pin) (to_vertex : Vertex) (p : Pools) (v : V) : Result (bool * V * Pools) :=
  match Search_tagGroup (limits sta) vp p from_vertex with
  | Some _ =>
      PathVisitor_visitEdge_loop from_pin from_vertex edge to_pin to_vertex
                                 (VertexPathIterator (limits sta) vp p from_vertex) p v
  | None => Ok (true, v, p)
  end.

(** The loop of [PathVisitor::visitFaninPaths] over the in-edges. *)
Fixpoint PathVisitor_visitFaninPaths_loop (pred_ : SearchPred) (to_vertex : Vertex)
  (edges : list Edge) (p : Pools) (v : V) : Result (V * Pools) :=
  match edges with
  | [] => Ok (v, p)
  | edge :: rest =>
      let from_vertex := edge_from edge in
      let from_pin := vertex_pin (graph_ sta) from_vertex in
      if SearchPred_searchFrom sta pred_ from_vertex
      then
        '(thru, p1) ← SearchPred_searchThru sta pred_ edge vp p;
        if (thru : bool)
        then
          let to_pin := vertex_pin (graph_ sta) to_vertex in
          '(continue, v1, p2) ← PathVisitor_visitEdge from_pin from_vertex edge to_pin
                                                      to_vertex p1 v;
          if negb continue then Ok (v1, p2)
          else PathVisitor_visitFaninPaths_loop pred_ to_vertex rest p2 v1
        else PathVisitor_visitFaninPaths_loop pred_ to_vertex rest p1 v
      else PathVisitor_visitFaninPaths_loop pred_ to_vertex rest p v
  end.

(** [PathVisitor::visitFaninPaths]. *)
Definition PathVisitor_visitFaninPaths (pred_ : SearchPred) (to_vertex : Vertex)
  (p : Pools) (v : V) : Result (V * Pools) :=
  if SearchPred_searchTo sta pred_ to_vertex
  then PathVisitor_visitFaninPaths_loop pred_ to_vertex
         (vertex_in_edges (graph_ sta) to_vertex) p v
  else Ok (v, p).

(** The loop of [PathVisitor::visitFanoutPaths] over the out-edges. *)
Fixpoint PathVisitor_visitFanoutPaths_loop (pred_ : SearchPred) (from_vertex : Vertex)
  (edges : list Edge) (p : Pools) (v : V) : Result (V * Pools) :=
  match edges with
  | [] => Ok (v, p)
  | edge :: rest =>
      let from_pin := vertex_pin (graph_ sta) from_vertex in
      let to_vertex := edge_to edge in
      let to_pin := vertex_pin (graph_ sta) to_vertex in
      if SearchPred_searchTo sta pred_ to_vertex
      then
        '(thru, p1) ← SearchPred_searchThru sta pred_ edge vp p;
        if (thru : bool)
        then
          '(continue, v1, p2) ← PathVisitor_visitEdge from_pin from_vertex edge to_pin
                                                      to_vertex p1 v;
          if negb continue then Ok (v1, p2)
          else PathVisitor_visitFanoutPaths_loop pred_ from_vertex rest p2 v1
        else PathVisitor_visitFanoutPaths_loop pred_ from_vertex rest p1 v
      else PathVisitor_visitFanoutPaths_loop pred_ from_vertex rest p v
  end.

(** [PathVisitor::visitFanoutPaths]. *)
Definition PathVisitor_visitFanoutPaths (pred_ : SearchPred) (from_vertex : Vertex)
  (p : Pools) (v : V) : Result (V * Pools) :=
  if SearchPred_searchFrom sta pred_ from_vertex
  then PathVisitor_visitFanoutPaths_loop pred_ from_vertex
         (vertex_out_edges (graph_ sta) from_vertex) p v
  else Ok (v, p).

End PathVisitor.

(** ** ArrivalVisitor *)

Record ArrivalVisitor := mkArrivalVisitor {
  always_to_endpoints_ : bool;
  pred_ : SearchPred;
  crpr_active_ : bool;
  has_fanin_one_ : bool;
  tag_bldr_ : TagGroupBldr;
  tag_bldr_no_crpr_ : TagGroupBldr
}.

Definition ArrivalVisitor_set_builders (av : ArrivalVisitor)
  (tag_bldr tag_bldr_no_crpr : TagGroupBldr) : ArrivalVisitor :=
  {| always_to_endpoints_ := always_to_endpoints_ av;
     pred_ := pred_ av;
     crpr_active_ := crpr_active_ av;
     has_fanin_one_ := has_fanin_one_ av;
     tag_bldr_ := tag_bldr;
     tag_bldr_no_crpr_ := tag_bldr_no_crpr |}.

(** [ArrivalVisitor::init(always_to_endpoints, pred)]. *)
Definition ArrivalVisitor_init (sta : StaState) (always_to_endpoints : bool)
  (pred : SearchPred) (av : ArrivalVisitor) : ArrivalVisitor :=
  {| always_to_endpoints_ := always_to_endpoints;
     pred_ := pred;
     crpr_active_ := crprActive (sdc_ sta);
     has_fanin_one_ := has_fanin_one_ av;
     tag_bldr_ := tag_bldr_ av;
     tag_bldr_no_crpr_ := tag_bldr_no_crpr_ av |}.

(** The condition under which [ArrivalVisitor::visitFromToPath] writes a
    builder: no matching tag, or the new arrival beats the stored one. *)
Definition arrival_update_needed (d : DelayOps) (tag_match : option (Tag * Arrival * nat))
  (to_arrival : Arrival) (min_max : MinMax) : bool :=
  match tag_match with
  | None => true
  | Some (_, arrival, _) => delayFuzzyGreater d to_arrival arrival min_max
  end.

Definition tag_match_entry (tag_match : option (Tag * Arrival * nat)) : option (Tag * nat) :=
  match tag_match with
  | Some (tm, _, arrival_index) => Some (tm, arrival_index)
  | None => None
  end.

(** [ArrivalVisitor::visitFromToPath].  The unnamed and the debug-only
    parameters of the source are left out. *)
Definition ArrivalVisitor_visitFromToPath (sta : StaState) (from_path : PathVertex)
  (to_tag : Tag) (to_arrival : Arrival) (min_max : MinMax) (av : ArrivalVisitor)
  : bool * ArrivalVisitor :=
  let to_clk_info := clk_info to_tag in
  let to_is_clk := Tag_isClock to_tag in
  let tag_match := TagGroupBldr_tagMatchArrival (tag_ops sta) to_tag (tag_bldr_ av) in
  if arrival_update_needed (delay_ops sta) tag_match to_arrival min_max
  then
    let prev_path :=
      if Tag_isClock to_tag || Tag_isGenClkSrcPath to_tag
      then PathVertexRep_init from_path
      else None in
    let tag_bldr :=
      TagGroupBldr_setMatchArrival (tag_ops sta) to_tag (tag_match_entry tag_match)
                                   to_arrival prev_path (tag_bldr_ av) in
    let tag_bldr_no_crpr :=
      if crpr_active_ av
         && negb (has_fanin_one_ av)
         && ClkInfo_hasCrprClkPin to_clk_info
         && negb to_is_clk
      then
        let tag_match2 :=
          TagGroupBldr_tagMatchArrival (tag_ops sta) to_tag (tag_bldr_no_crpr_ av) in
        if arrival_update_needed (delay_ops sta) tag_match2 to_arrival min_max
        then TagGroupBldr_setMatchArrival (tag_ops sta) to_tag (tag_match_entry tag_match2)
                                          to_arrival prev_path (tag_bldr_no_crpr_ av)
        else tag_bldr_no_crpr_ av
      else tag_bldr_no_crpr_ av in
    (true, ArrivalVisitor_set_builders av tag_bldr tag_bldr_no_crpr)
  else (true, av).

(** The loop of [ArrivalVisitor::pruneCrprArrivals] over the arrival map
    of [tag_bldr_]. *)
Fixpoint pruneCrprArrivals_loop (sta : StaState) (tag_bldr_no_crpr : TagGroupBldr)
  (entries : list (Tag * nat)) (tag_bldr : TagGroupBldr) : TagGroupBldr :=
  match entries with
  | [] => tag_bldr
  | (tag, arrival_index) :: rest =>
      let tag_clk_info := clk_info tag in
      let next := pruneCrprArrivals_loop sta tag_bldr_no_crpr rest in
      if negb (Tag_isClock tag) && ClkInfo_hasCrprClkPin tag_clk_info
      then
        let min_max := pathMinMax (corners_ sta) (path_ap_index tag) in
        match TagGroupBldr_tagMatchArrival (tag_ops sta) tag tag_bldr_no_crpr with
        | Some (tag_no_crpr, max_arrival, _) =>
            let clk_info_no_crpr := clk_info tag_no_crpr in
            let max_crpr := maxCrpr (crpr_ sta) clk_info_no_crpr in
            let max_arrival_max_crpr :=
              if bool_decide (min_max = MinMax_max)
              then max_arrival - max_crpr
              else max_arrival + max_crpr in
            let arrival := TagGroupBldr_arrival tag_bldr arrival_index in
            if delayFuzzyGreater (delay_ops sta) max_arrival_max_crpr arrival min_max
            then next (TagGroupBldr_deleteArrival (tag_ops sta) tag tag_bldr)
            else next tag_bldr
        | None => next tag_bldr
        end
      else next tag_bldr
  end.

(** [ArrivalVisitor::pruneCrprArrivals]. *)
Definition ArrivalVisitor_pruneCrprArrivals (sta : StaState) (av : ArrivalVisitor)
  : ArrivalVisitor :=
  ArrivalVisitor_set_builders av
    (pruneCrprArrivals_loop sta (tag_bldr_no_crpr_ av) (arrival_map_ (tag_bldr_ av))
                            (tag_bldr_ av))
    (tag_bldr_no_crpr_ av).

(** ** RequiredCmp and RequiredVisitor *)

Record RequiredCmp := mkRequiredCmp {
  requireds_ : list Required;
  have_requireds_ : bool
}.

#[global] Instance RequiredCmp_eq_dec : EqDecision RequiredCmp.
Proof. solve_decision. Defined.

(** [RequiredCmp::requiredsInit]. *)
Definition RequiredCmp_requiredsInit (sta : StaState) (vp : gmap Vertex VertexPaths)
  (p : Pools) (vertex : Vertex) : RequiredCmp :=
  match Search_tagGroup (limits sta) vp p vertex with
  | Some tag_group =>
      {| requireds_ :=
           fold_left
             (fun reqs e =>
                <[snd e := delayInitValue (delay_ops sta)
                             (MinMax_opposite (pathMinMax (corners_ sta)
                                                 (path_ap_index (fst e))))]> reqs)
             (arrival_map tag_group)
             (replicate (TagGroup_arrivalCount tag_group) 0);
         have_requireds_ := false |}
  | None => {| requireds_ := []; have_requireds_ := false |}
  end.

(** [RequiredCmp::requiredSet]. *)
Definition RequiredCmp_requiredSet (d : DelayOps) (arrival_index : nat) (required : Required)
  (min_max : MinMax) (cmp : RequiredCmp) : RequiredCmp :=
  if delayFuzzyGreater d required (default 0 (requireds_ cmp !! arrival_index)) min_max
  then {| requireds_ := <[arrival_index := required]> (requireds_ cmp);
          have_requireds_ := true |}
  else cmp.

(** [RequiredCmp::required]. *)
Definition RequiredCmp_required (cmp : RequiredCmp) (arrival_index : nat) : Required :=
  default 0 (requireds_ cmp !! arrival_index).

(** The fallback loop of [RequiredVisitor::visitFromToPath]: the first path
    of the to vertex whose tag matches [to_tag] but for the CRPR pin. *)
Definition RequiredVisitor_matchNoCrpr (sta : StaState) (to_tag : Tag)
  (to_paths : list PathVertex) : option PathVertex :=
  List.find (fun to_path => tagMatchNoCrpr (tag_ops sta) (path_tag to_path) to_tag) to_paths.

(** [RequiredVisitor::visitFromToPath].  The state of the visitor is its
    [required_cmp_]. *)
Definition RequiredVisitor_visitFromToPath (sta : StaState) (vp : gmap Vertex VertexPaths)
  (from_path : PathVertex) (edge : Edge) (arc_delay : ArcDelay) (to_vertex : Vertex)
  (to_tr : TransRiseFall) (to_tag : Tag) (min_max : MinMax) (path_ap : PathAPIndex)
  (p : Pools) (required_cmp_ : RequiredCmp) : bool * RequiredCmp :=
  (* Don't propagate required times through latch D->Q edges. *)
  if bool_decide (edge_role edge <> role_latchDtoQ)
  then
    let arrival_index := path_arrival_index from_path in
    let req_min := MinMax_opposite min_max in
    match Search_tagGroup (limits sta) vp p to_vertex with
    | Some to_tag_group =>
        (* Check to see if to_tag was pruned. *)
        if TagGroup_hasTag (tag_ops sta) to_tag_group to_tag
        then
          let to_required := PathVertex_required sta vp p to_vertex to_tag in
          let from_required := to_required - arc_delay in
          (true, RequiredCmp_requiredSet (delay_ops sta) arrival_index from_required req_min
                                         required_cmp_)
        else
          (* Arrival that differ by crpr_pin may be pruned. Find an arrival
             that matches everything but the crpr_pin. *)
          match RequiredVisitor_matchNoCrpr sta to_tag
                  (VertexPathIterator_tr_ap (limits sta) vp p to_vertex to_tr path_ap) with
          | Some to_path =>
              let to_required := PathVertex_required sta vp p to_vertex (path_tag to_path) in
              let from_required := to_required - arc_delay in
              (true, RequiredCmp_requiredSet (delay_ops sta) arrival_index from_required
                                             req_min required_cmp_)
          | None => (true, required_cmp_)
          end
    | None =>
        (* the source dereferences the tag group of the to vertex without a
           null test; a to vertex without paths contributes nothing here *)
        (true, required_cmp_)
    end
  else (true, required_cmp_).

(** The required visitor as an instance of the [PathVisitor] traversal. *)
Definition RequiredVisitor_fromToPath (sta : StaState) (vp : gmap Vertex VertexPaths) :
  Pin -> Vertex -> TransRiseFall -> Tag -> PathVertex -> Edge -> TimingArc -> ArcDelay ->
  Vertex -> TransRiseFall -> Tag -> Arrival -> MinMax -> PathAPIndex -> Pools ->
  RequiredCmp -> bool * RequiredCmp :=
  fun _ _ _ _ from_path edge _ arc_delay to_vertex to_tr to_tag _ min_max path_ap p cmp =>
    RequiredVisitor_visitFromToPath sta vp from_path edge arc_delay to_vertex to_tr to_tag
                                    min_max path_ap p cmp.

(** The calls of [visitFromToPath] that draining the fanin of a vertex
    makes, in order: one candidate per fanin path and arc whose outgoing
    tag survived. *)
Record Candidate := mkCandidate {
  cand_from_path : PathVertex;
  cand_to_tag : Tag;
  cand_to_arrival : Arrival;
  cand_min_max : MinMax
}.

Definition ArrivalVisitor_drain (sta : StaState) (cands : list Candidate)
  (av : ArrivalVisitor) : ArrivalVisitor :=
  fold_left
    (fun av c => snd (ArrivalVisitor_visitFromToPath sta (cand_from_path c) (cand_to_tag c)
                                                     (cand_to_arrival c) (cand_min_max c) av))
    cands av.

(** The builder holds arrival [s] in the slot keyed by [t]. *)
Definition TagGroupBldr_stored_at (b : TagGroupBldr) (t : Tag) (i : nat) (s : Arrival)
  : Prop :=
  (t, i) ∈ arrival_map_ b /\ arrivals_ b !! i = Some s.

Definition TagGroupBldr_stored (b : TagGroupBldr) (t : Tag) (s : Arrival) : Prop :=
  exists i, TagGroupBldr_stored_at b t i s.

(** Well-formed builder: slots are in range and pairwise distinct, and no
    two keys match each other. *)
Definition TagGroupBldr_wf (ops : TagOps) (b : TagGroupBldr) : Prop :=
  (forall t i, (t, i) ∈ arrival_map_ b -> (i < length (arrivals_ b))%nat)
  /\ (forall t1 i1 t2 i2, (t1, i1) ∈ arrival_map_ b -> (t2, i2) ∈ arrival_map_ b ->
        (i1 = i2 \/ tagMatch ops t1 t2 (match_crpr_clk_pin_ b) = true) -> (t1, i1) = (t2, i2)).

(** ** BFS iterators (Bfs.cc)

    Modelled from the spec: a worklist of vertices; "enqueue(v) is
    idempotent; inQueue(v) observable"; "enqueueAdjacentVertices(v, pred)
    enqueues fanouts (forward) or fanins (backward) admitted by pred";
    "visitParallel(maxLevel, visitor) drains levels in order up to
    maxLevel". *)

Definition BfsIterator_inQueue (vertex : Vertex) (queue : list Vertex) : bool :=
  bool_decide (vertex ∈ queue).

Definition BfsIterator_enqueue (vertex : Vertex) (queue : list Vertex) : list Vertex :=
  if BfsIterator_inQueue vertex queue then queue else queue ++ [vertex].

Definition BfsIterator_remove (vertex : Vertex) (queue : list Vertex) : list Vertex :=
  List.filter (fun v => negb (bool_decide (v = vertex))) queue.

Fixpoint BfsFwdIterator_enqueueAdjacentVertices_loop (sta : StaState) (pred : SearchPred)
  (vp : gmap Vertex VertexPaths) (edges : list Edge) (p : Pools) (queue : list Vertex)
  : Result (list Vertex * Pools) :=
  match edges with
  | [] => Ok (queue, p)
  | edge :: rest =>
      '(thru, p1) ← SearchPred_searchThru sta pred edge vp p;
      BfsFwdIterator_enqueueAdjacentVertices_loop sta pred vp rest p1
        (if (thru : bool) && SearchPred_searchTo sta pred (edge_to edge)
         then BfsIterator_enqueue (edge_to edge) queue
         else queue)
  end.

Definition BfsFwdIterator_enqueueAdjacentVertices (sta : StaState) (pred : SearchPred)
  (vp : gmap Vertex VertexPaths) (vertex : Vertex) (p : Pools) (queue : list Vertex)
  : Result (list Vertex * Pools) :=
  if SearchPred_searchFrom sta pred vertex
  then BfsFwdIterator_enqueueAdjacentVertices_loop sta pred vp
         (vertex_out_edges (graph_ sta) vertex) p queue
  else Ok (queue, p).

Fixpoint BfsBkwdIterator_enqueueAdjacentVertices_loop (sta : StaState) (pred : SearchPred)
  (vp : gmap Vertex VertexPaths) (edges : list Edge) (p : Pools) (queue : list Vertex)
  : Result (list Vertex * Pools) :=
  match edges with
  | [] => Ok (queue, p)
  | edge :: rest =>
      '(thru, p1) ← SearchPred_searchThru sta pred edge vp p;
      BfsBkwdIterator_enqueueAdjacentVertices_loop sta pred vp rest p1
        (if (thru : bool) && SearchPred_searchFrom sta pred (edge_from edge)
         then BfsIterator_enqueue (edge_from edge) queue
         else queue)
  end.

Definition BfsBkwdIterator_enqueueAdjacentVertices (sta : StaState) (pred : SearchPred)
  (vp : gmap Vertex VertexPaths) (vertex : Vertex) (p : Pools) (queue : list Vertex)
  : Result (list Vertex * Pools) :=
  if SearchPred_searchTo sta pred vertex
  then BfsBkwdIterator_enqueueAdjacentVertices_loop sta pred vp
         (vertex_in_edges (graph_ sta) vertex) p queue
  else Ok (queue, p).

(** [search_adj_], made by [Search::init] as [SearchThru(NULL, sta)]. *)
Definition search_adj_ : SearchPred := pred_SearchThru None.

(** [eval_pred_], made by [Search::init] as [EvalPred(sta)]. *)
Definition eval_pred_ : SearchPred := pred_EvalPred true.

(** ** Seeding arrivals *)

Fixpoint Result_foldl {A S : Type} (f : S -> A -> Result S) (l : list A) (s : S)
  : Result S :=
  match l with
  | [] => Ok s
  | a :: rest => s' ← f s a; Result_foldl f rest s'
  end.

(** The pairs a [PathAnalysisPtIterator] with a nested
    [TransRiseFallIterator] runs over. *)
Definition path_ap_tr_pairs (sta : StaState) : list (PathAPIndex * TransRiseFall) :=
  flat_map (fun path_ap => [(path_ap, TR_rise); (path_ap, TR_fall)])
           (path_aps (corners_ sta)).

(** [Search::makeUnclkedPaths]. *)
Definition Search_makeUnclkedPaths (sta : StaState) (vertex : Vertex)
  (is_segment_start : bool) (tag_bldr : TagGroupBldr) (p : Pools)
  : Result (bool * TagGroupBldr * Pools) :=
  let pin := vertex_pin (graph_ sta) vertex in
  Result_foldl
    (fun '(search_from, tag_bldr, p) '(path_ap, tr) =>
       let min_max := pathMinMax (corners_ sta) path_ap in
       '(tag, p1) ← Search_fromUnclkedInputTag sta pin tr min_max path_ap
                                               is_segment_start p;
       match tag with
       | Some tag =>
           Ok (true, TagGroupBldr_setArrival (tag_ops sta) tag 0 None tag_bldr, p1)
       | None => Ok (search_from, tag_bldr, p1)
       end)
    (path_ap_tr_pairs sta) (false, tag_bldr, p).

(** [Search::seedClkArrival]. *)
Definition Search_seedClkArrival (sta : StaState) (pin : Pin) (tr : TransRiseFall)
  (clk : Clock) (clk_edge : ClockEdge) (min_max : MinMax) (path_ap : PathAPIndex)
  (insertion : Arrival) (tag_bldr : TagGroupBldr) (p : Pools)
  : Result (TagGroupBldr * Pools) :=
  let sdc := sdc_ sta in
  let '(is_propagated, latency) :=
    (* Check for clk pin latency. *)
    match clockLatencyPin sdc (Some clk) pin tr min_max with
    | Some latency => (false, latency)
    | None =>
        (* Check for clk latency (lower priority). *)
        match clockLatencyClk sdc clk tr min_max with
        | Some latency =>
            (* Propagated pin overrides latency on clk. *)
            if isPropagatedClock sdc pin then (true, 0) else (false, latency)
        | None => (isPropagatedClock sdc pin || clock_isPropagated sdc clk, 0)
        end
    end in
  let uncertainties :=
    match clockUncertainties sdc pin with
    | Some u => Some u
    | None => clock_uncertainties sdc clk
    end in
  (* Propagate liberty "pulse_clock" transition to transitive fanout. *)
  let pulse_clk_sense := libertyPortPulseClkSense (network_ sta) pin in
  let '(clk_info, p1) :=
    Search_findClkInfo (Some clk_edge) (Some pin) is_propagated None false pulse_clk_sense
                       insertion latency uncertainties path_ap None p in
  (* Only false_paths -from apply to clock tree pins. *)
  let states := exceptionFromClkStates sdc pin tr clk tr min_max in
  '(tag, p2) ← Search_findTag (limits sta) tr path_ap clk_info true None false states true p1;
  let arrival := clock_edge_time clk_edge + insertion in
  Ok (TagGroupBldr_setArrival (tag_ops sta) tag arrival None tag_bldr, p2).

(** [Search::clkDataTag]. *)
Definition Search_clkDataTag (sta : StaState) (pin : Pin) (clk : Clock) (tr : TransRiseFall)
  (clk_edge : ClockEdge) (insertion : Arrival) (min_max : MinMax) (path_ap : PathAPIndex)
  (p : Pools) : Result (option Tag * Pools) :=
  match exceptionFromStates (sdc_ sta) pin tr (Some clk) (Some tr) min_max with
  | Some states =>
      let is_propagated := clock_isPropagated (sdc_ sta) clk
                           || isPropagatedClock (sdc_ sta) pin in
      let '(clk_info, p1) :=
        Search_findClkInfo5 (Some clk_edge) (Some pin) is_propagated insertion path_ap p in
      '(tag, p2) ← Search_findTag (limits sta) tr path_ap clk_info false None false
                                  states true p1;
      mret (Some tag, p2)
  | None => Ok (None, p)
  end.

(** [Search::seedClkDataArrival]. *)
Definition Search_seedClkDataArrival (sta : StaState) (pin : Pin) (tr : TransRiseFall)
  (clk : Clock) (clk_edge : ClockEdge) (min_max : MinMax) (path_ap : PathAPIndex)
  (insertion : Arrival) (tag_bldr : TagGroupBldr) (p : Pools)
  : Result (TagGroupBldr * Pools) :=
  '(tag, p1) ← Search_clkDataTag sta pin clk tr clk_edge insertion min_max path_ap p;
  match tag with
  | Some tag =>
      (* Data arrivals include insertion delay. *)
      let arrival := clock_edge_time clk_edge + insertion in
      Ok (TagGroupBldr_setArrival (tag_ops sta) tag arrival None tag_bldr, p1)
  | None => Ok (tag_bldr, p1)
  end.

(** [Search::seedClkArrivals].  It enqueues the fanout of the vertex once
    per clock of the pin. *)
Definition Search_seedClkArrivals (sta : StaState) (vp : gmap Vertex VertexPaths) (pin : Pin)
  (vertex : Vertex) (tag_bldr : TagGroupBldr) (p : Pools) (queue : list Vertex)
  : Result (TagGroupBldr * Pools * list Vertex) :=
  Result_foldl
    (fun '(tag_bldr, p, queue) clk =>
       '(tag_bldr1, p1) ←
          Result_foldl
            (fun '(tag_bldr, p) '(path_ap, tr) =>
               let min_max := pathMinMax (corners_ sta) path_ap in
               let clk_edge := clock_edge (sdc_ sta) clk tr in
               let early_late := min_max in
               if clock_isGenerated (sdc_ sta) clk
                  && bool_decide (clock_masterClk (sdc_ sta) clk = None)
               then Search_seedClkDataArrival sta pin tr clk clk_edge min_max path_ap 0
                                              tag_bldr p
               else
                 let insertion := Search_clockInsertion sta clk (Some pin) tr min_max
                                                        early_late path_ap in
                 Search_seedClkArrival sta pin tr clk clk_edge min_max path_ap insertion
                                       tag_bldr p)
            (path_ap_tr_pairs sta) (tag_bldr, p);
       '(queue1, p2) ← BfsFwdIterator_enqueueAdjacentVertices sta search_adj_ vp vertex
                                                              p1 queue;
       Ok (tag_bldr1, p2, queue1))
    (default [] (findVertexPinClocks (sdc_ sta) pin)) (tag_bldr, p, queue).

(** [Search::inputDelayTag]. *)
Definition Search_inputDelayTag (sta : StaState) (pin : Pin) (tr : TransRiseFall)
  (clk_edge : option ClockEdge) (clk_insertion clk_latency : Z)
  (input_delay : option InputDelay) (is_segment_start : bool) (min_max : MinMax)
  (path_ap : PathAPIndex) (p : Pools) : Result (option Tag * Pools) :=
  let sdc := sdc_ sta in
  let clk := clock_edge_clock <$> clk_edge in
  let clk_tr := clock_edge_transition <$> clk_edge in
  let clk_pin := c ← clk; clock_defaultPin sdc c in
  let is_propagated := default false (clock_isPropagated sdc <$> clk) in
  let clk_uncertainties := c ← clk; clock_uncertainties sdc c in
  let input_delay_ref := input_delay_index <$> input_delay in
  match exceptionFromStates sdc pin tr clk clk_tr min_max with
  | Some states =>
      let '(clk_info, p1) :=
        Search_findClkInfo clk_edge clk_pin is_propagated None false None clk_insertion
                           clk_latency clk_uncertainties path_ap None p in
      '(tag, p2) ← Search_findTag (limits sta) tr path_ap clk_info false input_delay_ref
                                  is_segment_start states true p1;
      let clk_info := Tag_clkInfo tag in
      (* Check for state changes on existing tag exceptions (pending -thru pins). *)
      Search_mutateTag sta tag pin tr false clk_info pin tr false false is_segment_start
                       clk_info input_delay_ref min_max path_ap p2
  | None => Ok (None, p)
  end.

(** [Search::seedInputDelayArrival] (the eleven-argument overload, one
    transition). *)
Definition Search_seedInputDelayArrival_tr (sta : StaState) (pin : Pin) (tr : TransRiseFall)
  (arrival : Arrival) (input_delay : option InputDelay) (clk_edge : option ClockEdge)
  (clk_insertion clk_latency : Z) (is_segment_start : bool) (min_max : MinMax)
  (path_ap : PathAPIndex) (tag_bldr : TagGroupBldr) (p : Pools)
  : Result (TagGroupBldr * Pools) :=
  '(tag, p1) ← Search_inputDelayTag sta pin tr clk_edge clk_insertion clk_latency input_delay
                                    is_segment_start min_max path_ap p;
  match tag with
  | Some tag => Ok (TagGroupBldr_setArrival (tag_ops sta) tag arrival None tag_bldr, p1)
  | None => Ok (tag_bldr, p1)
  end.

(** [Search::seedInputDelayArrival] (the ten-argument overload, both
    transitions). *)
Definition Search_seedInputDelayArrival_ap (sta : StaState) (pin : Pin)
  (input_delay : option InputDelay) (clk_edge : option ClockEdge)
  (clk_arrival clk_insertion clk_latency : Z) (is_segment_start : bool) (min_max : MinMax)
  (path_ap : PathAPIndex) (tag_bldr : TagGroupBldr) (p : Pools)
  : Result (TagGroupBldr * Pools) :=
  Result_foldl
    (fun '(tag_bldr, p) tr =>
       match input_delay with
       | Some id =>
           match inputDelayValue (sdc_ sta) id tr min_max with
           | Some delay =>
               Search_seedInputDelayArrival_tr sta pin tr (clk_arrival + delay) input_delay
                 clk_edge clk_insertion clk_latency is_segment_start min_max path_ap
                 tag_bldr p
           | None => Ok (tag_bldr, p)
           end
       | None =>
           Search_seedInputDelayArrival_tr sta pin tr 0 None clk_edge clk_insertion
             clk_latency is_segment_start min_max path_ap tag_bldr p
       end)
    [TR_rise; TR_fall] (tag_bldr, p).

(** [Search::inputDelayClkArrival]: clock arrival, insertion and latency. *)
Definition Search_inputDelayClkArrival (sta : StaState) (input_delay : option InputDelay)
  (clk_edge : option ClockEdge) (min_max : MinMax) (path_ap : PathAPIndex) : Z * Z * Z :=
  match input_delay, clk_edge with
  | Some id, Some ce =>
      let clk := clock_edge_clock ce in
      let clk_tr := clock_edge_transition ce in
      let clk_arrival0 := clock_edge_time ce in
      let '(clk_arrival1, clk_insertion) :=
        if negb (input_delay_sourceLatencyIncluded id)
        then
          let early_late := min_max in
          let ins := Search_clockInsertion sta clk (clock_defaultPin (sdc_ sta) clk) clk_tr
                                           min_max early_late path_ap in
          (clk_arrival0 + ins, ins)
        else (clk_arrival0, 0) in
      if negb (clock_isPropagated (sdc_ sta) clk)
         && negb (input_delay_networkLatencyIncluded id)
      then
        let clk_latency := default 0 (clockLatencyClk (sdc_ sta) clk clk_tr min_max) in
        (clk_arrival1 + clk_latency, clk_insertion, clk_latency)
      else (clk_arrival1, clk_insertion, 0)
  | _, _ => (0, 0, 0)
  end.

(** [Search::inputDelayRefPinArrival]: input delays with -reference_pin use
    the clock network latency from the clock source to the reference pin.
    The source reads the clock of [clk_edge] without a null test. *)
Definition Search_inputDelayRefPinArrival (sta : StaState) (ref_path : PathVertex)
  (clk_edge : option ClockEdge) (min_max : MinMax) : Z * Z * Z :=
  match clk_edge with
  | Some ce =>
      let clk := clock_edge_clock ce in
      if clock_isPropagated (sdc_ sta) clk
      then
        let ref_clk_info := clk_info (path_tag ref_path) in
        (path_arrival ref_path, insertion ref_clk_info, latency ref_clk_info)
      else
        let clk_tr := clock_edge_transition ce in
        let early_late := min_max in
        (* Input delays from ideal clk reference pins include clock
           insertion delay but not latency. *)
        let ref_insertion := clockInsertionClk (sdc_ sta) clk clk_tr min_max early_late in
        (clock_edge_time ce + ref_insertion, ref_insertion, 0)
  | None => (0, 0, 0)
  end.

(** [Search::seedInputDelayArrival] (the five-argument overload). *)
Definition Search_seedInputDelayArrival (sta : StaState) (vp : gmap Vertex VertexPaths)
  (pin : Pin) (vertex : Vertex) (input_delay : option InputDelay) (is_segment_start : bool)
  (tag_bldr : TagGroupBldr) (p : Pools) : Result (TagGroupBldr * Pools) :=
  let sdc := sdc_ sta in
  let seed_clk_edge :=
    match input_delay with
    | Some id =>
        match input_delay_clkEdge id with
        | None => if useDefaultArrivalClock sdc then defaultArrivalClockEdge sdc else None
        | Some ce => Some ce
        end
    | None => if useDefaultArrivalClock sdc then defaultArrivalClockEdge sdc else None
    end in
  match id ← input_delay; ref_pin ← input_delay_refPin id; Some (id, ref_pin) with
  | Some (id, ref_pin) =>
      let ref_vertex := pinLoadVertex (graph_ sta) ref_pin in
      Result_foldl
        (fun '(tag_bldr, p) path_ap =>
           let min_max := pathMinMax (corners_ sta) path_ap in
           let ref_tr := input_delay_refTransition id in
           let clk := input_delay_clock id in
           Result_foldl
             (fun '(tag_bldr, p) ref_path =>
                let ref_clk := ClkInfo_clock (clk_info (path_tag ref_path)) in
                if Tag_isClock (path_tag ref_path)
                   && (bool_decide (clk = None) || bool_decide (ref_clk = clk))
                then
                  let ref_clk_edge := clk_edge (clk_info (path_tag ref_path)) in
                  let '(ref_arrival, ref_insertion, ref_latency) :=
                    Search_inputDelayRefPinArrival sta ref_path ref_clk_edge min_max in
                  Search_seedInputDelayArrival_ap sta pin input_delay ref_clk_edge
                    ref_arrival ref_insertion ref_latency is_segment_start min_max path_ap
                    tag_bldr p
                else Ok (tag_bldr, p))
             (VertexPathIterator_tr_ap (limits sta) vp p ref_vertex ref_tr path_ap)
             (tag_bldr, p))
        (path_aps (corners_ sta)) (tag_bldr, p)
  | None =>
      Result_foldl
        (fun '(tag_bldr, p) path_ap =>
           let min_max := pathMinMax (corners_ sta) path_ap in
           let '(clk_arrival, clk_insertion, clk_latency) :=
             Search_inputDelayClkArrival sta input_delay seed_clk_edge min_max path_ap in
           Search_seedInputDelayArrival_ap sta pin input_delay seed_clk_edge clk_arrival
             clk_insertion clk_latency is_segment_start min_max path_ap tag_bldr p)
        (path_aps (corners_ sta)) (tag_bldr, p)
  end.

(** [Search::seedInputArrival1]. *)
Definition Search_seedInputArrival1 (sta : StaState) (vp : gmap Vertex VertexPaths) (pin : Pin)
  (vertex : Vertex) (is_segment_start : bool) (tag_bldr : TagGroupBldr) (p : Pools)
  : Result (TagGroupBldr * Pools) :=
  (* There can be multiple arrivals for a pin with wrt different clocks. *)
  Result_foldl
    (fun '(tag_bldr, p) input_delay =>
       let input_clk := input_delay_clock input_delay in
       (* Input arrival wrt a clock source pin is the clock insertion
          delay (source latency), but arrivals wrt other clocks propagate. *)
       if match findVertexPinClocks (sdc_ sta) pin with
          | None => true
          | Some pin_clks =>
              match input_clk with
              | Some c => negb (bool_decide (c ∈ pin_clks))
              | None => true
              end
          end
       then Search_seedInputDelayArrival sta vp pin vertex (Some input_delay)
                                         is_segment_start tag_bldr p
       else Ok (tag_bldr, p))
    (inputDelayVertexIterator (sdc_ sta) pin) (tag_bldr, p).

(** [Search::seedInputSegmentArrival]. *)
Definition Search_seedInputSegmentArrival (sta : StaState) (vp : gmap Vertex VertexPaths)
  (pin : Pin) (vertex : Vertex) (tag_bldr : TagGroupBldr) (p : Pools)
  : Result (TagGroupBldr * Pools) :=
  Search_seedInputArrival1 sta vp pin vertex true tag_bldr p.

(** [Search::seedInputArrival(pin, vertex, tag_bldr)]. *)
Definition Search_seedInputArrival (sta : StaState) (vp : gmap Vertex VertexPaths) (pin : Pin)
  (vertex : Vertex) (tag_bldr : TagGroupBldr) (p : Pools) : Result (TagGroupBldr * Pools) :=
  if hasInputDelay (sdc_ sta) pin
  then Search_seedInputArrival1 sta vp pin vertex false tag_bldr p
  else if negb (isVertexPinClock (sdc_ sta) pin)
       then
         (* Seed inputs without set_input_delays. *)
         Search_seedInputDelayArrival sta vp pin vertex None false tag_bldr p
       else Ok (tag_bldr, p).

(** ** The search state: field updates *)

Definition Search_set_pools (st : Search) (p : Pools) : Search :=
  {| pools := p; vertex_paths := vertex_paths st; work := work st; flags := flags st;
     tns_min := tns_min st; tns_max := tns_max st |}.

Definition Search_set_vertex_paths (st : Search) (vp : gmap Vertex VertexPaths) : Search :=
  {| pools := pools st; vertex_paths := vp; work := work st; flags := flags st;
     tns_min := tns_min st; tns_max := tns_max st |}.

Definition Search_set_work (st : Search) (w : Work) : Search :=
  {| pools := pools st; vertex_paths := vertex_paths st; work := w; flags := flags st;
     tns_min := tns_min st; tns_max := tns_max st |}.

Definition Search_set_flags (st : Search) (f : Flags) : Search :=
  {| pools := pools st; vertex_paths := vertex_paths st; work := work st; flags := f;
     tns_min := tns_min st; tns_max := tns_max st |}.

Definition Search_set_tns (st : Search) (tmin tmax : Tns) : Search :=
  {| pools := pools st; vertex_paths := vertex_paths st; work := work st; flags := flags st;
     tns_min := tmin; tns_max := tmax |}.

Definition Work_set_arrival_iter (w : Work) (queue : list Vertex) : Work :=
  {| arrival_iter_ := queue; required_iter_ := required_iter_ w;
     invalid_arrivals_ := invalid_arrivals_ w; invalid_requireds_ := invalid_requireds_ w;
     invalid_tns_ := invalid_tns_ w; pending_latch_outputs_ := pending_latch_outputs_ w;
     endpoints_ := endpoints_ w; invalid_endpoints_ := invalid_endpoints_ w |}.

Definition Work_set_required_iter (w : Work) (queue : list Vertex) : Work :=
  {| arrival_iter_ := arrival_iter_ w; required_iter_ := queue;
     invalid_arrivals_ := invalid_arrivals_ w; invalid_requireds_ := invalid_requireds_ w;
     invalid_tns_ := invalid_tns_ w; pending_latch_outputs_ := pending_latch_outputs_ w;
     endpoints_ := endpoints_ w; invalid_endpoints_ := invalid_endpoints_ w |}.

Definition Work_set_invalid_arrivals (w : Work) (s : gset Vertex) : Work :=
  {| arrival_iter_ := arrival_iter_ w; required_iter_ := required_iter_ w;
     invalid_arrivals_ := s; invalid_requireds_ := invalid_requireds_ w;
     invalid_tns_ := invalid_tns_ w; pending_latch_outputs_ := pending_latch_outputs_ w;
     endpoints_ := endpoints_ w; invalid_endpoints_ := invalid_endpoints_ w |}.

Definition Work_set_invalid_requireds (w : Work) (s : gset Vertex) : Work :=
  {| arrival_iter_ := arrival_iter_ w; required_iter_ := required_iter_ w;
     invalid_arrivals_ := invalid_arrivals_ w; invalid_requireds_ := s;
     invalid_tns_ := invalid_tns_ w; pending_latch_outputs_ := pending_latch_outputs_ w;
     endpoints_ := endpoints_ w; invalid_endpoints_ := invalid_endpoints_ w |}.

Definition Work_set_invalid_tns (w : Work) (s : gset Vertex) : Work :=
  {| arrival_iter_ := arrival_iter_ w; required_iter_ := required_iter_ w;
     invalid_arrivals_ := invalid_arrivals_ w; invalid_requireds_ := invalid_requireds_ w;
     invalid_tns_ := s; pending_latch_outputs_ := pending_latch_outputs_ w;
     endpoints_ := endpoints_ w; invalid_endpoints_ := invalid_endpoints_ w |}.

Definition Work_set_pending_latch_outputs (w : Work) (s : gset Vertex) : Work :=
  {| arrival_iter_ := arrival_iter_ w; required_iter_ := required_iter_ w;
     invalid_arrivals_ := invalid_arrivals_ w; invalid_requireds_ := invalid_requireds_ w;
     invalid_tns_ := invalid_tns_ w; pending_latch_outputs_ := s;
     endpoints_ := endpoints_ w; invalid_endpoints_ := invalid_endpoints_ w |}.

Definition Work_set_endpoints (w : Work) (e ie : option (gset Vertex)) : Work :=
  {| arrival_iter_ := arrival_iter_ w; required_iter_ := required_iter_ w;
     invalid_arrivals_ := invalid_arrivals_ w; invalid_requireds_ := invalid_requireds_ w;
     invalid_tns_ := invalid_tns_ w; pending_latch_outputs_ := pending_latch_outputs_ w;
     endpoints_ := e; invalid_endpoints_ := ie |}.

Definition Search_set_vertex (st : Search) (vertex : Vertex) (paths : VertexPaths)
  : Search :=
  Search_set_vertex_paths st (<[vertex := paths]> (vertex_paths st)).

Definition Search_vertex (lim : Limits) (st : Search) (vertex : Vertex) : VertexPaths :=
  vertexPaths lim (vertex_paths st) vertex.

(** State of [Search::init]. *)
Definition Search_init : Search :=
  {| pools := Pools_init;
     vertex_paths := ∅;
     work := {| arrival_iter_ := []; required_iter_ := [];
                invalid_arrivals_ := ∅; invalid_requireds_ := ∅; invalid_tns_ := ∅;
                pending_latch_outputs_ := ∅; endpoints_ := None;
                invalid_endpoints_ := None |};
     flags := {| clk_arrivals_valid_ := false; arrivals_exist_ := false;
                 arrivals_at_endpoints_exist_ := false; arrivals_seeded_ := false;
                 requireds_exist_ := false; requireds_seeded_ := false;
                 tns_exists_ := false; worst_slacks_exist_ := false;
                 have_paths_ := false; report_unconstrained_paths_ := false |};
     tns_min := {| tns_ := 0; tns_slacks_ := ∅ |};
     tns_max := {| tns_ := 0; tns_slacks_ := ∅ |} |}.

(** ** Endpoints and total negative slack *)

(** [Search::hasEnabledChecks]. *)
Definition Search_hasEnabledChecks (sta : StaState) (vertex : Vertex) : bool :=
  existsb (checkEdgeEnabled (path_ends sta)) (vertex_in_edges (graph_ sta) vertex).

(** [Search::isEndpoint(vertex)], under [search_adj_]. *)
Definition Search_isEndpoint (sta : StaState) (st : Search) (vertex : Vertex) : bool :=
  let pin := vertex_pin (graph_ sta) vertex in
  hasFanin_search_adj (path_ends sta) vertex
  && ((vertex_hasChecks (graph_ sta) vertex && Search_hasEnabledChecks sta vertex)
      || (gatedClkChecksEnabled (sdc_ sta) && isGatedClkEnable (path_ends sta) vertex)
      || vertex_isConstrained (graph_ sta) vertex
      || isPathDelayInternalEndpoint (sdc_ sta) pin
      || negb (hasFanout_search_adj (path_ends sta) vertex)
      (* Unconstrained paths at register clk pins. *)
      || (report_unconstrained_paths_ (flags st) && vertex_isRegClk (graph_ sta) vertex)).

(** [Search::tnsIncr] on the Tns of one min/max index. *)
Definition Search_tnsIncr (d : DelayOps) (vertex : Vertex) (slack : Slack) (t : Tns)
  : Result Tns :=
  if fuzzyLess d slack 0
  then
    if bool_decide (is_Some (tns_slacks_ t !! vertex))
    then InternalError "tns incr existing vertex"
    else Ok {| tns_ := float_add (tns_ t) slack;
               tns_slacks_ := <[vertex := slack]> (tns_slacks_ t) |}
  else Ok t.

(** [Search::tnsDecr] on the Tns of one min/max index. *)
Definition Search_tnsDecr (d : DelayOps) (vertex : Vertex) (t : Tns) : Tns :=
  match tns_slacks_ t !! vertex with
  | Some slack =>
      if delayFuzzyLess d slack 0
      then {| tns_ := float_sub (tns_ t) slack;
              tns_slacks_ := delete vertex (tns_slacks_ t) |}
      else t
  | None => t
  end.

(** [Search::updateTns]; [slacks] is (min, max). *)
Definition Search_updateTns (d : DelayOps) (vertex : Vertex) (slacks : Slack * Slack)
  (tmin tmax : Tns) : Result (Tns * Tns) :=
  tmin' ← Search_tnsIncr d vertex (fst slacks) (Search_tnsDecr d vertex tmin);
  tmax' ← Search_tnsIncr d vertex (snd slacks) (Search_tnsDecr d vertex tmax);
  Ok (tmin', tmax').

(** The loop of [Search::findTotalNegativeSlacks] over the endpoints. *)
Definition findTotalNegativeSlacks_loop (d : DelayOps) (slacks : Vertex -> Slack * Slack)
  (ends : list Vertex) (tmin tmax : Tns) : Result (Tns * Tns) :=
  Result_foldl
    (fun '(tmin, tmax) vertex =>
       tmin' ← Search_tnsIncr d vertex (fst (slacks vertex)) tmin;
       tmax' ← Search_tnsIncr d vertex (snd (slacks vertex)) tmax;
       Ok (tmin', tmax'))
    ends (tmin, tmax).

Definition Tns_zero : Tns := {| tns_ := 0; tns_slacks_ := ∅ |}.

(** [Search::endpoints]: builds the endpoint set on first use and folds in
    the invalid endpoints. *)
Definition Search_endpoints (sta : StaState) (st : Search) : gset Vertex * Search :=
  let '(ends, invalid) :=
    match endpoints_ (work st) with
    | None =>
        (list_to_set (List.filter (Search_isEndpoint sta st) (vertices (graph_ sta))),
         Some (∅ : gset Vertex))
    | Some ends => (ends, invalid_endpoints_ (work st))
    end in
  let ends' :=
    match invalid with
    | Some inv =>
        fold_left (fun (ends : gset Vertex) vertex =>
                     if Search_isEndpoint sta st vertex
                     then {[vertex]} ∪ ends
                     else ends ∖ {[vertex]})
                  (elements inv) ends
    | None => ends
    end in
  (ends', Search_set_work st (Work_set_endpoints (work st) (Some ends')
                                (match invalid with Some _ => Some ∅ | None => None end))).

(** [Search::findTotalNegativeSlacks]. *)
Definition Search_findTotalNegativeSlacks (sta : StaState) (st : Search) : Result Search :=
  let '(ends, st1) := Search_endpoints sta st in
  '(tmin, tmax) ← findTotalNegativeSlacks_loop (delay_ops sta)
                    (wnsSlacks (path_ends sta) (vertex_paths st1) (pools st1))
                    (elements ends) Tns_zero Tns_zero;
  let f := flags st1 in
  Ok (Search_set_flags (Search_set_tns st1 tmin tmax)
        {| clk_arrivals_valid_ := clk_arrivals_valid_ f;
           arrivals_exist_ := arrivals_exist_ f;
           arrivals_at_endpoints_exist_ := arrivals_at_endpoints_exist_ f;
           arrivals_seeded_ := arrivals_seeded_ f;
           requireds_exist_ := requireds_exist_ f;
           requireds_seeded_ := requireds_seeded_ f;
           tns_exists_ := true;
           worst_slacks_exist_ := worst_slacks_exist_ f;
           have_paths_ := have_paths_ f;
           report_unconstrained_paths_ := report_unconstrained_paths_ f |}).

(** [Search::tnsInvalid]. *)
Definition Search_tnsInvalid (sta : StaState) (vertex : Vertex) (st : Search) : Search :=
  if (tns_exists_ (flags st) || worst_slacks_exist_ (flags st))
     && Search_isEndpoint sta st vertex
  then Search_set_work st (Work_set_invalid_tns (work st) ({[vertex]} ∪ invalid_tns_ (work st)))
  else st.

(** [Search::updateInvalidTns]. *)
Definition Search_updateInvalidTns (sta : StaState) (st : Search) : Result Search :=
  st' ← Result_foldl
          (fun st vertex =>
             (* Network edits can change endpointedness since tnsInvalid was called. *)
             if Search_isEndpoint sta st vertex
             then
               let slacks := wnsSlacks (path_ends sta) (vertex_paths st) (pools st) vertex in
               if tns_exists_ (flags st)
               then
                 '(tmin, tmax) ← Search_updateTns (delay_ops sta) vertex slacks
                                                  (tns_min st) (tns_max st);
                 Ok (Search_set_tns st tmin tmax)
               else Ok st
             else Ok st)
          (elements (invalid_tns_ (work st))) st;
  Ok (Search_set_work st' (Work_set_invalid_tns (work st') ∅)).

(** [Search::tnsNotifyBefore]: notify tns before updating/deleting slack. *)
Definition Search_tnsNotifyBefore (sta : StaState) (vertex : Vertex) (st : Search) : Search :=
  if tns_exists_ (flags st) && Search_isEndpoint sta st vertex
  then Search_set_tns st (Search_tnsDecr (delay_ops sta) vertex (tns_min st))
                         (Search_tnsDecr (delay_ops sta) vertex (tns_max st))
  else st.

(** ** Vertex paths: delete, invalidate, replace *)

(** [Search::deletePaths1]. *)
Definition Search_deletePaths1 (sta : StaState) (vertex : Vertex) (st : Search) : Search :=
  Search_set_vertex st vertex (VertexPaths_none (limits sta)).

(** [Search::deletePaths(vertex)]. *)
Definition Search_deletePaths (sta : StaState) (vertex : Vertex) (st : Search) : Search :=
  Search_deletePaths1 sta vertex (Search_tnsNotifyBefore sta vertex st).

(** [Search::requiredInvalid(vertex)]. *)
Definition Search_requiredInvalid (sta : StaState) (vertex : Vertex) (st : Search) : Search :=
  if requireds_exist_ (flags st)
  then
    let st1 :=
      if negb (BfsIterator_inQueue vertex (required_iter_ (work st)))
      then Search_set_work st
             (Work_set_invalid_requireds (work st)
                ({[vertex]} ∪ invalid_requireds_ (work st)))
      else st in
    Search_tnsInvalid sta vertex st1
  else st.

(** [Search::requiredInvalid(pin)]. *)
Definition Search_requiredInvalid_pin (sta : StaState) (pin : Pin) (st : Search) : Search :=
  let '(vertex, bidirect_drvr_vertex) := pinVertices (graph_ sta) pin in
  let st1 := Search_requiredInvalid sta vertex st in
  match bidirect_drvr_vertex with
  | Some v => Search_requiredInvalid sta v st1
  | None => st1
  end.

(** [Search::arrivalInvalid(vertex)]. *)
Definition Search_arrivalInvalid (sta : StaState) (vertex : Vertex) (st : Search) : Search :=
  if arrivals_exist_ (flags st)
  then
    let st1 :=
      if negb (BfsIterator_inQueue vertex (arrival_iter_ (work st)))
      then Search_set_work st
             (Work_set_invalid_arrivals (work st)
                ({[vertex]} ∪ invalid_arrivals_ (work st)))
      else st in
    Search_tnsInvalid sta vertex st1
  else st.

Definition Flags_set_have_paths (f : Flags) (b : bool) : Flags :=
  {| clk_arrivals_valid_ := clk_arrivals_valid_ f;
     arrivals_exist_ := arrivals_exist_ f;
     arrivals_at_endpoints_exist_ := arrivals_at_endpoints_exist_ f;
     arrivals_seeded_ := arrivals_seeded_ f;
     requireds_exist_ := requireds_exist_ f;
     requireds_seeded_ := requireds_seeded_ f;
     tns_exists_ := tns_exists_ f;
     worst_slacks_exist_ := worst_slacks_exist_ f;
     have_paths_ := b;
     report_unconstrained_paths_ := report_unconstrained_paths_ f |}.

(** [Search::setVertexArrivals]. *)
Definition Search_setVertexArrivals (sta : StaState) (vertex : Vertex)
  (tag_bldr : TagGroupBldr) (st : Search) : Result Search :=
  if TagGroupBldr_empty tag_bldr
  then Ok (Search_deletePaths sta vertex st)
  else
    let paths := Search_vertex (limits sta) st vertex in
    let prev_tag_group := Search_tagGroup (limits sta) (vertex_paths st) (pools st) vertex in
    let prev_arrivals := vertex_arrivals paths in
    let prev_paths := vertex_prev_paths paths in
    '(tag_group, p1) ← Search_findTagGroup (limits sta) tag_bldr (pools st);
    let st1 := Search_set_pools st p1 in
    let arrival_count := TagGroup_arrivalCount tag_group in
    let has_requireds := vertex_has_requireds paths in
    let needs_prev_paths :=
      TagGroupBldr_hasClkTag tag_bldr || TagGroupBldr_hasGenClkSrcTag tag_bldr in
    (* Reuse arrival array if it is the same size. *)
    if match prev_tag_group with
       | Some ptg =>
           bool_decide (arrival_count = TagGroup_arrivalCount ptg)
           && (negb has_requireds
               (* Requireds can only be reused if the tag group is unchanged. *)
               || bool_decide (tag_group_index tag_group = tag_group_index ptg))
       | None => false
       end
    then
      (* A prev-path array made here for a vertex that had none is filled
         by copyArrivals but never stored in the vertex; stale prev paths
         are deleted when none is required. *)
      let '(scratch_prev_paths, vertex_prev_paths') :=
        if needs_prev_paths
        then (match prev_paths with
              | Some pp => Some pp
              | None => Some (replicate arrival_count None)
              end, prev_paths)
        else (None, None) in
      '(arrivals, filled_prev_paths) ←
         TagGroupBldr_copyArrivals (tag_ops sta) tag_group tag_bldr
                                   (default [] prev_arrivals) scratch_prev_paths;
      Ok (Search_set_vertex st1 vertex
            {| vertex_tag_group_index := tag_group_index tag_group;
               vertex_arrivals := Some arrivals;
               vertex_prev_paths :=
                 match vertex_prev_paths' with
                 | Some _ => filled_prev_paths
                 | None => None
                 end;
               vertex_has_requireds := has_requireds |})
    else
      let new_prev_paths :=
        if needs_prev_paths then Some (replicate arrival_count None) else None in
      '(arrivals, filled_prev_paths) ←
         TagGroupBldr_copyArrivals (tag_ops sta) tag_group tag_bldr
                                   (replicate arrival_count 0) new_prev_paths;
      let st2 := Search_set_vertex st1 vertex
                   {| vertex_tag_group_index := tag_group_index tag_group;
                      vertex_arrivals := Some arrivals;
                      vertex_prev_paths := filled_prev_paths;
                      vertex_has_requireds := has_requireds |} in
      let st3 := Search_set_flags st2 (Flags_set_have_paths (flags st2) true) in
      if has_requireds
      then
        let st4 := Search_requiredInvalid sta vertex st3 in
        let paths4 := Search_vertex (limits sta) st4 vertex in
        Ok (Search_set_vertex st4 vertex
              {| vertex_tag_group_index := vertex_tag_group_index paths4;
                 vertex_arrivals := vertex_arrivals paths4;
                 vertex_prev_paths := vertex_prev_paths paths4;
                 vertex_has_requireds := false |})
      else Ok st3.

(** [Search::arrivalsChanged].  The source indexes the tag group of a
    vertex that has arrivals without a null test; a vertex with arrivals
    and no tag group counts as changed. *)
Definition Search_arrivalsChanged (sta : StaState) (st : Search) (vertex : Vertex)
  (tag_bldr : TagGroupBldr) : bool :=
  match vertex_arrivals (Search_vertex (limits sta) st vertex) with
  | Some arrivals1 =>
      match Search_tagGroup (limits sta) (vertex_paths st) (pools st) vertex with
      | Some tag_group =>
          if negb (bool_decide (length (arrival_map tag_group)
                                = length (arrival_map_ tag_bldr)))
          then true
          else
            existsb
              (fun '(tag1, arrival_index1) =>
                 let arrival1 := default 0 (arrivals1 !! arrival_index1) in
                 match TagGroupBldr_tagArrival (tag_ops sta) tag1 tag_bldr with
                 | Some arrival2 => negb (delayFuzzyEqual (delay_ops sta) arrival1 arrival2)
                 | None => true
                 end)
              (arrival_map tag_group)
      | None => true
      end
  | None => true
  end.

(** [Search::enqueueLatchDataOutputs]. *)
Definition Search_enqueueLatchDataOutputs (sta : StaState) (vertex : Vertex) (st : Search)
  : Search :=
  fold_left
    (fun st out_edge =>
       if isLatchDtoQ (latches_ sta) out_edge
       then Search_set_work st
              (Work_set_pending_latch_outputs (work st)
                 ({[edge_to out_edge]} ∪ pending_latch_outputs_ (work st)))
       else st)
    (vertex_out_edges (graph_ sta) vertex) st.

(** [ArrivalVisitor::constrainedRequiredsInvalid]: when a clock arrival
    changes, the required time changes for any timing checks, data checks
    or gated clock enables constrained by the clock pin. *)
Definition ArrivalVisitor_constrainedRequiredsInvalid (sta : StaState) (vertex : Vertex)
  (is_clk : bool) (st : Search) : Search :=
  let pin := vertex_pin (graph_ sta) vertex in
  if isLoad (network_ sta) pin && requireds_exist_ (flags st)
  then
    let st1 :=
      if is_clk && isCheckClk (network_ sta) pin
      then fold_left
             (fun st edge =>
                if TimingRole_isTimingCheck (edge_role edge)
                then Search_requiredInvalid sta (edge_to edge) st
                else st)
             (vertex_out_edges (graph_ sta) vertex) st
      else st in
    (* Data checks (vertex does not need to be a clk). *)
    let st2 := fold_left (fun st to => Search_requiredInvalid_pin sta to st)
                         (dataChecksFrom (sdc_ sta) pin) st1 in
    (* Gated clocks. *)
    if is_clk && gatedClkChecksEnabled (sdc_ sta)
    then fold_left (fun st enable => Search_requiredInvalid_pin sta enable st)
                   (gatedClkEnables (path_ends sta) vertex) st2
    else st2
  else st.

(** [ArrivalVisitor::seedInputDelayArrival]. *)
Definition ArrivalVisitor_seedInputDelayArrival (sta : StaState) (pin : Pin) (vertex : Vertex)
  (input_delay : InputDelay) (st : Search) : Result Search :=
  let tag_bldr0 := TagGroupBldr_init (bldr_ops sta) true vertex (vertex_paths st) (pools st) in
  '(tag_bldr, p1) ← Search_seedInputDelayArrival sta (vertex_paths st) pin vertex
                      (Some input_delay) (negb (isTopLevelPort (network_ sta) pin))
                      tag_bldr0 (pools st);
  st1 ← Search_setVertexArrivals sta vertex tag_bldr (Search_set_pools st p1);
  '(queue, p2) ← BfsFwdIterator_enqueueAdjacentVertices sta search_adj_ (vertex_paths st1)
                   vertex (pools st1) (arrival_iter_ (work st1));
  Ok (Search_set_work (Search_set_pools st1 p2) (Work_set_arrival_iter (work st1) queue)).

(** [ArrivalVisitor::enqueueRefPinInputDelays]: enqueue pins with input
    delays that use [ref_pin] as the clock reference pin as if there is a
    timing arc from the reference pin to the input delay pin. *)
Definition ArrivalVisitor_enqueueRefPinInputDelays (sta : StaState) (ref_pin : Pin)
  (st : Search) : Result Search :=
  Result_foldl
    (fun st input_delay =>
       let pin := input_delay_pin input_delay in
       let '(vertex, bidirect_drvr_vertex) := pinVertices (graph_ sta) pin in
       st1 ← ArrivalVisitor_seedInputDelayArrival sta pin vertex input_delay st;
       match bidirect_drvr_vertex with
       | Some v => ArrivalVisitor_seedInputDelayArrival sta pin v input_delay st1
       | None => Ok st1
       end)
    (refPinInputDelays (sdc_ sta) ref_pin) st.

(** ** ArrivalVisitor::visit *)

Definition ArrivalVisitor_fromToPath (sta : StaState) :
  Pin -> Vertex -> TransRiseFall -> Tag -> PathVertex -> Edge -> TimingArc -> ArcDelay ->
  Vertex -> TransRiseFall -> Tag -> Arrival -> MinMax -> PathAPIndex -> Pools ->
  ArrivalVisitor -> bool * ArrivalVisitor :=
  fun _ _ _ _ from_path _ _ _ _ _ to_tag to_arrival min_max _ _ av =>
    ArrivalVisitor_visitFromToPath sta from_path to_tag to_arrival min_max av.

(** The part of [ArrivalVisitor::visit] that fills [tag_bldr_]: the fanin
    paths, CRPR pruning and the paths that originate at the vertex.  It
    reads the vertex paths, interns tags, and (re-seeding a clock source)
    may enqueue the fanout. *)
Definition ArrivalVisitor_visit_build (sta : StaState) (vertex : Vertex)
  (av : ArrivalVisitor) (st : Search) : Result (ArrivalVisitor * bool * Pools * list Vertex) :=
  let sdc := sdc_ sta in
  let network := network_ sta in
  let pin := vertex_pin (graph_ sta) vertex in
  let vp := vertex_paths st in
  let has_fanin_one := hasFaninOne (graph_ sta) vertex in
  let av1 :=
    {| always_to_endpoints_ := always_to_endpoints_ av;
       pred_ := pred_ av;
       crpr_active_ := crpr_active_ av;
       has_fanin_one_ := has_fanin_one;
       tag_bldr_ := TagGroupBldr_init (bldr_ops sta) true vertex vp (pools st);
       tag_bldr_no_crpr_ :=
         if crpr_active_ av && negb has_fanin_one
         then TagGroupBldr_init (bldr_ops sta) false vertex vp (pools st)
         else tag_bldr_no_crpr_ av |} in
  '(av2, p1) ← PathVisitor_visitFaninPaths (ArrivalVisitor_fromToPath sta) sta vp (pred_ av1)
                                           vertex (pools st) av1;
  let av3 :=
    if crpr_active_ av2 && negb has_fanin_one
    then ArrivalVisitor_pruneCrprArrivals sta av2
    else av2 in
  (* Insert paths that originate here but *)
  '(bldr4, p2) ←
     (if negb (isTopLevelPort network pin) && hasInputDelay sdc pin
      then (* set_input_delay on internal pin. *)
           Search_seedInputSegmentArrival sta vp pin vertex (tag_bldr_ av3) p1
      else Ok (tag_bldr_ av3, p1));
  '(bldr5, p3) ←
     (if isPathDelayInternalStartpoint sdc pin
      then (* set_min/max_delay on internal pin. *)
           '(_, b, p) ← Search_makeUnclkedPaths sta vertex true bldr4 p2; Ok (b, p)
      else Ok (bldr4, p2));
  '(bldr6, p4, queue1) ←
     (if isPathDelayInternalEndpoint sdc pin && isVertexPinClock sdc pin
      then (* set_min/max_delay on internal pin also a clock src. Bizzaroland.
              Re-seed the clock arrivals on top of the propagated paths. *)
           Search_seedClkArrivals sta vp pin vertex bldr5 p3 (arrival_iter_ (work st))
      else Ok (bldr5, p3, arrival_iter_ (work st)));
  (* Register/latch clock pin that is not connected to a declared clock.
     Seed with unclocked tag, zero arrival and allow search thru reg
     clk->q edges. *)
  let is_clk := TagGroupBldr_hasClkTag bldr6 in
  '(bldr7, p5) ←
     (if vertex_isRegClk (graph_ sta) vertex && negb is_clk
      then '(_, b, p) ← Search_makeUnclkedPaths sta vertex true bldr6 p4; Ok (b, p)
      else Ok (bldr6, p4));
  Ok (ArrivalVisitor_set_builders av3 bldr7 (tag_bldr_no_crpr_ av3), is_clk, p5, queue1).

(** [ArrivalVisitor::visit]. *)
Definition ArrivalVisitor_visit (sta : StaState) (vertex : Vertex)
  (av : ArrivalVisitor) (st : Search) : Result (ArrivalVisitor * Search) :=
  let sdc := sdc_ sta in
  let network := network_ sta in
  let pin := vertex_pin (graph_ sta) vertex in
  (* Don't clobber clock sources. *)
  if negb (isVertexPinClock sdc pin)
     (* Unless it is an internal path delay endpoint. *)
     || isPathDelayInternalEndpoint sdc pin
  then
    '(av1, is_clk, p1, queue1) ← ArrivalVisitor_visit_build sta vertex av st;
    let st1 := Search_set_work (Search_set_pools st p1)
                               (Work_set_arrival_iter (work st) queue1) in
    let arrivals_changed := Search_arrivalsChanged sta st1 vertex (tag_bldr_ av1) in
    (* If vertex is a latch data input arrival that changed from the
       previous eval pass enqueue the latch outputs to be re-evaled on the
       next pass. *)
    let st2 :=
      if isLatchData network pin
      then if arrivals_changed && isLatchData network pin
           then Search_enqueueLatchDataOutputs sta vertex st1
           else st1
      else st1 in
    st3 ←
      (if (negb (arrivals_at_endpoints_exist_ (flags st2))
           || always_to_endpoints_ av1
           || arrivals_changed)
          && (isRegClkPin network pin || negb (isPathDelayInternalEndpoint sdc pin))
       then
         '(queue, p) ← BfsFwdIterator_enqueueAdjacentVertices sta
                          (pred_SearchThru (Some (tag_bldr_ av1))) (vertex_paths st2) vertex
                          (pools st2) (arrival_iter_ (work st2));
         Ok (Search_set_work (Search_set_pools st2 p) (Work_set_arrival_iter (work st2) queue))
       else Ok st2);
    st4 ←
      (if arrivals_changed
       then
         (* Only update arrivals when delays change by more than
            fuzzyEqual can distinguish. *)
         st' ← Search_setVertexArrivals sta vertex (tag_bldr_ av1) st3;
         Ok (ArrivalVisitor_constrainedRequiredsInvalid sta vertex is_clk
               (Search_tnsInvalid sta vertex st'))
       else Ok st3);
    st5 ← ArrivalVisitor_enqueueRefPinInputDelays sta pin st4;
    Ok (av1, st5)
  else Ok (av, st).

(** ** Seeding the arrival search *)

(** [Search::isInputArrivalSrchStart]. *)
Definition Search_isInputArrivalSrchStart (sta : StaState) (vertex : Vertex) : bool :=
  let pin := vertex_pin (graph_ sta) vertex in
  isTopLevelPort (network_ sta) pin
  && (direction_isInput (network_ sta) pin
      || (direction_isBidirect (network_ sta) pin
          && vertex_isBidirectDriver (graph_ sta) vertex)).

Definition Search_enqueueAdjacent_search_adj (sta : StaState) (vertex : Vertex) (st : Search)
  : Result Search :=
  '(queue, p) ← BfsFwdIterator_enqueueAdjacentVertices sta search_adj_ (vertex_paths st) vertex
                   (pools st) (arrival_iter_ (work st));
  Ok (Search_set_work (Search_set_pools st p) (Work_set_arrival_iter (work st) queue)).

(** [Search::seedArrival]. *)
Definition Search_seedArrival (sta : StaState) (vertex : Vertex) (st : Search)
  : Result Search :=
  let pin := vertex_pin (graph_ sta) vertex in
  let vp := vertex_paths st in
  let tag_bldr0 := TagGroupBldr_init (bldr_ops sta) true vertex vp (pools st) in
  if isVertexPinClock (sdc_ sta) pin
  then
    let tag_bldr1 := copyGenClkSrcPaths (genclks_ sta) vertex tag_bldr0 in
    '(tag_bldr2, p1, queue1) ← Search_seedClkArrivals sta vp pin vertex tag_bldr1 (pools st)
                                  (arrival_iter_ (work st));
    (* Clock pin may also have input arrivals from other clocks. *)
    '(tag_bldr3, p2) ← Search_seedInputArrival sta vp pin vertex tag_bldr2 p1;
    Search_setVertexArrivals sta vertex tag_bldr3
      (Search_set_work (Search_set_pools st p2) (Work_set_arrival_iter (work st) queue1))
  else if Search_isInputArrivalSrchStart sta vertex
  then
    '(tag_bldr1, p1) ← Search_seedInputArrival sta vp pin vertex tag_bldr0 (pools st);
    st1 ← Search_setVertexArrivals sta vertex tag_bldr1 (Search_set_pools st p1);
    if negb (TagGroupBldr_empty tag_bldr1)
    then (* Only search downstream if there were non-false paths from here. *)
         Search_enqueueAdjacent_search_adj sta vertex st1
    else Ok st1
  else if isRoot (levelize_ sta) vertex
  then
    let is_reg_clk := vertex_isRegClk (graph_ sta) vertex in
    if is_reg_clk
       (* Internal roots isolated by disabled pins are seeded with no clock. *)
       || (report_unconstrained_paths_ (flags st)
           && negb (isTopLevelPort (network_ sta) pin))
    then
      '(search_from, tag_bldr1, p1) ← Search_makeUnclkedPaths sta vertex is_reg_clk tag_bldr0
                                         (pools st);
      st1 ← (if (search_from : bool)
             then (* Only search downstream if there were no false paths from here. *)
                  Search_enqueueAdjacent_search_adj sta vertex (Search_set_pools st p1)
             else Ok (Search_set_pools st p1));
      Search_setVertexArrivals sta vertex tag_bldr1 st1
    else
      let st1 := Search_deletePaths sta vertex st in
      if SearchPred_searchFrom sta search_adj_ vertex
      then Search_enqueueAdjacent_search_adj sta vertex st1
      else Ok st1
  else
    Ok (Search_set_work st
          (Work_set_arrival_iter (work st)
             (BfsIterator_enqueue vertex (arrival_iter_ (work st))))).

(** [Search::findClockVertices], [findRootVertices] and
    [findInputDrvrVertices] into one vertex set. *)
Definition Search_seedVertices (sta : StaState) : gset Vertex :=
  let clock_vertices :=
    flat_map (fun pin =>
                let '(vertex, bidirect_drvr_vertex) := pinVertices (graph_ sta) pin in
                vertex :: match bidirect_drvr_vertex with Some v => [v] | None => [] end)
             (clock_vertex_pins (sdc_ sta)) in
  let root_vertices :=
    List.filter (fun vertex =>
                   let pin := vertex_pin (graph_ sta) vertex in
                   negb (isVertexPinClock (sdc_ sta) pin)
                   && negb (hasInputDelay (sdc_ sta) pin)
                   && negb (vertex_isConstant (graph_ sta) vertex))
                (roots (levelize_ sta)) in
  let input_vertices := map (pinDrvrVertex (graph_ sta)) (top_input_pins (network_ sta)) in
  list_to_set (clock_vertices ++ root_vertices ++ input_vertices).

(** [Search::seedArrivals]. *)
Definition Search_seedArrivals (sta : StaState) (st : Search) : Result Search :=
  Result_foldl (fun st vertex => Search_seedArrival sta vertex st)
               (elements (Search_seedVertices sta)) st.

(** [Search::seedInvalidArrivals]. *)
Definition Search_seedInvalidArrivals (sta : StaState) (st : Search) : Result Search :=
  st1 ← Result_foldl (fun st vertex => Search_seedArrival sta vertex st)
                     (elements (invalid_arrivals_ (work st))) st;
  Ok (Search_set_work st1 (Work_set_invalid_arrivals (work st1) ∅)).

Definition Flags_set_arrivals_seeded (f : Flags) (b : bool) : Flags :=
  {| clk_arrivals_valid_ := clk_arrivals_valid_ f;
     arrivals_exist_ := arrivals_exist_ f;
     arrivals_at_endpoints_exist_ := arrivals_at_endpoints_exist_ f;
     arrivals_seeded_ := b;
     requireds_exist_ := requireds_exist_ f;
     requireds_seeded_ := requireds_seeded_ f;
     tns_exists_ := tns_exists_ f;
     worst_slacks_exist_ := worst_slacks_exist_ f;
     have_paths_ := have_paths_ f;
     report_unconstrained_paths_ := report_unconstrained_paths_ f |}.

(** [Search::findArrivals1].  The insertion delays of the generated-clock
    engine and the sizes of the iterators are outside the embedding. *)
Definition Search_findArrivals1 (sta : StaState) (st : Search) : Result Search :=
  st1 ←
    (if negb (arrivals_seeded_ (flags st))
     then
       let st0 := Search_set_work st
                    (Work_set_required_iter (Work_set_arrival_iter (work st) []) []) in
       st' ← Search_seedArrivals sta st0;
       Ok (Search_set_flags st' (Flags_set_arrivals_seeded (flags st') true))
     else Ok st);
  Search_seedInvalidArrivals sta st1.

(** Modelled from the spec: the vertex that [visitParallel] visits next,
    "levels in order up to maxLevel": the first queued vertex of the
    lowest level that has queued vertices, when that level is at most
    [to_level].  The spec leaves the order within a level open; the
    embedding takes the order of the queue (one worker). *)
Fixpoint BfsFwdIterator_next_levels (sta : StaState) (levels : list Level)
  (queue : list Vertex) : option Vertex :=
  match levels with
  | [] => None
  | level :: rest =>
      match List.find (fun v => bool_decide (vertex_level (graph_ sta) v = level)) queue with
      | Some vertex => Some vertex
      | None => BfsFwdIterator_next_levels sta rest queue
      end
  end.

Definition BfsFwdIterator_next (sta : StaState) (to_level : Level) (queue : list Vertex)
  : option Vertex :=
  BfsFwdIterator_next_levels sta (seq 0 (S to_level)) queue.

(** Modelled from the spec: [BfsIterator::visitParallel(to_level, visitor)]
    for the arrival iterator "drains levels in order up to maxLevel": the
    next vertex is taken off the queue and visited, until no vertex is
    queued at a level up to [to_level]; a visit may enqueue vertices of any
    level, also of the level being drained or of a lower one.  [fuel]
    bounds the number of visits; the result is [None] when it runs out
    before the queue is drained. *)
Fixpoint BfsFwdIterator_visitParallel_loop (sta : StaState) (to_level : Level) (fuel : nat)
  (av : ArrivalVisitor) (st : Search) (visit_count : nat)
  : option (Result (nat * ArrivalVisitor * Search)) :=
  match BfsFwdIterator_next sta to_level (arrival_iter_ (work st)) with
  | None => Some (Ok (visit_count, av, st))
  | Some vertex =>
      match fuel with
      | O => None
      | S fuel' =>
          let st1 := Search_set_work st
                       (Work_set_arrival_iter (work st)
                          (BfsIterator_remove vertex (arrival_iter_ (work st)))) in
          match ArrivalVisitor_visit sta vertex av st1 with
          | Ok (av2, st2) =>
              BfsFwdIterator_visitParallel_loop sta to_level fuel' av2 st2 (S visit_count)
          | InternalError msg => Some (InternalError msg)
          end
      end
  end.

Definition BfsFwdIterator_visitParallel (sta : StaState) (fuel : nat) (to_level : Level)
  (av : ArrivalVisitor) (st : Search) : option (Result (nat * ArrivalVisitor * Search)) :=
  BfsFwdIterator_visitParallel_loop sta to_level fuel av st 0.

Definition BfsIterator_empty (queue : list Vertex) : bool :=
  bool_decide (length queue = 0%nat).

(** [Search::findArrivals(level, arrival_visitor)]; [fuel] is the bound on
    the visits of [visitParallel]. *)
Definition Search_findArrivals_visitor (sta : StaState) (fuel : nat) (level : Level)
  (av : ArrivalVisitor) (st : Search) : option (Result (ArrivalVisitor * Search)) :=
  match Search_findArrivals1 sta st with
  | Ok st1 =>
      match BfsFwdIterator_visitParallel sta fuel level av st1 with
      | Some (Ok (arrival_count, av2, st2)) =>
          let f := flags st2 in
          let done := BfsIterator_empty (arrival_iter_ (work st2))
                      && bool_decide (invalid_arrivals_ (work st2) = ∅) in
          Some (Ok (av2,
                    Search_set_flags st2
                      {| clk_arrivals_valid_ := if done then true else clk_arrivals_valid_ f;
                         arrivals_exist_ := true;
                         arrivals_at_endpoints_exist_ :=
                           if done then true else arrivals_at_endpoints_exist_ f;
                         arrivals_seeded_ := arrivals_seeded_ f;
                         requireds_exist_ := requireds_exist_ f;
                         requireds_seeded_ := requireds_seeded_ f;
                         tns_exists_ := tns_exists_ f;
                         worst_slacks_exist_ := worst_slacks_exist_ f;
                         have_paths_ := have_paths_ f;
                         report_unconstrained_paths_ := report_unconstrained_paths_ f |}))
      | Some (InternalError msg) => Some (InternalError msg)
      | None => None
      end
  | InternalError msg => Some (InternalError msg)
  end.

(** [Search::findArrivals(level)]: with [arrival_visitor_], initialized
    with [eval_pred_]. *)
Definition Search_findArrivals (sta : StaState) (fuel : nat) (level : Level)
  (arrival_visitor_ : ArrivalVisitor) (st : Search)
  : option (Result (ArrivalVisitor * Search)) :=
  Search_findArrivals_visitor sta fuel level
    (ArrivalVisitor_init sta false eval_pred_ arrival_visitor_) st.

(** ** The interning invariant *)



(** ** Merging candidates into a builder

    What the proofs about [ArrivalVisitor::visitFromToPath] say about the
    builder: the step of one candidate, the three things a step can do,
    and the invariant of a drain. *)

(** The builder step of one candidate: [tag_bldr_] after the call of
    [visitFromToPath] for it. *)
Definition TagGroupBldr_merge (sta : StaState) (b : TagGroupBldr) (c : Candidate)
  : TagGroupBldr :=
  let tag_match := TagGroupBldr_tagMatchArrival (tag_ops sta) (cand_to_tag c) b in
  if arrival_update_needed (delay_ops sta) tag_match (cand_to_arrival c) (cand_min_max c)
  then TagGroupBldr_setMatchArrival (tag_ops sta) (cand_to_tag c) (tag_match_entry tag_match)
         (cand_to_arrival c)
         (if Tag_isClock (cand_to_tag c) || Tag_isGenClkSrcPath (cand_to_tag c)
          then PathVertexRep_init (cand_from_path c) else None)
         b
  else b.

(** What one step does to the builder: it adds a slot for a tag nobody
    matched, overwrites the slot of the matching tag with a fuzzy-greater
    arrival, or keeps the builder. *)
Inductive merge_effect (sta : StaState) (crpr : bool) (b b' : TagGroupBldr) (c : Candidate)
  : Prop :=
| step_insert :
    (forall t i, (t, i) ∈ arrival_map_ b ->
                 tagMatch (tag_ops sta) t (cand_to_tag c) crpr = false) ->
    arrival_map_ b' = arrival_map_ b ++ [(cand_to_tag c, length (arrivals_ b))] ->
    arrivals_ b' = arrivals_ b ++ [cand_to_arrival c] ->
    merge_effect sta crpr b b' c
| step_update tm idx arr t_new :
    TagGroupBldr_stored_at b tm idx arr ->
    tagMatch (tag_ops sta) tm (cand_to_tag c) crpr = true ->
    delayFuzzyGreater (delay_ops sta) (cand_to_arrival c) arr (cand_min_max c) = true ->
    (t_new = tm \/ t_new = cand_to_tag c) ->
    (forall t i, (t, i) ∈ arrival_map_ b' <->
       (t, i) = (t_new, idx) \/ ((t, i) ∈ arrival_map_ b /\ (t, i) <> (tm, idx))) ->
    arrivals_ b' = <[idx := cand_to_arrival c]> (arrivals_ b) ->
    merge_effect sta crpr b b' c
| step_keep tm idx arr :
    b' = b ->
    TagGroupBldr_stored_at b tm idx arr ->
    tagMatch (tag_ops sta) tm (cand_to_tag c) crpr = true ->
    delayFuzzyGreater (delay_ops sta) (cand_to_arrival c) arr (cand_min_max c) = false ->
    merge_effect sta crpr b b' c.

(** Invariant of the drain after the candidates [done] have been merged
    into a builder that started as [b0]: every stored arrival comes from a
    merged candidate with a matching tag (or from [b0]), and no merged
    candidate beats the arrival stored under its tag. *)
Record merge_inv (sta : StaState) (crpr : bool) (b0 b : TagGroupBldr)
  (done : list Candidate) : Prop := {
  inv_flag : match_crpr_clk_pin_ b = crpr;
  inv_wf : TagGroupBldr_wf (tag_ops sta) b;
  inv_origin : forall t i s, TagGroupBldr_stored_at b t i s ->
    (exists c, c ∈ done /\ tagMatch (tag_ops sta) t (cand_to_tag c) crpr = true
               /\ cand_to_arrival c = s)
    \/ TagGroupBldr_stored_at b0 t i s;
  inv_cover : forall c, c ∈ done ->
    exists t i s, TagGroupBldr_stored_at b t i s
                  /\ tagMatch (tag_ops sta) t (cand_to_tag c) crpr = true
                  /\ delayFuzzyGreater (delay_ops sta) (cand_to_arrival c) s
                                       (cand_min_max c) = false
}.

(** A candidate of the fanin traversal of [to_vertex]: its from path is
    at the from vertex of an in-edge, its min/max is that of the path
    analysis point of the from tag, and its tag and arrival are what
    [PathVisitor::visitFromPath] derives through an arc of the edge. *)
Definition fanin_candidate (sta : StaState) (vp : gmap Vertex VertexPaths)
  (to_vertex : Vertex) (c : Candidate) : Prop :=
  let from_path := cand_from_path c in
  let from_tag := path_tag from_path in
  let path_ap := path_ap_index from_tag in
  exists edge arc arc_delay p0 p1,
    edge ∈ vertex_in_edges (graph_ sta) to_vertex
    /\ path_vertex from_path = edge_from edge
    /\ cand_min_max c = pathMinMax (corners_ sta) path_ap
    /\ PathVisitor_visitFromPath_to sta vp (vertex_pin (graph_ sta) (edge_from edge))
         (edge_from edge) (Tag_transition from_tag) from_path edge arc
         (vertex_pin (graph_ sta) to_vertex) to_vertex (arc_toTrans arc)
         (cand_min_max c) path_ap p0
       = Ok (Some (cand_to_tag c), arc_delay, cand_to_arrival c, p1).

(** A visitor that writes down each candidate that a traversal hands to
    [visitFromToPath], and never stops the traversal. *)
Definition Candidates_fromToPath :
  Pin -> Vertex -> TransRiseFall -> Tag -> PathVertex -> Edge -> TimingArc -> ArcDelay ->
  Vertex -> TransRiseFall -> Tag -> Arrival -> MinMax -> PathAPIndex -> Pools ->
  list Candidate -> bool * list Candidate :=
  fun _ _ _ _ from_path _ _ _ _ _ to_tag to_arrival min_max _ _ cands =>
    (true, cands ++ [mkCandidate from_path to_tag to_arrival min_max]).

(** The candidates of a vertex in the order of the traversal: what
    [PathVisitor::visitFaninPaths] hands to a visitor that never stops
    it. *)
Definition PathVisitor_faninCandidates (sta : StaState) (vp : gmap Vertex VertexPaths)
  (pred : SearchPred) (to_vertex : Vertex) (p : Pools) : Result (list Candidate * Pools) :=
  PathVisitor_visitFaninPaths Candidates_fromToPath sta vp pred to_vertex p [].

(** What a traversal does to the list of [Candidates_fromToPath]: it
    appends candidates, each of them a [P]. *)
Definition collects (P : Candidate -> Prop) (cands cands' : list Candidate) : Prop :=
  exists new, Forall P new /\ cands' = cands ++ new.

(** ** Frames of the search operations *)

(** What an operation leaves alone: the parts of the search state that
    the arrival pass keys on. *)
Record Search_keeps (st st' : Search) : Prop := {
  keeps_vertex_paths : vertex_paths st' = vertex_paths st;
  keeps_pools : pools st' = pools st;
  keeps_arrival_iter : arrival_iter_ (work st') = arrival_iter_ (work st);
  keeps_invalid_arrivals : invalid_arrivals_ (work st') = invalid_arrivals_ (work st);
  keeps_flags : flags st' = flags st
}.

(** What an operation may touch: the slots of the vertices in [W], and
    the arrival queue, to which it adds fanout of vertices in [W]. *)
Record Search_touches (sta : StaState) (W : Vertex -> Prop) (st st' : Search) : Prop := {
  touches_vertex_paths : forall u, ~ W u -> vertex_paths st' !! u = vertex_paths st !! u;
  touches_arrival_iter : forall u, u ∈ arrival_iter_ (work st') ->
    u ∈ arrival_iter_ (work st)
    \/ exists w e, W w /\ e ∈ vertex_out_edges (graph_ sta) w /\ u = edge_to e;
  touches_invalid_arrivals : invalid_arrivals_ (work st') = invalid_arrivals_ (work st);
  touches_arrivals_seeded : arrivals_seeded_ (flags st') = arrivals_seeded_ (flags st)
}.

(** The vertices that a visit of the reference pin seeds again: those of
    the input delays that name [ref_pin] as their reference pin. *)
Definition refPinInputDelay_vertex (sta : StaState) (ref_pin : Pin) (u : Vertex) : Prop :=
  exists input_delay,
    input_delay ∈ refPinInputDelays (sdc_ sta) ref_pin
    /\ (u = fst (pinVertices (graph_ sta) (input_delay_pin input_delay))
        \/ snd (pinVertices (graph_ sta) (input_delay_pin input_delay)) = Some u).

(** [queue'] is [queue] with fanout of [vertex] added. *)
Definition queue_from (sta : StaState) (vertex : Vertex) (queue queue' : list Vertex) : Prop :=
  forall u, u ∈ queue' ->
    u ∈ queue \/ exists e, e ∈ vertex_out_edges (graph_ sta) vertex /\ u = edge_to e.

(** Every queued vertex is at [level] or above. *)
Definition queue_above (sta : StaState) (level : Level) (queue : list Vertex) : Prop :=
  forall u, u ∈ queue -> (level <= vertex_level (graph_ sta) u)%nat.

(** The state in which a completed arrival pass to [level] leaves the
    search: seeded, nothing invalid, nothing queued up to the level. *)
Record Search_settled (sta : StaState) (level : Level) (st : Search) : Prop := {
  settled_seeded : arrivals_seeded_ (flags st) = true;
  settled_invalid : invalid_arrivals_ (work st) = ∅;
  settled_queue : queue_above sta (S level) (arrival_iter_ (work st));
  settled_exist : arrivals_exist_ (flags st) = true;
  settled_valid : BfsIterator_empty (arrival_iter_ (work st)) = true ->
                  clk_arrivals_valid_ (flags st) = true
                  /\ arrivals_at_endpoints_exist_ (flags st) = true
}.

(** ** Total negative slack, specification side

    "TNS sums negative per-endpoint WNS per corner": the sum and the
    per-endpoint table that a pass over all endpoints should produce, for
    a slack per endpoint. *)

Definition negative_slack (d : DelayOps) (slack : Slack) : Slack :=
  if fuzzyLess d slack 0 then slack else 0.

Definition total_negative_slack (d : DelayOps) (slack : Vertex -> Slack)
  (ends : list Vertex) : Slack :=
  foldr (fun vertex acc => negative_slack d (slack vertex) + acc) 0 ends.

(** The sum of the magnitudes of the negative endpoint slacks: while it
    is below 2^24 units no sum of them is rounded. *)
Definition total_abs_negative_slack (d : DelayOps) (slack : Vertex -> Slack)
  (ends : list Vertex) : Slack :=
  foldr (fun vertex acc => Z.abs (negative_slack d (slack vertex)) + acc) 0 ends.

Definition negative_slacks (d : DelayOps) (slack : Vertex -> Slack)
  (ends : list Vertex) : gmap Vertex Slack :=
  foldr (fun vertex m => if fuzzyLess d (slack vertex) 0
                         then <[vertex := slack vertex]> m else m) ∅ ends.

Definition Tns_from_scratch (d : DelayOps) (slack : Vertex -> Slack) (ends : list Vertex)
  : Tns :=
  {| tns_ := total_negative_slack d slack ends;
     tns_slacks_ := negative_slacks d slack ends |}.

(** The slack of one endpoint changes. *)
Definition slacks_update {A} (slacks : Vertex -> A) (vertex : Vertex) (s : A)
  : Vertex -> A :=
  fun v => if decide (v = vertex) then s else slacks v.

(** ** Exception states: what a state still waits for *)

(** The -thru matchers of the exception that the cursor of [state] has not
    passed yet. *)
Definition ExceptionState_remainingThrus (state : ExceptionState) : list nat :=
  drop (next_thru_index state) (exception_thrus (exception state)).

(** ** Exceptions at the end of a path

    The queries that [Search::exceptionTo] makes of an exception and of the
    SDC (ExceptionPath.hh, Sdc.hh). *)
Record ExceptionToOps := mkExceptionToOps {
  exception_priority : ExceptionPath -> MinMax -> Z;
  exception_tighterThan : ExceptionPath -> ExceptionPath -> bool;
  isCompleteTo : ExceptionState -> Pin -> TransRiseFall -> option ClockEdge -> MinMax ->
                 bool -> bool -> bool;
  (* [Sdc::exceptionTo]: folds the -to exceptions that originate at the end
     pin or target clock into the best exception and its priority *)
  sdc_exceptionTo : option ExceptionPathType -> Pin -> TransRiseFall -> option ClockEdge ->
                    MinMax -> bool -> option ExceptionPath -> Z -> option ExceptionPath * Z
}.

(** The loop of [Search::exceptionTo] over the states of the tag of the
    path: the highest priority exception so far and its priority.  The
    type [None] is [exception_type_any]. *)
Definition Search_exceptionTo_states (ops : ExceptionToOps) (type : option ExceptionPathType)
  (states : list ExceptionState) (pin : Pin) (tr : TransRiseFall)
  (clk_edge : option ClockEdge) (min_max : MinMax) (match_min_max_exactly : bool)
  (require_to_pin : bool) : Z * option ExceptionPath :=
  fold_left
    (fun '(hi_priority, hi_priority_exception) state =>
       let exception := exception state in
       let priority := exception_priority ops exception min_max in
       if match type with
          | None => true
          | Some type => bool_decide (exception_type exception = type)
          end
          && isCompleteTo ops state pin tr clk_edge min_max match_min_max_exactly
                          require_to_pin
          && match hi_priority_exception with
             | None => true
             | Some hi => (hi_priority <? priority)
                          || ((priority =? hi_priority)
                              && exception_tighterThan ops exception hi)
             end
       then (priority, Some exception)
       else (hi_priority, hi_priority_exception))
    states (-1, None).

(** [Search::exceptionTo]. *)
Definition Search_exceptionTo (ops : ExceptionToOps) (type : option ExceptionPathType)
  (path : PathVertex) (pin : Pin) (tr : TransRiseFall) (clk_edge : option ClockEdge)
  (min_max : MinMax) (match_min_max_exactly : bool) (require_to_pin : bool)
  : option ExceptionPath :=
  let '(hi_priority, hi_priority_exception) :=
    Search_exceptionTo_states ops type (default [] (states (path_tag path))) pin tr clk_edge
                              min_max match_min_max_exactly require_to_pin in
  (* Check for -to exceptions originating at the end pin or target clock. *)
  fst (sdc_exceptionTo ops type pin tr clk_edge min_max match_min_max_exactly
                       hi_priority_exception hi_priority).

(** ** The report filter

    [filter_], [filter_from_] and [filter_to_] of the search: the filter
    exception made from -from pins/instances and -thru, the -from and the
    -to of the last [findPathEnds]. *)
Record ExceptionFrom := mkExceptionFrom {
  from_pins : option (list Pin);
  from_instances : option (list nat);
  from_clks : option (list Clock);
  (* transition()->matches(tr) *)
  from_transition_matches : option TransRiseFall -> bool
}.

Record FilterPath := mkFilterPath {
  filter_exception : ExceptionPath;
  filter_path_from : option ExceptionFrom;
  filter_path_thrus : option (list nat)
}.

Record SearchFilter := mkSearchFilter {
  filter_ : option FilterPath;
  filter_from_ : option ExceptionFrom;
  (* filter_to_->matchesFilter(pin, to_clk_edge, tr, network) *)
  filter_to_ : option (Pin -> option ClockEdge -> TransRiseFall -> bool)
}.

(** A null test on a pointer. *)
Definition is_null {A : Type} (pointer : option A) : bool :=
  match pointer with None => true | Some _ => false end.

(** [Search::deleteFilter]. *)
Definition Search_deleteFilter (flt : SearchFilter) : SearchFilter :=
  {| filter_ := None; filter_from_ := None; filter_to_ := None |}.

(** [Search::matchesFilterTo]. *)
Definition Search_matchesFilterTo (sta : StaState) (flt : SearchFilter) (path : PathVertex)
  (to_clk_edge : option ClockEdge) : bool :=
  match filter_to_ flt with
  | None => true
  | Some matchesFilter =>
      matchesFilter (vertex_pin (graph_ sta) (path_vertex path)) to_clk_edge
                    (Tag_transition (path_tag path))
  end.

(** [Search::matchesFilter]. *)
Definition Search_matchesFilter (sta : StaState) (flt : SearchFilter) (path : PathVertex)
  (to_clk_edge : option ClockEdge) : Result bool :=
  if is_null (filter_ flt) && is_null (filter_from_ flt) && is_null (filter_to_ flt)
  then Ok true
  else
    match filter_ flt with
    | Some filter =>
        (* -from pins|inst, -thru: the path has to be tagged by traversing
           the filter exception points. *)
        Ok (existsb
              (fun state =>
                 bool_decide (exception state = filter_exception filter)
                 && bool_decide (ExceptionState_nextThru state = None)
                 && Search_matchesFilterTo sta flt path to_clk_edge)
              (default [] (states (path_tag path))))
    | None =>
        match filter_from_ flt with
        | Some from =>
            if is_null (from_pins from)
               && is_null (from_instances from)
               && negb (is_null (from_clks from))
            then
              (* -from clks *)
              let path_clk_edge := clk_edge (clk_info (path_tag path)) in
              let path_clk := clock_edge_clock <$> path_clk_edge in
              let path_clk_tr := clock_edge_transition <$> path_clk_edge in
              Ok (match path_clk with
                  | Some clk => bool_decide (clk ∈ default [] (from_clks from))
                  | None => false
                  end
                  && from_transition_matches from path_clk_tr
                  && Search_matchesFilterTo sta flt path to_clk_edge)
            else InternalError "unexpected filter path"
        | None =>
            if negb (is_null (filter_to_ flt))
            then (* -to *) Ok (Search_matchesFilterTo sta flt path to_clk_edge)
            else InternalError "unexpected filter path"
        end
    end.

(** ** Deleting paths

    [Search::deletePaths()] over all vertices of the graph, and
    [Search::deleteFilteredArrivals]. *)

(** [Search::deletePaths()]. *)
Definition Search_deletePaths_all (sta : StaState) (st : Search) : Search :=
  if have_paths_ (flags st)
  then
    let st1 := fold_left (fun st vertex => Search_deletePaths1 sta vertex st)
                         (vertices (graph_ sta)) st in
    Search_set_flags st1 (Flags_set_have_paths (flags st1) false)
  else st.

(** The loop of [Search::deleteFilteredArrivals] over the vertices. *)
Definition Search_deleteFilteredArrivals_vertices (sta : StaState) (st : Search) : Search :=
  fold_left
    (fun st vertex =>
       match Search_tagGroup (limits sta) (vertex_paths st) (pools st) vertex with
       | Some tag_group =>
           if TagGroup_hasFilterTag tag_group
           then
             (* Vertex's tag_group will be deleted. *)
             Search_requiredInvalid sta vertex
               (Search_arrivalInvalid sta vertex (Search_deletePaths sta vertex st))
           else st
       | None => st
       end)
    (vertices (graph_ sta)) st.

(** [Search::deleteFilteredArrivals]. *)
Definition Search_deleteFilteredArrivals (sta : StaState) (flt : SearchFilter) (st : Search)
  : Search * SearchFilter :=
  (match filter_ flt with
   | Some filter =>
       if match filter_path_from filter with
          | Some from => negb (is_null (from_pins from)) || negb (is_null (from_instances from))
          | None => false
          end
          || negb (is_null (filter_path_thrus filter))
       then
         let st1 := Search_deleteFilteredArrivals_vertices sta st in
         Search_set_pools st1
           (Search_deleteFilterTags
              (Search_deleteFilterClkInfos (Search_deleteFilterTagGroups (pools st1))))
       else st
   | None => st
   end,
   Search_deleteFilter flt).

(** The vertex carries a tag group with a filter tag. *)
Definition Search_hasFilterTagGroup (sta : StaState) (st : Search) (vertex : Vertex) : bool :=
  match Search_tagGroup (limits sta) (vertex_paths st) (pools st) vertex with
  | Some tag_group => TagGroup_hasFilterTag tag_group
  | None => false
  end.

(** Every vertex of the graph that has arrivals has a tag group in the
    pool. *)
Definition Search_paths_valid (sta : StaState) (st : Search) : Prop :=
  forall vertex, vertex ∈ vertices (graph_ sta) ->
    is_Some (vertex_arrivals (Search_vertex (limits sta) st vertex)) ->
    is_Some (Search_tagGroup (limits sta) (vertex_paths st) (pools st) vertex).

(** What [have_paths_] stands for: while it is false no vertex of the graph
    has paths. *)
Definition Search_have_paths_inv (sta : StaState) (st : Search) : Prop :=
  have_paths_ (flags st) = false ->
  forall vertex, vertex ∈ vertices (graph_ sta) ->
    Search_vertex (limits sta) st vertex = VertexPaths_none (limits sta).

(** * Equivalent liberty cells (liberty/EquivCells.cc)

    The cells of a liberty library are grouped into classes of equivalent
    cells: a hash over the ports and sequentials of a cell segregates the
    candidates, [equivCells] decides.  Unsigned arithmetic is 32 bit with
    wrap-around.  A pointer to a cell is its [cell_id]; a null [FuncExpr]
    pointer is [expr_null]. *)

Definition wrap32 (z : Z) : Z := z mod 2 ^ 32.

(** What the hash reads of a port: its name and the index of its
    direction. *)
Record PortId := mkPortId {
  port_name : string;
  port_direction_index : Z
}.

#[global] Instance PortId_eq_dec : EqDecision PortId.
Proof. solve_decision. Defined.

(** A function expression, as [hashFuncExpr] reads it: the operator (the
    value of the enumeration), the port of a port expression, and the two
    operands. *)
Inductive FuncExpr :=
| expr_null
| expr_node (op : Z) (port : PortId) (expr_left expr_right : FuncExpr).

#[global] Instance FuncExpr_eq_dec : EqDecision FuncExpr.
Proof. solve_decision. Defined.

Record LibertyPort := mkLibertyPort {
  liberty_port_id : PortId;
  liberty_port_function : FuncExpr;
  liberty_port_tristateEnable : FuncExpr
}.

#[global] Instance LibertyPort_eq_dec : EqDecision LibertyPort.
Proof. solve_decision. Defined.

Record Sequential := mkSequential {
  seq_clock : FuncExpr;
  seq_data : FuncExpr;
  seq_output : LibertyPort;
  seq_outputInv : LibertyPort;
  seq_clear : FuncExpr;
  seq_preset : FuncExpr;
  seq_clearPresetOutput : Z;
  seq_clearPresetOutputInv : Z
}.

(** A timing arc of a cell: the drive resistance of its gate timing model,
    or none when the model of the arc is not a gate model.  Resistances
    are numbers of a fixed unit; only their order is used. *)
Record LibertyArc := mkLibertyArc {
  arc_gate_driveResistance : option Z
}.

Record LibertyArcSet := mkLibertyArcSet {
  arc_set_index : nat;
  arc_set_isTimingCheck : bool;
  arc_set_arcs : list LibertyArc
}.

Record LibertyCell := mkLibertyCell {
  cell_id : nat;
  cell_dontUse : bool;
  cell_ports : list LibertyPort;
  cell_sequentials : list Sequential;
  cell_timingArcSets : list LibertyArcSet
}.

(** The comparisons and lookups of Liberty.cc, FuncExpr.cc and
    TimingArc.cc that EquivCells.cc calls, and the values of the two
    operators that [hashFuncExpr] names. *)
Record LibertyOps := mkLibertyOps {
  (* the value of a [char] *)
  char_value : Ascii.ascii -> Z;
  op_port : Z;
  op_not : Z;
  LibertyPort_equiv : LibertyPort -> LibertyPort -> bool;
  FuncExpr_equiv : FuncExpr -> FuncExpr -> bool;
  TimingArcSet_equiv : LibertyArcSet -> LibertyArcSet -> bool;
  findLibertyPort : LibertyCell -> string -> option LibertyPort;
  findTimingArcSet : LibertyCell -> LibertyArcSet -> option LibertyArcSet
}.

(** [hashString]: [hash = str[i] + (hash << 2)] over the characters. *)
Definition hashString (ops : LibertyOps) (str : string) : Z :=
  fold_left (fun hash c => wrap32 (char_value ops c + Z.shiftl hash 2))
            (String.list_ascii_of_string str) 0.

(** [hashPort]. *)
Definition hashPort (ops : LibertyOps) (port : PortId) : Z :=
  wrap32 (hashString ops (port_name port) * 3 + port_direction_index port * 5).

(** [hashFuncExpr]. *)
Fixpoint hashFuncExpr (ops : LibertyOps) (expr : FuncExpr) : Z :=
  match expr with
  | expr_null => 0
  | expr_node op port expr_left expr_right =>
      if bool_decide (op = op_port ops)
      then wrap32 (hashPort ops port * 17)
      else if bool_decide (op = op_not ops)
      then wrap32 (hashFuncExpr ops expr_left * 31)
      else wrap32 ((hashFuncExpr ops expr_left + hashFuncExpr ops expr_right)
                   * (Z.shiftl 1 op - 1))
  end.

(** [hashCellPorts]. *)
Definition hashCellPorts (ops : LibertyOps) (cell : LibertyCell) : Z :=
  fold_left
    (fun hash port =>
       let hash1 := wrap32 (hash + hashPort ops (liberty_port_id port)) in
       let hash2 := wrap32 (hash1 + hashFuncExpr ops (liberty_port_function port) * 3) in
       wrap32 (hash2 + hashFuncExpr ops (liberty_port_tristateEnable port) * 5))
    (cell_ports cell) 0.

(** [hashCellSequentials]. *)
Definition hashCellSequentials (ops : LibertyOps) (cell : LibertyCell) : Z :=
  fold_left
    (fun hash seq =>
       let hash1 := wrap32 (hash + hashFuncExpr ops (seq_clock seq) * 3) in
       let hash2 := wrap32 (hash1 + hashFuncExpr ops (seq_data seq) * 5) in
       let hash3 := wrap32 (hash2 + hashPort ops (liberty_port_id (seq_output seq)) * 7) in
       let hash4 := wrap32 (hash3 + hashPort ops (liberty_port_id (seq_outputInv seq)) * 9) in
       let hash5 := wrap32 (hash4 + hashFuncExpr ops (seq_clear seq) * 11) in
       let hash6 := wrap32 (hash5 + hashFuncExpr ops (seq_preset seq) * 13) in
       let hash7 := wrap32 (hash6 + seq_clearPresetOutput seq * 17) in
       wrap32 (hash7 + seq_clearPresetOutputInv seq * 19))
    (cell_sequentials cell) 0.

(** [hashCell]. *)
Definition hashCell (ops : LibertyOps) (cell : LibertyCell) : Z :=
  wrap32 (hashCellPorts ops cell + hashCellSequentials ops cell).

(** [equivCellPortsAndFuncs]. *)
Definition equivCellPortsAndFuncs (ops : LibertyOps) (cell1 cell2 : LibertyCell) : bool :=
  if negb (bool_decide (length (cell_ports cell1) = length (cell_ports cell2)))
  then false
  else
    forallb
      (fun port1 =>
         let name := port_name (liberty_port_id port1) in
         match findLibertyPort ops cell2 name with
         | Some port2 =>
             LibertyPort_equiv ops port1 port2
             && FuncExpr_equiv ops (liberty_port_function port1) (liberty_port_function port2)
             && FuncExpr_equiv ops (liberty_port_tristateEnable port1)
                               (liberty_port_tristateEnable port2)
         | None => false
         end)
      (cell_ports cell1).

(** [equivCellPorts]. *)
Definition equivCellPorts (ops : LibertyOps) (cell1 cell2 : LibertyCell) : bool :=
  if negb (bool_decide (length (cell_ports cell1) = length (cell_ports cell2)))
  then false
  else
    forallb
      (fun port1 =>
         let name := port_name (liberty_port_id port1) in
         match findLibertyPort ops cell2 name with
         | Some port2 => LibertyPort_equiv ops port1 port2
         | None => false
         end)
      (cell_ports cell1).

(** The test of [equivCellSequentials] on one pair of sequentials. *)
Definition equivSequentials (ops : LibertyOps) (seq1 seq2 : Sequential) : bool :=
  FuncExpr_equiv ops (seq_clock seq1) (seq_clock seq2)
  && FuncExpr_equiv ops (seq_data seq1) (seq_data seq2)
  && LibertyPort_equiv ops (seq_output seq1) (seq_output seq2)
  && LibertyPort_equiv ops (seq_outputInv seq1) (seq_outputInv seq2)
  && FuncExpr_equiv ops (seq_clear seq1) (seq_clear seq2)
  && FuncExpr_equiv ops (seq_preset seq1) (seq_preset seq2).

(** [equivCellSequentials]: the two iterators advance together. *)
Fixpoint equivCellSequentials_loop (ops : LibertyOps) (seqs1 seqs2 : list Sequential)
  : bool :=
  match seqs1, seqs2 with
  | seq1 :: rest1, seq2 :: rest2 =>
      if negb (equivSequentials ops seq1 seq2)
      then false
      else equivCellSequentials_loop ops rest1 rest2
  | [], [] => true
  | _, _ => false
  end.

Definition equivCellSequentials (ops : LibertyOps) (cell1 cell2 : LibertyCell) : bool :=
  equivCellSequentials_loop ops (cell_sequentials cell1) (cell_sequentials cell2).

(** [equivCellTimingArcSets]. *)
Definition equivCellTimingArcSets (ops : LibertyOps) (cell1 cell2 : LibertyCell) : bool :=
  if negb (bool_decide (length (cell_timingArcSets cell1)
                        = length (cell_timingArcSets cell2)))
  then false
  else
    forallb
      (fun set1 =>
         match findTimingArcSet ops cell2 set1 with
         | Some set2 => TimingArcSet_equiv ops set1 set2
         | None => false
         end)
      (cell_timingArcSets cell1).

(** [equivCells]. *)
Definition equivCells (ops : LibertyOps) (cell1 cell2 : LibertyCell) : bool :=
  equivCellPortsAndFuncs ops cell1 cell2
  && equivCellSequentials ops cell1 cell2
  && equivCellTimingArcSets ops cell1 cell2.

(** [cellDriveResistance]: the worst "drive" for all the timing arcs in
    the cell. *)
Definition cellDriveResistance (cell : LibertyCell) : Z :=
  fold_left
    (fun max_drive set =>
       if negb (arc_set_isTimingCheck set)
       then
         fold_left
           (fun max_drive arc =>
              match arc_gate_driveResistance arc with
              | Some drive => if Z.ltb max_drive drive then drive else max_drive
              | None => max_drive
              end)
           (arc_set_arcs set) max_drive
       else max_drive)
    (cell_timingArcSets cell) 0.

(** The links between cells that [findEquivCells] sets: a
    [LibertyCellSeq] made for a class is addressed by the cell it was made
    for; [equiv_cells] is the pointer of a cell to the sequence of its
    class ([equivCellsRaw]). *)
Record CellLinks := mkCellLinks {
  equiv_seqs : gmap nat (list LibertyCell);
  equiv_cells : gmap nat nat;
  higher_drive : gmap nat nat;
  lower_drive : gmap nat nat
}.

Definition CellLinks_init : CellLinks :=
  {| equiv_seqs := ∅; equiv_cells := ∅; higher_drive := ∅; lower_drive := ∅ |}.

(** The body of the inner loop of [findEquivCells1] for a match that is
    equivalent to [cell]: the class of the match, made now when the match
    has none, takes the cell. *)
Definition findEquivCells1_join (match_ cell : LibertyCell) (links : CellLinks)
  (cell_equivs : gset nat) : CellLinks * gset nat :=
  let '(seq_addr, seqs, equivs_of, cell_equivs) :=
    match equiv_cells links !! cell_id match_ with
    | Some addr => (addr, equiv_seqs links, equiv_cells links, cell_equivs)
    | None =>
        (cell_id match_,
         <[cell_id match_ := [match_]]> (equiv_seqs links),
         <[cell_id match_ := cell_id match_]> (equiv_cells links),
         {[cell_id match_]} ∪ cell_equivs)
    end in
  ({| equiv_seqs := <[seq_addr := default [] (seqs !! seq_addr) ++ [cell]]> seqs;
      equiv_cells := <[cell_id cell := seq_addr]> equivs_of;
      higher_drive := higher_drive links;
      lower_drive := lower_drive links |},
   cell_equivs).

(** The inner loop of [findEquivCells1] over the cells of the hash bucket:
    the first match that is equivalent to [cell] takes it into its
    class. *)
Fixpoint findEquivCells1_match (ops : LibertyOps) (matches : list LibertyCell)
  (cell : LibertyCell) (links : CellLinks) (cell_equivs : gset nat)
  : CellLinks * gset nat :=
  match matches with
  | [] => (links, cell_equivs)
  | match_ :: rest =>
      if equivCells ops match_ cell
      then findEquivCells1_join match_ cell links cell_equivs
      else findEquivCells1_match ops rest cell links cell_equivs
  end.

(** [findEquivCells1]: the state is the hash map of the buckets, the links
    and the set of the cells that a class was made for. *)
Definition findEquivCells1_cell (ops : LibertyOps)
  (state : gmap Z (list LibertyCell) * CellLinks * gset nat) (cell : LibertyCell)
  : gmap Z (list LibertyCell) * CellLinks * gset nat :=
  let '(cell_hash, links, cell_equivs) := state in
  if negb (cell_dontUse cell)
  then
    let hash := hashCell ops cell in
    (* Use a comprehensive hash on cell properties to segregate cells into
       groups of potential matches. *)
    match cell_hash !! hash with
    | Some matches =>
        let '(links', cell_equivs') :=
          findEquivCells1_match ops matches cell links cell_equivs in
        (<[hash := matches ++ [cell]]> cell_hash, links', cell_equivs')
    | None => (<[hash := [cell]]> cell_hash, links, cell_equivs)
    end
  else state.

Definition findEquivCells1 (ops : LibertyOps) (library : list LibertyCell)
  : gmap Z (list LibertyCell) * CellLinks * gset nat :=
  fold_left (findEquivCells1_cell ops) library (∅, CellLinks_init, ∅).

(** The loop of [sortCellEquivs] over the cells of a sorted class:
    [lower] is the cell before [cell]. *)
Fixpoint sortCellEquivs_loop (equivs : list LibertyCell) (lower : option LibertyCell)
  (links : CellLinks) : CellLinks :=
  match equivs with
  | [] => links
  | cell :: rest =>
      let links :=
        match lower with
        | Some lower =>
            {| equiv_seqs := equiv_seqs links;
               equiv_cells := equiv_cells links;
               higher_drive := <[cell_id lower := cell_id cell]> (higher_drive links);
               lower_drive := <[cell_id cell := cell_id lower]> (lower_drive links) |}
        | None => links
        end in
      sortCellEquivs_loop rest (Some cell) links
  end.

(** The body of the loop of [sortCellEquivs] for the class sequence
    [equivs] at [addr]: the sequence is sorted in place, with the [sort]
    of the caller's library under [CellDriveResistanceLess], and its cells
    are linked. *)
Definition sortCellEquivs_class (sort : list LibertyCell -> list LibertyCell)
  (addr : nat) (equivs : list LibertyCell) (links : CellLinks) : CellLinks :=
  let sorted := sort equivs in
  sortCellEquivs_loop sorted None
    {| equiv_seqs := <[addr := sorted]> (equiv_seqs links);
       equiv_cells := equiv_cells links;
       higher_drive := higher_drive links;
       lower_drive := lower_drive links |}.

(** [CellDriveResistanceLess]. *)
Definition CellDriveResistanceLess (cell1 cell2 : LibertyCell) : bool :=
  Z.ltb (cellDriveResistance cell2) (cellDriveResistance cell1).

(** The cells of [cells] that [findEquivCells1] puts into the bucket of
    [hash], in order. *)
Definition hash_bucket (ops : LibertyOps) (cells : list LibertyCell) (hash : Z)
  : list LibertyCell :=
  List.filter (fun cell => negb (cell_dontUse cell) && bool_decide (hashCell ops cell = hash))
              cells.

(** The state of [findEquivCells1] after the cells [done]: the buckets hold
    the cells by hash; a class sequence starts with the cell it was made
    for, has a second member, and its members point back to it; a cell
    with an equivalent cell before it in its bucket is in the class of the
    first such cell. *)
Record findEquivCells1_inv (ops : LibertyOps) (done : list LibertyCell)
  (cell_hash : gmap Z (list LibertyCell)) (links : CellLinks) (cell_equivs : gset nat)
  : Prop := {
  inv_buckets : forall hash, default [] (cell_hash !! hash) = hash_bucket ops done hash;
  inv_seq_members : forall addr seq member,
    equiv_seqs links !! addr = Some seq -> member ∈ seq ->
    member ∈ done /\ cell_dontUse member = false
    /\ equiv_cells links !! cell_id member = Some addr;
  inv_seq_shape : forall addr seq,
    equiv_seqs links !! addr = Some seq ->
    exists rep rest,
      seq = rep :: rest /\ cell_id rep = addr /\ rest <> []
      /\ forall member, member ∈ rest ->
            equivCells ops rep member = true /\ hashCell ops rep = hashCell ops member;
  inv_pointer : forall cell addr,
    cell ∈ done -> equiv_cells links !! cell_id cell = Some addr ->
    exists seq, equiv_seqs links !! addr = Some seq /\ cell ∈ seq;
  inv_pointer_done : forall id addr,
    equiv_cells links !! id = Some addr -> exists cell, cell ∈ done /\ cell_id cell = id;
  inv_first_match : forall before cell after match_,
    done = before ++ cell :: after -> cell_dontUse cell = false ->
    List.find (fun match_ => equivCells ops match_ cell)
              (hash_bucket ops before (hashCell ops cell)) = Some match_ ->
    is_Some (equiv_cells links !! cell_id cell)
    /\ equiv_cells links !! cell_id cell = equiv_cells links !! cell_id match_;
  inv_cell_equivs : forall addr, addr ∈ cell_equivs <-> is_Some (equiv_seqs links !! addr)
}.

(** ** The command line (app/StaMain.cc) *)

(** The loop of [findCmdLineKey] over the argument indices; [argc] is the
    length of [argv]. *)
Fixpoint findCmdLineKey_loop (argv : list string) (key : string) (argis : list nat)
  : option string :=
  match argis with
  | [] => None
  | argi :: rest =>
      if bool_decide (argv !! argi = Some key)
         && bool_decide (argi + 1 < length argv)%nat
      then argv !! (argi + 1)%nat
      else findCmdLineKey_loop argv key rest
  end.

(** [findCmdLineKey]: [argi] runs from 1 below [argc]. *)
Definition findCmdLineKey (argv : list string) (key : string) : option string :=
  findCmdLineKey_loop argv key (seq 1 (length argv - 1)).

(** * Part II - a sample design

    A clock port [clk] (pin 0) drives the enable [en] (pin 1) of a latch
    with data pin [d] (pin 3, fed by the input port [in], pin 2) and output
    [q] (pin 4); [r] (pin 5) is the clock pin of a register that no clock
    reaches.  Every pin has one vertex with the same number. *)

Definition demo_delay_ops (tolerance : Z) : DelayOps :=
  {| fuzzyEqual := fun a b => Z.abs (a - b) <=? tolerance;
     fuzzyLess := fun a b => a + tolerance <? b;
     fuzzyGreater := fun a b => b + tolerance <? a;
     INF := 1000000;
     derate_unit := 1 |}.

Definition demo_arcs : list TimingArc :=
  [ {| arc_index := 0; arc_fromTrans := TR_rise; arc_toTrans := TR_rise |};
    {| arc_index := 1; arc_fromTrans := TR_fall; arc_toTrans := TR_fall |} ].

Definition demo_edge (id from to : nat) (role : TimingRole) : Edge :=
  {| edge_id := id; edge_from := from; edge_to := to; edge_role := role;
     edge_isDisabledLoop := false; edge_arcs := demo_arcs;
     edge_sense := timing_sense_positive_unate |}.

Definition edge_clk_en : Edge := demo_edge 0 0 1 role_wire.
Definition edge_in_d : Edge := demo_edge 1 2 3 role_wire.
Definition edge_d_q : Edge := demo_edge 2 3 4 role_latchDtoQ.
Definition edge_en_q : Edge := demo_edge 3 1 4 role_latchEnToQ.

Definition demo_graph : Graph :=
  {| vertices := [0; 1; 2; 3; 4; 5]%nat;
     vertex_pin := fun v => v;
     vertex_level := fun v => match v with
                              | 1 | 3 => 1 | 4 => 2 | _ => 0
                              end%nat;
     vertex_isRegClk := fun v => bool_decide (v = 1%nat) || bool_decide (v = 5%nat);
     vertex_isBidirectDriver := fun _ => false;
     vertex_isConstant := fun _ => false;
     vertex_hasChecks := fun _ => false;
     vertex_isConstrained := fun _ => false;
     hasFaninOne := fun v => bool_decide (v = 1%nat) || bool_decide (v = 3%nat);
     vertex_in_edges := fun v => match v with
                                 | 1 => [edge_clk_en]
                                 | 3 => [edge_in_d]
                                 | 4 => [edge_d_q; edge_en_q]
                                 | _ => []
                                 end%nat;
     vertex_out_edges := fun v => match v with
                                  | 0 => [edge_clk_en]
                                  | 1 => [edge_en_q]
                                  | 2 => [edge_in_d]
                                  | 3 => [edge_d_q]
                                  | _ => []
                                  end%nat;
     pinVertices := fun pin => (pin, None);
     pinLoadVertex := fun pin => pin;
     pinDrvrVertex := fun pin => pin;
     arcDelay := fun edge _ _ => match edge_id edge with
                                 | 0%nat => 1 | 1%nat => 2 | 2%nat => 3 | _ => 4
                                 end |}.

(** [set_input_delay -reference_pin r ... r]: an input delay on [r] that
    names [r] itself as its reference pin. *)
Definition demo_input_delay : InputDelay :=
  {| input_delay_index := 0; input_delay_pin := 5%nat;
     input_delay_clkEdge := None; input_delay_clock := None;
     input_delay_refPin := Some 5%nat; input_delay_refTransition := TR_rise;
     input_delay_sourceLatencyIncluded := false;
     input_delay_networkLatencyIncluded := false |}.

(** One clock, number 0, on [clk], with period 10; no exceptions, no
    latencies, unit derating.  [reference_pin] adds [demo_input_delay]. *)
Definition demo_sdc (reference_pin : bool) : Sdc :=
  let delays := fun pin : Pin =>
    if reference_pin && bool_decide (pin = 5%nat) then [demo_input_delay] else [] in
  {| isVertexPinClock := fun pin => bool_decide (pin = 0%nat);
     isPathDelayInternalEndpoint := fun _ => false;
     isPathDelayInternalStartpoint := fun _ => false;
     isInputDelayInternal := fun pin => reference_pin && bool_decide (pin = 5%nat);
     hasInputDelay := fun pin => reference_pin && bool_decide (pin = 5%nat);
     inputDelayVertexIterator := delays;
     inputDelayValue := fun _ _ _ => Some 2;
     refPinInputDelays := delays;
     useDefaultArrivalClock := false;
     defaultArrivalClock := None;
     defaultArrivalClockEdge := None;
     crprActive := false;
     dynamicLoopBreaking := false;
     clkStopPropagation := fun _ _ _ _ _ => false;
     clkStopPropagationPin := fun _ _ => false;
     clkThruTristateEnabled := false;
     clkDisabledByHpinThru := fun _ _ _ => false;
     isPropagatedClock := fun _ => false;
     isClock := fun pin => bool_decide (pin = 0%nat);
     findVertexPinClocks := fun pin => if bool_decide (pin = 0%nat) then Some [0%nat] else None;
     clock_vertex_pins := [0%nat];
     clock_edge := fun clk tr =>
       {| clock_edge_clock := clk; clock_edge_transition := tr;
          clock_edge_time := match tr with TR_rise => 0 | TR_fall => 5 end |};
     clock_isGenerated := fun clk => bool_decide (clk = 1%nat);
     clock_masterClk := fun clk => if bool_decide (clk = 1%nat) then Some 0%nat else None;
     clock_isPropagated := fun _ => false;
     clock_isGeneratedWithPropagatedMaster := fun _ => false;
     clock_combinational := fun _ => false;
     clock_uncertainties := fun _ => None;
     clock_defaultPin := fun _ => None;
     clockLatencyPin := fun _ _ _ _ => None;
     clockLatencyEdge := fun _ _ _ => None;
     clockLatencyClk := fun _ _ _ => None;
     clockInsertionPin := fun _ _ _ _ _ => None;
     clockInsertionClk := fun _ _ _ _ => 0;
     clockUncertainties := fun _ => None;
     exceptionThruStates := fun _ _ _ _ => None;
     exceptionThruMatches := fun _ _ _ _ _ => false;
     exceptionFromStates := fun _ _ _ _ _ => Some None;
     exceptionFromClkStates := fun _ _ _ _ _ => None;
     filterRegQStates := fun _ _ _ states => states;
     dataChecksFrom := fun _ => [];
     gatedClkChecksEnabled := false;
     timingDerateNet := fun _ _ _ _ => 1;
     timingDerateInstance := fun _ _ _ _ _ => 1 |}.

Definition demo_network : Network :=
  {| isTopLevelPort := fun pin => bool_decide (pin = 0%nat) || bool_decide (pin = 2%nat);
     isLatchData := fun pin => bool_decide (pin = 3%nat);
     isRegClkPin := fun pin => bool_decide (pin = 1%nat) || bool_decide (pin = 5%nat);
     isLoad := fun pin => bool_decide (pin = 1%nat) || bool_decide (pin = 3%nat)
                          || bool_decide (pin = 5%nat);
     isCheckClk := fun _ => false;
     direction_isInternal := fun _ => false;
     direction_isInput := fun pin => bool_decide (pin = 0%nat) || bool_decide (pin = 2%nat);
     direction_isBidirect := fun _ => false;
     libertyPortPulseClkSense := fun _ => None;
     top_input_pins := [0; 2]%nat |}.

(** Two path analysis points: 0 is the min corner and 1 the max corner. *)
Definition demo_corners : Corners :=
  {| path_aps := [0; 1]%nat;
     pathMinMax := fun ap => match ap with 0%nat => MinMax_min | _ => MinMax_max end;
     dcalcAnalysisPt_index := fun ap => ap |}.

(** Tags match when they agree on everything but the latencies of their
    clock; the CRPR clock path counts when asked for. *)
Definition demo_tag_key (t : Tag)
  : TransRiseFall * PathAPIndex * option ClockEdge * bool * option nat * bool * bool :=
  (tr_index t, path_ap_index t, clk_edge (clk_info t), is_clk t, input_delay t,
   is_segment_start t, is_gen_clk_src_path (clk_info t)).

Definition demo_tagMatch (t1 t2 : Tag) (match_crpr_clk_pin : bool) : bool :=
  bool_decide (demo_tag_key t1 = demo_tag_key t2)
  && (negb match_crpr_clk_pin
      || bool_decide (crpr_clk_path (clk_info t1) = crpr_clk_path (clk_info t2))).

Definition demo_tag_ops : TagOps :=
  {| tagMatch := demo_tagMatch;
     tagMatchNoCrpr := fun t1 t2 => demo_tagMatch t1 t2 false;
     genClkSrcPathClk := fun t =>
       if is_gen_clk_src_path (clk_info t) then Some 1%nat else None |}.

(** Clock 1 is a generated clock whose source paths run through the
    latch. *)
Definition demo_genclks : Genclks :=
  {| genclks_fanins := fun clk => if bool_decide (clk = 1%nat) then [3; 4]%nat else [];
     genclks_latchFdbkEdges := fun _ => None;
     genclks_insertionDelay := fun _ _ _ _ _ => 0;
     copyGenClkSrcPaths := fun _ tag_bldr => tag_bldr |}.

Definition demo_levelize : Levelize :=
  {| maxLevel := 2;
     roots := [0; 2; 5]%nat;
     isRoot := fun v => bool_decide (v ∈ [0; 2; 5]%nat) |}.

Definition demo_search_pred0 : SearchPred0 :=
  {| SearchPred0_searchFrom := fun _ => true;
     SearchPred0_searchThru := fun _ => true;
     SearchPred0_searchTo := fun _ => true;
     searchThruArc := fun _ _ _ _ _ => true |}.

(** A transparent latch: the data arrival passes to the output. *)
Definition demo_latches : Latches :=
  {| latchDtoQState := fun _ => latch_state_enabled;
     isLatchDtoQ := fun edge => bool_decide (edge_role edge = role_latchDtoQ);
     latchOutArrival := fun _ from_path _ _ _ arc_delay p =>
       Ok (Some (path_tag from_path), arc_delay, path_arrival from_path + arc_delay, p) |}.

(** [TagGroupBldr::init] empties the builder. *)
Definition demo_bldr_ops : BldrOps :=
  {| TagGroupBldr_init := fun match_crpr_clk_pin _ _ _ => TagGroupBldr_new match_crpr_clk_pin |}.

Definition demo_path_ends : PathEnds :=
  {| checkEdgeEnabled := fun _ => true;
     isGatedClkEnable := fun _ => false;
     gatedClkEnables := fun _ => [];
     hasFanin_search_adj := fun v => bool_decide (v ∈ [1; 3; 4]%nat);
     hasFanout_search_adj := fun v => bool_decide (v ∈ [0; 1; 2; 3]%nat);
     wnsSlacks := fun _ _ _ => (0, 0) |}.

Definition demo_sta (tolerance : Z) (reference_pin : bool) : StaState :=
  {| delay_ops := demo_delay_ops tolerance;
     sdc_ := demo_sdc reference_pin;
     network_ := demo_network;
     graph_ := demo_graph;
     corners_ := demo_corners;
     tag_ops := demo_tag_ops;
     genclks_ := demo_genclks;
     crpr_ := {| maxCrpr := fun _ => 0 |};
     levelize_ := demo_levelize;
     search_pred0 := demo_search_pred0;
     limits := {| tag_index_max := 1000; tag_group_index_max := 1000 |};
     latches_ := demo_latches;
     bldr_ops := demo_bldr_ops;
     path_ends := demo_path_ends |}.

Definition demo_visitor : ArrivalVisitor :=
  {| always_to_endpoints_ := false; pred_ := eval_pred_; crpr_active_ := false;
     has_fanin_one_ := false; tag_bldr_ := TagGroupBldr_new true;
     tag_bldr_no_crpr_ := TagGroupBldr_new false |}.

(** ** Sample inputs on the design *)

(** The sample design with exact comparisons, and with a tolerance of 1. *)
Definition demo : StaState := demo_sta 0 false.
Definition demo_fuzzy : StaState := demo_sta 1 false.

Definition demo_clk_info : ClkInfo :=
  {| clk_info_addr := 0; clk_edge := None; clk_src := None; is_propagated := false;
     gen_clk_src := None; is_gen_clk_src_path := false; pulse_clk_sense := None;
     insertion := 0; latency := 0; uncertainties := None; clk_info_path_ap_index := 1;
     crpr_clk_path := None |}.

(** A data tag of the max corner. *)
Definition demo_tag : Tag :=
  {| tag_index := 0; tr_index := TR_rise; path_ap_index := 1; clk_info := demo_clk_info;
     is_clk := false; input_delay := None; is_segment_start := false; states := None |}.

Definition demo_from_path (arrival : Arrival) : PathVertex :=
  {| path_vertex := 3; path_tag := demo_tag; path_arrival_index := 0;
     path_arrival := arrival |}.

(** Two fanin paths reach the same tag with arrivals 10 and 11. *)
Definition demo_candidates : list Candidate :=
  [ mkCandidate (demo_from_path 7) demo_tag 10 MinMax_max;
    mkCandidate (demo_from_path 8) demo_tag 11 MinMax_max ].




(** The rise-to-rise arc of the latch. *)
Definition demo_arc : TimingArc :=
  {| arc_index := 0; arc_fromTrans := TR_rise; arc_toTrans := TR_rise |}.

Definition demo_min_tag (gen_clk_src_path : bool) : Tag :=
  {| tag_index := 0; tr_index := TR_rise; path_ap_index := 0;
     clk_info := {| clk_info_addr := 0; clk_edge := Some (clock_edge (sdc_ demo) 0%nat TR_rise);
                    clk_src := Some 0%nat; is_propagated := false;
                    gen_clk_src := None; is_gen_clk_src_path := gen_clk_src_path;
                    pulse_clk_sense := None; insertion := 0; latency := 0;
                    uncertainties := None; clk_info_path_ap_index := 0;
                    crpr_clk_path := None |};
     is_clk := gen_clk_src_path; input_delay := None; is_segment_start := false;
     states := None |}.

Definition demo_d_path (gen_clk_src_path : bool) : PathVertex :=
  {| path_vertex := 3; path_tag := demo_min_tag gen_clk_src_path;
     path_arrival_index := 0; path_arrival := 2 |}.


(** Endpoint slacks (min, max) of the latch output and of [r]. *)
Definition demo_slacks (vertex : Vertex) : Slack * Slack :=
  match vertex with
  | 4%nat => (-3, -5)
  | 5%nat => (2, -1)
  | _ => (0, 0)
  end.

(** Endpoint slacks of -1.0 and of the float nearest to -0.3, in units of
    2^-25. *)
Definition demo_float_slacks (vertex : Vertex) : Slack * Slack :=
  match vertex with
  | 4%nat => (-33554432, 0)
  | 5%nat => (-10066330, 0)
  | _ => (0, 0)
  end.

(** ** Further sample inputs *)

(** The constraints of the sample design with exceptions: an edge matches
    the -thru points that [thru_matches] names, and the states of
    [from_states] start at the input port [in]. *)
Definition demo_sdc_exceptions (thru_matches : nat -> bool)
  (from_states : option (list ExceptionState)) : Sdc :=
  let sdc := demo_sdc false in
  {| isVertexPinClock := isVertexPinClock sdc;
     isPathDelayInternalEndpoint := isPathDelayInternalEndpoint sdc;
     isPathDelayInternalStartpoint := isPathDelayInternalStartpoint sdc;
     isInputDelayInternal := isInputDelayInternal sdc;
     hasInputDelay := hasInputDelay sdc;
     inputDelayVertexIterator := inputDelayVertexIterator sdc;
     inputDelayValue := inputDelayValue sdc;
     refPinInputDelays := refPinInputDelays sdc;
     useDefaultArrivalClock := useDefaultArrivalClock sdc;
     defaultArrivalClock := defaultArrivalClock sdc;
     defaultArrivalClockEdge := defaultArrivalClockEdge sdc;
     crprActive := crprActive sdc;
     dynamicLoopBreaking := dynamicLoopBreaking sdc;
     clkStopPropagation := clkStopPropagation sdc;
     clkStopPropagationPin := clkStopPropagationPin sdc;
     clkThruTristateEnabled := clkThruTristateEnabled sdc;
     clkDisabledByHpinThru := clkDisabledByHpinThru sdc;
     isPropagatedClock := isPropagatedClock sdc;
     isClock := isClock sdc;
     findVertexPinClocks := findVertexPinClocks sdc;
     clock_vertex_pins := clock_vertex_pins sdc;
     clock_edge := clock_edge sdc;
     clock_isGenerated := clock_isGenerated sdc;
     clock_masterClk := clock_masterClk sdc;
     clock_isPropagated := clock_isPropagated sdc;
     clock_isGeneratedWithPropagatedMaster := clock_isGeneratedWithPropagatedMaster sdc;
     clock_combinational := clock_combinational sdc;
     clock_uncertainties := clock_uncertainties sdc;
     clock_defaultPin := clock_defaultPin sdc;
     clockLatencyPin := clockLatencyPin sdc;
     clockLatencyEdge := clockLatencyEdge sdc;
     clockLatencyClk := clockLatencyClk sdc;
     clockInsertionPin := clockInsertionPin sdc;
     clockInsertionClk := clockInsertionClk sdc;
     clockUncertainties := clockUncertainties sdc;
     exceptionThruStates := exceptionThruStates sdc;
     exceptionThruMatches := fun thru _ _ _ _ => thru_matches thru;
     exceptionFromStates := fun pin _ _ _ _ =>
       if bool_decide (pin = 2%nat) then Some from_states else Some None;
     exceptionFromClkStates := exceptionFromClkStates sdc;
     filterRegQStates := filterRegQStates sdc;
     dataChecksFrom := dataChecksFrom sdc;
     gatedClkChecksEnabled := gatedClkChecksEnabled sdc;
     timingDerateNet := timingDerateNet sdc;
     timingDerateInstance := timingDerateInstance sdc |}.

Definition demo_sta_sdc (sdc : Sdc) : StaState :=
  {| delay_ops := delay_ops demo;
     sdc_ := sdc;
     network_ := network_ demo;
     graph_ := graph_ demo;
     corners_ := corners_ demo;
     tag_ops := tag_ops demo;
     genclks_ := genclks_ demo;
     crpr_ := crpr_ demo;
     levelize_ := levelize_ demo;
     search_pred0 := search_pred0 demo;
     limits := limits demo;
     latches_ := latches_ demo;
     bldr_ops := bldr_ops demo;
     path_ends := path_ends demo |}.







(** The sample design where every edge matches the -thru point 7. *)
Definition demo_thru : StaState :=
  demo_sta_sdc (demo_sdc_exceptions (fun thru => bool_decide (thru = 7%nat)) None).

(** A loop exception with one -thru, not yet passed. *)
Definition demo_loop_path : ExceptionPath :=
  {| exception_id := 1; exception_type := exception_loop; exception_thrus := [7%nat] |}.

Definition demo_loop_state : ExceptionState :=
  {| exception := demo_loop_path; next_thru_index := 0 |}.

Definition demo_loop_tag : Tag :=
  {| tag_index := 0; tr_index := TR_rise; path_ap_index := 1; clk_info := demo_clk_info;
     is_clk := false; input_delay := None; is_segment_start := false;
     states := Some [demo_loop_state] |}.

(** A data tag of the max corner that carries an input delay. *)
Definition demo_input_tag : Tag :=
  {| tag_index := 0; tr_index := TR_rise; path_ap_index := 1; clk_info := demo_clk_info;
     is_clk := false; input_delay := Some 0%nat; is_segment_start := false;
     states := None |}.

(** The state of the search after the arrival pass over the sample
    design. *)
Definition demo_arrivals (sta : StaState) : Search :=
  match Search_findArrivals sta 100 2 demo_visitor Search_init with
  | Some (Ok (_, st)) => st
  | _ => Search_init
  end.

(** A filter exception from the input port [in]. *)
Definition demo_filter_path : ExceptionPath :=
  {| exception_id := 2; exception_type := exception_filter; exception_thrus := [] |}.

Definition demo_filter_state : ExceptionState :=
  {| exception := demo_filter_path; next_thru_index := 0 |}.

Definition demo_filter_from : ExceptionFrom :=
  {| from_pins := Some [2%nat]; from_instances := None; from_clks := None;
     from_transition_matches := fun _ => true |}.

Definition demo_filter : SearchFilter :=
  {| filter_ := Some {| filter_exception := demo_filter_path;
                        filter_path_from := Some demo_filter_from;
                        filter_path_thrus := None |};
     filter_from_ := None;
     filter_to_ := None |}.

(** The sample design with the filter exception. *)
Definition demo_filtered : StaState :=
  demo_sta_sdc (demo_sdc_exceptions (fun _ => false) (Some [demo_filter_state])).


(** Required times of two arrivals, and what the fanout offers. *)
Definition demo_required_cmp : RequiredCmp :=
  {| requireds_ := [100; 100]; have_requireds_ := false |}.

Definition demo_requireds : list (nat * Required) :=
  [(0%nat, 50); (1%nat, 70); (0%nat, 49); (0%nat, 40)].

(** ** A sample library

    Three inverters of growing drive (the last one lists its ports in the
    other order), a buffer and an inverter that is not to be used.  Ports
    are equivalent when name and direction agree, function expressions
    when they are equal, timing arc sets when both or none are timing
    checks. *)

Definition demo_liberty_ops : LibertyOps :=
  {| char_value := fun c => Z.of_N (Ascii.N_of_ascii c);
     op_port := 0;
     op_not := 1;
     LibertyPort_equiv := fun port1 port2 =>
       bool_decide (liberty_port_id port1 = liberty_port_id port2);
     FuncExpr_equiv := fun expr1 expr2 => bool_decide (expr1 = expr2);
     TimingArcSet_equiv := fun set1 set2 =>
       eqb (arc_set_isTimingCheck set1) (arc_set_isTimingCheck set2);
     findLibertyPort := fun cell name =>
       List.find (fun port => bool_decide (port_name (liberty_port_id port) = name))
                 (cell_ports cell);
     findTimingArcSet := fun cell set =>
       List.find (fun set2 => bool_decide (arc_set_index set2 = arc_set_index set))
                 (cell_timingArcSets cell) |}.

Definition demo_port_A : PortId := {| port_name := "A"; port_direction_index := 0 |}.
Definition demo_port_Y : PortId := {| port_name := "Y"; port_direction_index := 1 |}.

Definition demo_expr_A : FuncExpr := expr_node 0 demo_port_A expr_null expr_null.
Definition demo_expr_not_A : FuncExpr := expr_node 1 demo_port_A demo_expr_A expr_null.

Definition demo_input_A : LibertyPort :=
  {| liberty_port_id := demo_port_A; liberty_port_function := expr_null;
     liberty_port_tristateEnable := expr_null |}.

Definition demo_output_Y (function : FuncExpr) : LibertyPort :=
  {| liberty_port_id := demo_port_Y; liberty_port_function := function;
     liberty_port_tristateEnable := expr_null |}.

Definition demo_arc_set (drive : Z) : LibertyArcSet :=
  {| arc_set_index := 0; arc_set_isTimingCheck := false;
     arc_set_arcs := [ {| arc_gate_driveResistance := Some drive |};
                       {| arc_gate_driveResistance := None |} ] |}.

Definition demo_cell (id : nat) (dont_use : bool) (ports : list LibertyPort) (drive : Z)
  : LibertyCell :=
  {| cell_id := id; cell_dontUse := dont_use; cell_ports := ports;
     cell_sequentials := []; cell_timingArcSets := [demo_arc_set drive] |}.

Definition demo_inv_x1 : LibertyCell :=
  demo_cell 1 false [demo_input_A; demo_output_Y demo_expr_not_A] 8.
Definition demo_buf_x1 : LibertyCell :=
  demo_cell 2 false [demo_input_A; demo_output_Y demo_expr_A] 8.
Definition demo_inv_x2 : LibertyCell :=
  demo_cell 3 false [demo_input_A; demo_output_Y demo_expr_not_A] 4.
Definition demo_inv_unused : LibertyCell :=
  demo_cell 4 true [demo_input_A; demo_output_Y demo_expr_not_A] 4.
Definition demo_inv_x4 : LibertyCell :=
  demo_cell 5 false [demo_output_Y demo_expr_not_A; demo_input_A] 2.

Definition demo_library : list LibertyCell :=
  [demo_inv_x1; demo_buf_x1; demo_inv_x2; demo_inv_unused; demo_inv_x4].

(** A sort under [CellDriveResistanceLess], by insertion. *)
Fixpoint demo_sort_insert (cell : LibertyCell) (sorted : list LibertyCell)
  : list LibertyCell :=
  match sorted with
  | [] => [cell]
  | other :: rest =>
      if CellDriveResistanceLess other cell
      then other :: demo_sort_insert cell rest
      else cell :: sorted
  end.

Definition demo_sort (cells : list LibertyCell) : list LibertyCell :=
  foldr demo_sort_insert [] cells.

(** * Part III: the theorems *)

(** A bind that returns has run both of its halves. *)
Lemma Result_bind_Ok {A B} (m : Result A) (k : A -> Result B) (b : B) :
  m ≫= k = Ok b -> exists a, m = Ok a /\ k a = Ok b.
Proof. destruct m as [a|msg]; simpl; [eauto|discriminate]. Qed.

(** ** Merging arrivals: [ArrivalVisitor::visitFromToPath] *)

Lemma ArrivalMap_findKey_Some ops crpr tag m tm idx :
  ArrivalMap_findKey ops crpr tag m = Some (tm, idx) ->
  (tm, idx) ∈ m /\ tagMatch ops tm tag crpr = true.
Proof.
  unfold ArrivalMap_findKey. intros H. apply find_some in H as [Hin Hm].
  split; [by apply list_elem_of_In | exact Hm].
Qed.

Lemma ArrivalMap_findKey_None ops crpr tag m :
  ArrivalMap_findKey ops crpr tag m = None ->
  forall t i, (t, i) ∈ m -> tagMatch ops t tag crpr = false.
Proof.
  unfold ArrivalMap_findKey. intros H t i Hin.
  apply list_elem_of_In in Hin. exact (find_none _ _ H _ Hin).
Qed.

Lemma ArrivalMap_erase_elem ops crpr tag m t i :
  (t, i) ∈ ArrivalMap_erase ops crpr tag m <->
  (t, i) ∈ m /\ tagMatch ops t tag crpr = false.
Proof.
  unfold ArrivalMap_erase. rewrite !list_elem_of_In, filter_In. simpl.
  rewrite negb_true_iff. reflexivity.
Qed.

(** The builder after one call of [visitFromToPath]. *)
Lemma ArrivalVisitor_visitFromToPath_bldr sta from_path to_tag to_arrival min_max av :
  tag_bldr_ (snd (ArrivalVisitor_visitFromToPath sta from_path to_tag to_arrival min_max av)) =
  let tag_match := TagGroupBldr_tagMatchArrival (tag_ops sta) to_tag (tag_bldr_ av) in
  if arrival_update_needed (delay_ops sta) tag_match to_arrival min_max
  then TagGroupBldr_setMatchArrival (tag_ops sta) to_tag (tag_match_entry tag_match) to_arrival
         (if Tag_isClock to_tag || Tag_isGenClkSrcPath to_tag
          then PathVertexRep_init from_path else None)
         (tag_bldr_ av)
  else tag_bldr_ av.
Proof.
  unfold ArrivalVisitor_visitFromToPath. cbv zeta.
  destruct (arrival_update_needed _ _ _ _); reflexivity.
Qed.

Section ArrivalMerge.

Variable sta : StaState.
Variable crpr : bool.

Abbreviation ops := (tag_ops sta).
Abbreviation dly := (delay_ops sta).
Abbreviation bldr_step := (TagGroupBldr_merge sta).
Abbreviation step_effect := (merge_effect sta crpr).
Abbreviation drain_inv := (merge_inv sta crpr).

Hypothesis tagMatch_refl : forall t, tagMatch ops t t crpr = true.
Hypothesis tagMatch_sym : forall t1 t2,
  tagMatch ops t1 t2 crpr = true -> tagMatch ops t2 t1 crpr = true.
Hypothesis tagMatch_trans : forall t1 t2 t3,
  tagMatch ops t1 t2 crpr = true -> tagMatch ops t2 t3 crpr = true ->
  tagMatch ops t1 t3 crpr = true.
Hypothesis fuzzyGreater_irrefl : forall a mm, delayFuzzyGreater dly a a mm = false.
Hypothesis fuzzyGreater_trans : forall a b c mm,
  delayFuzzyGreater dly a b mm = true -> delayFuzzyGreater dly b c mm = true ->
  delayFuzzyGreater dly a c mm = true.

Lemma bldr_step_flag b c : match_crpr_clk_pin_ (bldr_step b c) = match_crpr_clk_pin_ b.
Proof.
  unfold TagGroupBldr_merge. cbv zeta.
  destruct (arrival_update_needed _ _ _ _); [|done].
  unfold TagGroupBldr_setMatchArrival.
  destruct (tag_match_entry _) as [[tm i]|]; reflexivity.
Qed.

Lemma bldr_step_effect b c :
  match_crpr_clk_pin_ b = crpr ->
  TagGroupBldr_wf ops b ->
  step_effect b (bldr_step b c) c.
Proof.
  intros Hflag [Hrange Huniq]. rewrite Hflag in Huniq.
  unfold TagGroupBldr_merge, TagGroupBldr_tagMatchArrival. cbv zeta. rewrite Hflag.
  destruct (ArrivalMap_findKey ops crpr (cand_to_tag c) (arrival_map_ b))
    as [[tm idx]|] eqn:Hfind; simpl.
  - apply ArrivalMap_findKey_Some in Hfind as [Hin Hm].
    pose proof (Hrange _ _ Hin) as Hlt.
    destruct (lookup_lt_is_Some_2 _ _ Hlt) as [arr Harr].
    unfold TagGroupBldr_arrival. rewrite Harr. simpl.
    destruct (delayFuzzyGreater dly (cand_to_arrival c) arr (cand_min_max c)) eqn:Hgt.
    + (* updated *)
      destruct (bool_decide (tag_index tm = tag_index (cand_to_tag c))) eqn:Hsame.
      * apply (step_update _ _ _ _ _ tm idx arr tm).
        -- split; done.
        -- done.
        -- done.
        -- by left.
        -- intros t i. unfold TagGroupBldr_setMatchArrival. simpl. rewrite ?Hsame.
           split.
           ++ intros Hti. destruct (decide ((t, i) = (tm, idx))); [by left|by right].
           ++ intros [Heq|[Hti _]]; [by rewrite Heq|done].
        -- reflexivity.
      * apply (step_update _ _ _ _ _ tm idx arr (cand_to_tag c)).
        -- split; done.
        -- done.
        -- done.
        -- by right.
        -- intros t i. unfold TagGroupBldr_setMatchArrival. simpl. rewrite ?Hsame, ?Hflag.
           rewrite elem_of_app, list_elem_of_singleton, ArrivalMap_erase_elem.
           split.
           ++ intros [[Hti Hnm]|Heq]; [right|by left].
              split; [done|]. intros Heq. inversion Heq; subst.
              rewrite tagMatch_refl in Hnm. done.
           ++ intros [Heq|[Hti Hne]]; [by right|left]. split; [done|].
              destruct (tagMatch ops t tm crpr) eqn:Htm; [|done].
              exfalso. apply Hne. eapply Huniq; eauto.
        -- reflexivity.
    + apply (step_keep _ _ _ _ _ tm idx arr); [done|split; done|done|done].
  - pose proof (ArrivalMap_findKey_None _ _ _ _ Hfind) as Hnone.
    apply step_insert; [exact Hnone| |]; reflexivity.
Qed.

Lemma step_effect_wf b b' c :
  match_crpr_clk_pin_ b = crpr ->
  match_crpr_clk_pin_ b' = crpr ->
  TagGroupBldr_wf ops b ->
  step_effect b b' c ->
  TagGroupBldr_wf ops b'.
Proof.
  intros Hflag Hflag' [Hrange Huniq] Heff. rewrite Hflag in Huniq.
  unfold TagGroupBldr_wf. rewrite Hflag'.
  destruct Heff as [Hnone Hmap Harr | tm idx arr t_new [Hin Hs] Hm Hgt Hnew Hmap Harr
                   | tm idx arr -> _ _ _].
  - rewrite Hmap, Harr. split.
    + intros t i. rewrite elem_of_app, list_elem_of_singleton, length_app. simpl.
      intros [Hti|Heq]; [pose proof (Hrange _ _ Hti); lia|].
      inversion Heq; lia.
    + intros t1 i1 t2 i2. rewrite !elem_of_app, !list_elem_of_singleton.
      intros [H1|H1] [H2|H2] Hor.
      * eauto.
      * inversion H2; subst. destruct Hor as [->|Hor].
        -- pose proof (Hrange _ _ H1). lia.
        -- rewrite (Hnone _ _ H1) in Hor. done.
      * inversion H1; subst. destruct Hor as [<-|Hor].
        -- pose proof (Hrange _ _ H2). lia.
        -- apply tagMatch_sym in Hor. rewrite (Hnone _ _ H2) in Hor. done.
      * congruence.
  - assert (Htmtm : tagMatch ops tm tm crpr = true) by eauto.
    assert (Hnewtm : tagMatch ops t_new tm crpr = true).
    { destruct Hnew as [->| ->]; eauto. }
    rewrite Harr. split.
    + intros t i. rewrite Hmap, length_insert.
      intros [Heq|[Hti _]]; [inversion Heq; subst; eauto|eauto].
    + intros t1 i1 t2 i2. rewrite !Hmap.
      intros [H1|[H1 Hne1]] [H2|[H2 Hne2]] Hor.
      * congruence.
      * inversion H1; subst. exfalso. apply Hne2. symmetry. eapply Huniq; eauto.
        destruct Hor as [->|Hor]; [by left|right]. eauto.
      * inversion H2; subst. exfalso. apply Hne1. eapply Huniq; eauto.
        destruct Hor as [->|Hor]; [by left|right]. eauto.
      * eauto.
  - split; done.
Qed.

Variable cands : list Candidate.

(** Candidates whose tags match belong to one path analysis point, hence
    to one min/max. *)
Hypothesis cands_min_max : forall c1 c2, c1 ∈ cands -> c2 ∈ cands ->
  tagMatch ops (cand_to_tag c1) (cand_to_tag c2) crpr = true ->
  cand_min_max c1 = cand_min_max c2.

Lemma drain_inv_init b0 :
  match_crpr_clk_pin_ b0 = crpr -> TagGroupBldr_wf ops b0 -> drain_inv b0 b0 [].
Proof.
  intros Hflag Hwf. split; [done|done|by right|].
  intros c Hc. by apply elem_of_nil in Hc.
Qed.

Lemma drain_inv_step b0 b done c :
  (forall c', c' ∈ done -> c' ∈ cands) -> c ∈ cands ->
  drain_inv b0 b done ->
  drain_inv b0 (bldr_step b c) (done ++ [c]).
Proof.
  intros Hsub Hc [Hflag Hwf Horigin Hcover].
  pose proof (bldr_step_effect b c Hflag Hwf) as Heff.
  pose proof (bldr_step_flag b c) as Hflag'. rewrite Hflag in Hflag'.
  pose proof (step_effect_wf _ _ _ Hflag Hflag' Hwf Heff) as Hwf'.
  destruct Hwf as [Hrange Huniq]. rewrite Hflag in Huniq.
  split; [done|done| |].
  - (* origin *)
    intros t i s [Hti Hs].
    destruct Heff as [Hnone Hmap Harr | tm idx arr t_new [Hin Hsa] Hm Hgt Hnew Hmap Harr
                     | tm idx arr Heq _ _ _].
    + rewrite Hmap, elem_of_app, list_elem_of_singleton in Hti. rewrite Harr in Hs.
      destruct Hti as [Hti|Heq].
      * pose proof (Hrange _ _ Hti). rewrite lookup_app_l in Hs by done.
        destruct (Horigin t i s) as [(c0 & Hc0 & ? & ?)|?]; [done| |by right].
        left. exists c0. rewrite elem_of_app. eauto.
      * inversion Heq; subst. rewrite lookup_app_r in Hs by lia.
        rewrite Nat.sub_diag in Hs. simpl in Hs. inversion Hs; subst.
        left. exists c. rewrite elem_of_app, list_elem_of_singleton. eauto.
    + rewrite Hmap in Hti. rewrite Harr in Hs.
      destruct Hti as [Heq|[Hti Hne]].
      * inversion Heq; subst. rewrite list_lookup_insert_eq in Hs by eauto.
        inversion Hs; subst.
        left. exists c. rewrite elem_of_app, list_elem_of_singleton.
        split; [by right|]. split; [|done]. destruct Hnew as [->| ->]; eauto.
      * assert (Hi : idx <> i).
        { intros ->. apply Hne. eapply Huniq; eauto. }
        rewrite list_lookup_insert_ne in Hs by done.
        destruct (Horigin t i s) as [(c0 & Hc0 & ? & ?)|?]; [done| |by right].
        left. exists c0. rewrite elem_of_app. eauto.
    + rewrite Heq in Hti, Hs.
      destruct (Horigin t i s) as [(c0 & Hc0 & ? & ?)|?]; [done| |by right].
      left. exists c0. rewrite elem_of_app. eauto.
  - (* cover *)
    intros c0. rewrite elem_of_app, list_elem_of_singleton.
    destruct Heff as [Hnone Hmap Harr | tm idx arr t_new [Hin Hsa] Hm Hgt Hnew Hmap Harr
                     | tm idx arr Heq [Hin Hsa] Hm Hngt].
    + intros [Hc0| ->].
      * destruct (Hcover _ Hc0) as (t & i & s & [Hti Hs] & Hm0 & Hn0).
        exists t, i, s. split; [|done]. split.
        -- rewrite Hmap, elem_of_app. by left.
        -- rewrite Harr. pose proof (Hrange _ _ Hti). by rewrite lookup_app_l.
      * exists (cand_to_tag c), (length (arrivals_ b)), (cand_to_arrival c).
        split; [|eauto]. split.
        -- rewrite Hmap, elem_of_app, list_elem_of_singleton. by right.
        -- rewrite Harr, lookup_app_r by lia. by rewrite Nat.sub_diag.
    + assert (Hnewc : tagMatch ops t_new (cand_to_tag c) crpr = true).
      { destruct Hnew as [->| ->]; eauto. }
      assert (Hstored_new : TagGroupBldr_stored_at (bldr_step b c) t_new idx (cand_to_arrival c)).
      { split; [rewrite Hmap; by left|]. rewrite Harr. apply list_lookup_insert_eq. eauto. }
      intros [Hc0| ->].
      * destruct (Hcover _ Hc0) as (t & i & s & [Hti Hs] & Hm0 & Hn0).
        destruct (decide ((t, i) = (tm, idx))) as [Heq|Hne].
        -- inversion Heq; subst. exists t_new, idx, (cand_to_arrival c).
           split; [done|]. split; [eauto|].
           rewrite Hsa in Hs. inversion Hs; subst.
           assert (Hmm : cand_min_max c0 = cand_min_max c).
           { apply cands_min_max; eauto. }
           destruct (delayFuzzyGreater dly (cand_to_arrival c0) (cand_to_arrival c)
                       (cand_min_max c0)) eqn:Hgt0; [|done].
           rewrite <- Hmm in Hgt.
           rewrite (fuzzyGreater_trans _ _ _ _ Hgt0 Hgt) in Hn0. done.
        -- exists t, i, s. split; [|done]. split.
           ++ rewrite Hmap. by right.
           ++ rewrite Harr. rewrite list_lookup_insert_ne; [done|].
              intros ->. apply Hne. eapply Huniq; eauto.
      * exists t_new, idx, (cand_to_arrival c). eauto.
    + rewrite Heq. intros [Hc0| ->]; [eauto|].
      exists tm, idx, arr. split; [split; done|]. eauto.
Qed.

Lemma drain_inv_fold b0 rest : forall b done,
  (forall c', c' ∈ done ++ rest -> c' ∈ cands) ->
  drain_inv b0 b done ->
  drain_inv b0 (fold_left bldr_step rest b) (done ++ rest).
Proof.
  induction rest as [|c rest IH]; intros b done Hsub Hinv; simpl.
  - by rewrite app_nil_r.
  - replace (done ++ c :: rest) with ((done ++ [c]) ++ rest) in *
      by (by rewrite <- app_assoc).
    apply IH; [done|]. apply drain_inv_step; [| |done].
    + intros c' Hc'. apply Hsub. rewrite !elem_of_app. by left; left.
    + apply Hsub. rewrite !elem_of_app, list_elem_of_singleton. by left; right.
Qed.

(** The builder's own lookup finds the slot of the matching key. *)
Lemma tagArrival_stored b t' t i s :
  match_crpr_clk_pin_ b = crpr ->
  TagGroupBldr_wf ops b ->
  TagGroupBldr_stored_at b t i s ->
  tagMatch ops t t' crpr = true ->
  TagGroupBldr_tagArrival ops t' b = Some s.
Proof.
  intros Hflag [Hrange Huniq] [Hti Hs] Hm. rewrite Hflag in Huniq.
  unfold TagGroupBldr_tagArrival, TagGroupBldr_tagMatchArrival. rewrite Hflag.
  destruct (ArrivalMap_findKey ops crpr t' (arrival_map_ b)) as [[tm idx]|] eqn:Hfind.
  - apply ArrivalMap_findKey_Some in Hfind as [Hin Hm'].
    assert (Heq : (t, i) = (tm, idx)) by (eapply Huniq; eauto).
    inversion Heq; subst. unfold TagGroupBldr_arrival. by rewrite Hs.
  - rewrite (ArrivalMap_findKey_None _ _ _ _ Hfind _ _ Hti) in Hm. done.
Qed.

Lemma ArrivalVisitor_drain_bldr av :
  tag_bldr_ (ArrivalVisitor_drain sta cands av) = fold_left bldr_step cands (tag_bldr_ av).
Proof.
  unfold ArrivalVisitor_drain. generalize cands. intros l. revert av.
  induction l as [|c l IH]; intros av; simpl; [done|].
  rewrite IH. f_equal. apply ArrivalVisitor_visitFromToPath_bldr.
Qed.

Lemma arrival_update_needed_iff tag_match to_arrival min_max :
  arrival_update_needed dly tag_match to_arrival min_max = true <->
  tag_match = None
  \/ exists tm arrival idx,
       tag_match = Some (tm, arrival, idx)
       /\ delayFuzzyGreater dly to_arrival arrival min_max = true.
Proof.
  unfold arrival_update_needed. destruct tag_match as [[[tm arr] idx]|].
  - split; [intros H; right; eauto|]. intros [?|(? & ? & ? & [= <- <- <-] & ?)]; done.
  - split; [by left|done].
Qed.

Lemma ArrivalVisitor_visitFromToPath_keep from_path to_tag to_arrival min_max av :
  arrival_update_needed dly (TagGroupBldr_tagMatchArrival ops to_tag (tag_bldr_ av))
                        to_arrival min_max = false ->
  ArrivalVisitor_visitFromToPath sta from_path to_tag to_arrival min_max av = (true, av).
Proof. intros H. unfold ArrivalVisitor_visitFromToPath. cbv zeta. by rewrite H. Qed.

Lemma ArrivalVisitor_visitFromToPath_update from_path to_tag to_arrival min_max av :
  match_crpr_clk_pin_ (tag_bldr_ av) = crpr ->
  TagGroupBldr_wf ops (tag_bldr_ av) ->
  arrival_update_needed dly (TagGroupBldr_tagMatchArrival ops to_tag (tag_bldr_ av))
                        to_arrival min_max = true ->
  TagGroupBldr_tagArrival ops to_tag
    (tag_bldr_ (snd (ArrivalVisitor_visitFromToPath sta from_path to_tag to_arrival
                                                    min_max av)))
  = Some to_arrival.
Proof.
  intros Hflag Hwf Hneed.
  set (c := mkCandidate from_path to_tag to_arrival min_max).
  assert (Hb : tag_bldr_ (snd (ArrivalVisitor_visitFromToPath sta from_path to_tag
                                 to_arrival min_max av)) = bldr_step (tag_bldr_ av) c).
  { apply ArrivalVisitor_visitFromToPath_bldr. }
  rewrite Hb.
  pose proof (bldr_step_effect (tag_bldr_ av) c Hflag Hwf) as Heff.
  pose proof (bldr_step_flag (tag_bldr_ av) c) as Hflag'. rewrite Hflag in Hflag'.
  pose proof (step_effect_wf _ _ _ Hflag Hflag' Hwf Heff) as Hwf'.
  destruct Hwf as [Hrange Huniq].
  destruct Heff as [Hnone Hmap Harr | tm idx arr t_new [Hin Hsa] Hm Hgt Hnew Hmap Harr
                   | tm idx arr Heq [Hin Hsa] Hm Hngt].
  - apply (tagArrival_stored _ to_tag to_tag (length (arrivals_ (tag_bldr_ av))));
      [done|done| |done].
    split.
    + rewrite Hmap, elem_of_app, list_elem_of_singleton. by right.
    + rewrite Harr, lookup_app_r by lia. by rewrite Nat.sub_diag.
  - apply (tagArrival_stored _ to_tag t_new idx); [done|done| |].
    + split; [rewrite Hmap; by left|]. rewrite Harr. apply list_lookup_insert_eq. eauto.
    + destruct Hnew as [->| ->]; [done|apply tagMatch_refl].
  - exfalso. revert Hneed. unfold arrival_update_needed, TagGroupBldr_tagMatchArrival.
    rewrite Hflag.
    destruct (ArrivalMap_findKey ops crpr to_tag (arrival_map_ (tag_bldr_ av)))
      as [[tm' idx']|] eqn:Hfind.
    + apply ArrivalMap_findKey_Some in Hfind as [Hin' Hm'].
      rewrite Hflag in Huniq.
      assert (Heq' : (tm, idx) = (tm', idx')).
      { eapply Huniq; eauto. }
      inversion Heq'; subst. unfold TagGroupBldr_arrival. rewrite Hsa. simpl.
      simpl in Hngt. by rewrite Hngt.
    + simpl in Hm. rewrite (ArrivalMap_findKey_None _ _ _ _ Hfind _ _ Hin) in Hm. done.
Qed.

Lemma ArrivalVisitor_drain_stored av c :
  match_crpr_clk_pin_ (tag_bldr_ av) = crpr ->
  TagGroupBldr_wf ops (tag_bldr_ av) ->
  c ∈ cands ->
  exists s,
    TagGroupBldr_tagArrival ops (cand_to_tag c) (tag_bldr_ (ArrivalVisitor_drain sta cands av))
    = Some s
    /\ ((exists c', c' ∈ cands
                    /\ tagMatch ops (cand_to_tag c') (cand_to_tag c) crpr = true
                    /\ cand_to_arrival c' = s)
        \/ exists t i, TagGroupBldr_stored_at (tag_bldr_ av) t i s
                       /\ tagMatch ops t (cand_to_tag c) crpr = true)
    /\ forall c', c' ∈ cands ->
         tagMatch ops (cand_to_tag c') (cand_to_tag c) crpr = true ->
         delayFuzzyGreater dly (cand_to_arrival c') s (cand_min_max c) = false.
Proof.
  intros Hflag Hwf Hc. rewrite ArrivalVisitor_drain_bldr.
  pose proof (drain_inv_fold (tag_bldr_ av) cands (tag_bldr_ av) []
                (fun c' H => H) (drain_inv_init _ Hflag Hwf)) as Hinv.
  simpl in Hinv. destruct Hinv as [Hflag' Hwf' Horigin Hcover].
  destruct (Hcover c Hc) as (t & i & s & Hst & Hm & Hn).
  exists s. split; [by apply (tagArrival_stored _ _ t i)|]. split.
  - destruct (Horigin t i s Hst) as [(c0 & Hc0 & Hm0 & Hs0)|Hb0].
    + left. exists c0. split; [done|]. split; [|done].
      eapply tagMatch_trans; [apply tagMatch_sym; exact Hm0|exact Hm].
    + right. eauto.
  - intros c' Hc' Hmc.
    destruct (Hcover c' Hc') as (t' & i' & s' & Hst' & Hm' & Hn').
    assert (Heq : (t', i') = (t, i)).
    { destruct Hwf' as [_ Huniq]. rewrite Hflag' in Huniq.
      destruct Hst as [Hti _], Hst' as [Hti' _].
      apply (Huniq t' i' t i); [done|done|]. right.
      eapply tagMatch_trans; [exact Hm'|].
      eapply tagMatch_trans; [exact Hmc|]. apply tagMatch_sym. exact Hm. }
    inversion Heq; subst.
    destruct Hst as [_ Hs], Hst' as [_ Hs']. rewrite Hs in Hs'. inversion Hs'; subst.
    rewrite <- (cands_min_max c' c Hc' Hc Hmc). exact Hn'.
Qed.

End ArrivalMerge.

(** C1 (amended).  [ArrivalVisitor::visitFromToPath] writes the builder slot
    that matches the outgoing tag iff no matching tag is present or the
    candidate arrival is fuzzy-greater than the stored one in the min/max
    direction of the path; a call that writes leaves the candidate arrival
    in the slot and a call that does not write leaves the visitor as it
    was.  After the candidates of a vertex are drained, the arrival stored
    for the tag of a candidate is the arrival of a candidate with a
    matching tag (or one the builder started with) and no candidate with a
    matching tag is fuzzy-greater than it: the stored arrival is the worst
    one up to the tolerance of the comparison.  The builder looks its keys
    up under [tagMatch], an equivalence, and the fuzzy comparison is a
    strict order. *)
Theorem ArrivalVisitor_visitFromToPath_keeps_fuzzy_worst (sta : StaState) (crpr : bool)
  (cands : list Candidate) (av : ArrivalVisitor) :
  (* tagMatch is an equivalence *)
  (forall t, tagMatch (tag_ops sta) t t crpr = true) ->
  (forall t1 t2, tagMatch (tag_ops sta) t1 t2 crpr = true ->
                 tagMatch (tag_ops sta) t2 t1 crpr = true) ->
  (forall t1 t2 t3, tagMatch (tag_ops sta) t1 t2 crpr = true ->
                    tagMatch (tag_ops sta) t2 t3 crpr = true ->
                    tagMatch (tag_ops sta) t1 t3 crpr = true) ->
  (* the fuzzy comparison is a strict order *)
  (forall a mm, delayFuzzyGreater (delay_ops sta) a a mm = false) ->
  (forall a b c mm, delayFuzzyGreater (delay_ops sta) a b mm = true ->
                    delayFuzzyGreater (delay_ops sta) b c mm = true ->
                    delayFuzzyGreater (delay_ops sta) a c mm = true) ->
  (* candidates with matching tags belong to one corner *)
  (forall c1 c2, c1 ∈ cands -> c2 ∈ cands ->
     tagMatch (tag_ops sta) (cand_to_tag c1) (cand_to_tag c2) crpr = true ->
     cand_min_max c1 = cand_min_max c2) ->
  match_crpr_clk_pin_ (tag_bldr_ av) = crpr ->
  TagGroupBldr_wf (tag_ops sta) (tag_bldr_ av) ->
  (forall from_path to_tag to_arrival min_max,
     let tag_match := TagGroupBldr_tagMatchArrival (tag_ops sta) to_tag (tag_bldr_ av) in
     let av' := snd (ArrivalVisitor_visitFromToPath sta from_path to_tag to_arrival
                                                    min_max av) in
     (arrival_update_needed (delay_ops sta) tag_match to_arrival min_max = true <->
      tag_match = None
      \/ exists tm arrival idx,
           tag_match = Some (tm, arrival, idx)
           /\ delayFuzzyGreater (delay_ops sta) to_arrival arrival min_max = true)
     /\ (arrival_update_needed (delay_ops sta) tag_match to_arrival min_max = true ->
         TagGroupBldr_tagArrival (tag_ops sta) to_tag (tag_bldr_ av') = Some to_arrival)
     /\ (arrival_update_needed (delay_ops sta) tag_match to_arrival min_max = false ->
         av' = av))
  /\ (forall c, c ∈ cands ->
      exists s,
        TagGroupBldr_tagArrival (tag_ops sta) (cand_to_tag c)
                                (tag_bldr_ (ArrivalVisitor_drain sta cands av)) = Some s
        /\ ((exists c', c' ∈ cands
               /\ tagMatch (tag_ops sta) (cand_to_tag c') (cand_to_tag c) crpr = true
               /\ cand_to_arrival c' = s)
            \/ exists t i, TagGroupBldr_stored_at (tag_bldr_ av) t i s
                           /\ tagMatch (tag_ops sta) t (cand_to_tag c) crpr = true)
        /\ forall c', c' ∈ cands ->
             tagMatch (tag_ops sta) (cand_to_tag c') (cand_to_tag c) crpr = true ->
             delayFuzzyGreater (delay_ops sta) (cand_to_arrival c') s (cand_min_max c)
             = false).
Proof.
  intros Hrefl Hsym Htrans Hirr Hgtrans Hmm Hflag Hwf. split.
  - intros from_path to_tag to_arrival min_max tag_match av'. split; [|split].
    + apply arrival_update_needed_iff.
    + intros Hneed. eapply ArrivalVisitor_visitFromToPath_update; eauto.
    + intros Hkeep. unfold av'. by rewrite ArrivalVisitor_visitFromToPath_keep.
  - intros c Hc.
    eapply ArrivalVisitor_drain_stored; eauto.
Qed.

(** ** Exception states: [Search::mutateTag] *)

(** *** Exception states *)

Lemma ExceptionState_complete_no_match sdc state from_pin to_pin to_tr min_max :
  ExceptionState_isComplete state = true ->
  ExceptionState_matchesNextThru sdc state from_pin to_pin to_tr min_max = false.
Proof.
  unfold ExceptionState_isComplete, ExceptionState_matchesNextThru, ExceptionState_nextThru.
  intros H. apply bool_decide_eq_true in H.
  by rewrite lookup_ge_None_2.
Qed.


(** The fuel of [mutateTag_advance] is enough: the loop of the source has
    met its exit condition when the function returns. *)
Lemma mutateTag_advance_exit sdc fuel state from_pin to_pin to_tr min_max :
  (length (exception_thrus (exception state)) <= next_thru_index state + fuel)%nat ->
  ExceptionState_matchesNextThru sdc
    (mutateTag_advance sdc fuel state from_pin to_pin to_tr min_max)
    from_pin to_pin to_tr min_max = false.
Proof.
  revert state. induction fuel as [|fuel IH]; intros state Hlen; simpl.
  - apply ExceptionState_complete_no_match. unfold ExceptionState_isComplete.
    apply bool_decide_eq_true. lia.
  - destruct (ExceptionState_matchesNextThru sdc state from_pin to_pin to_tr min_max) eqn:Hm;
      [|done].
    apply IH. simpl. lia.
Qed.



(** *** The two loops of mutateTag *)






(** *** findTag returns a tag with the probe's fields *)





(** *** mutateTag on a completed false path, by the [from_is_clk] it is given *)


(** *** The completed false path through [thruTag] and [thruClkTag] *)


(** ** Frames of a visit and the second arrival pass *)

Lemma Search_keeps_refl st : Search_keeps st st.
Proof. by split. Qed.

Lemma Search_keeps_trans st1 st2 st3 :
  Search_keeps st1 st2 -> Search_keeps st2 st3 -> Search_keeps st1 st3.
Proof. intros [] []. split; congruence. Qed.

Lemma Search_tnsInvalid_keeps sta vertex st : Search_keeps st (Search_tnsInvalid sta vertex st).
Proof. unfold Search_tnsInvalid. destruct (_ && _); by split. Qed.

Lemma Search_requiredInvalid_keeps sta vertex st :
  Search_keeps st (Search_requiredInvalid sta vertex st).
Proof.
  unfold Search_requiredInvalid. destruct (requireds_exist_ _); [|apply Search_keeps_refl].
  eapply Search_keeps_trans; [|apply Search_tnsInvalid_keeps].
  destruct (negb _); by split.
Qed.

Lemma Search_requiredInvalid_pin_keeps sta pin st :
  Search_keeps st (Search_requiredInvalid_pin sta pin st).
Proof.
  unfold Search_requiredInvalid_pin. destruct (pinVertices _ _) as [v [b|]].
  - eapply Search_keeps_trans; apply Search_requiredInvalid_keeps.
  - apply Search_requiredInvalid_keeps.
Qed.

Lemma fold_left_keeps {A} (f : Search -> A -> Search) l :
  (forall st a, Search_keeps st (f st a)) ->
  forall st, Search_keeps st (fold_left f l st).
Proof.
  intros Hf. induction l as [|a l IH]; intros st; simpl; [apply Search_keeps_refl|].
  eapply Search_keeps_trans; [apply Hf|apply IH].
Qed.

Lemma ArrivalVisitor_constrainedRequiredsInvalid_keeps sta vertex is_clk st :
  Search_keeps st (ArrivalVisitor_constrainedRequiredsInvalid sta vertex is_clk st).
Proof.
  unfold ArrivalVisitor_constrainedRequiredsInvalid. cbv zeta.
  destruct (_ && requireds_exist_ _); [|apply Search_keeps_refl].
  assert (H1 : Search_keeps st
                 (if is_clk && isCheckClk (network_ sta) (vertex_pin (graph_ sta) vertex)
                  then fold_left
                         (fun st edge =>
                            if TimingRole_isTimingCheck (edge_role edge)
                            then Search_requiredInvalid sta (edge_to edge) st
                            else st)
                         (vertex_out_edges (graph_ sta) vertex) st
                  else st)).
  { destruct (_ && _); [|apply Search_keeps_refl].
    apply fold_left_keeps. intros st0 e. destruct (TimingRole_isTimingCheck _);
      [apply Search_requiredInvalid_keeps|apply Search_keeps_refl]. }
  destruct (is_clk && gatedClkChecksEnabled _).
  - eapply Search_keeps_trans; [exact H1|].
    eapply Search_keeps_trans;
      [|apply fold_left_keeps; intros; apply Search_requiredInvalid_pin_keeps].
    apply fold_left_keeps; intros; apply Search_requiredInvalid_pin_keeps.
  - eapply Search_keeps_trans; [exact H1|].
    apply fold_left_keeps; intros; apply Search_requiredInvalid_pin_keeps.
Qed.

Lemma Search_enqueueLatchDataOutputs_keeps sta vertex st :
  Search_keeps st (Search_enqueueLatchDataOutputs sta vertex st).
Proof.
  unfold Search_enqueueLatchDataOutputs. apply fold_left_keeps.
  intros st0 e. destruct (isLatchDtoQ _ _); by split.
Qed.

Lemma Search_keeps_touches sta W st st' : Search_keeps st st' -> Search_touches sta W st st'.
Proof.
  intros [Hvp Hp Hq Hi Hf]. split; try congruence.
  intros u. rewrite Hq. by left.
Qed.

Lemma Search_touches_trans sta W st1 st2 st3 :
  Search_touches sta W st1 st2 -> Search_touches sta W st2 st3 -> Search_touches sta W st1 st3.
Proof.
  intros [H1 Hq1 ? ?] [H2 Hq2 ? ?]. split; try congruence.
  - intros u Hu. rewrite H2, H1; done.
  - intros u Hu. destruct (Hq2 u Hu) as [Hin|?]; [|by right]. by apply Hq1.
Qed.

Lemma Search_touches_mono sta (W W' : Vertex -> Prop) st st' :
  (forall u, W u -> W' u) -> Search_touches sta W st st' -> Search_touches sta W' st st'.
Proof.
  intros HW [H1 Hq ? ?]. split; try done.
  - intros u Hu. apply H1. intros Hw. by apply Hu, HW.
  - intros u Hu. destruct (Hq u Hu) as [?|(w & e & ? & ? & ?)]; [by left|].
    right. exists w, e. eauto.
Qed.

Lemma Search_set_vertex_touches sta vertex st paths :
  Search_touches sta (eq vertex) st (Search_set_vertex st vertex paths).
Proof.
  split; try done; [|by left]. intros u Hu. simpl. by rewrite lookup_insert_ne.
Qed.

Lemma Search_set_pools_touches sta W st p : Search_touches sta W st (Search_set_pools st p).
Proof. split; try done. by left. Qed.

Lemma Search_deletePaths_touches sta vertex st :
  Search_touches sta (eq vertex) st (Search_deletePaths sta vertex st).
Proof.
  unfold Search_deletePaths, Search_deletePaths1.
  eapply Search_touches_trans; [|apply Search_set_vertex_touches].
  unfold Search_tnsNotifyBefore. destruct (_ && _); split; try done; by left.
Qed.

(** [setVertexArrivals] writes the slots of its vertex only. *)
Lemma Search_setVertexArrivals_touches sta vertex tag_bldr st st' :
  Search_setVertexArrivals sta vertex tag_bldr st = Ok st' ->
  Search_touches sta (eq vertex) st st'.
Proof.
  unfold Search_setVertexArrivals.
  destruct (TagGroupBldr_empty tag_bldr).
  { intros [= <-]. apply Search_deletePaths_touches. }
  cbv zeta. intros H.
  apply Result_bind_Ok in H as ([tag_group p1] & _ & H).
  match type of H with (if ?c then _ else _) = _ => destruct c end.
  - match type of H with (let '(_, _) := ?x in _) = _ => destruct x as [sp vpp] end.
    apply Result_bind_Ok in H as ([arrivals fpp] & _ & H). inversion H; subst.
    eapply Search_touches_trans; [apply Search_set_pools_touches|].
    apply Search_set_vertex_touches.
  - apply Result_bind_Ok in H as ([arrivals fpp] & _ & H).
    match type of H with (if ?c then _ else _) = _ => destruct c end.
    + inversion H; subst; clear H.
      eapply Search_touches_trans; [|apply Search_set_vertex_touches].
      eapply Search_touches_trans;
        [|apply Search_keeps_touches, Search_requiredInvalid_keeps].
      eapply Search_touches_trans; [apply Search_set_pools_touches|].
      eapply Search_touches_trans; [apply Search_set_vertex_touches|].
      split; try done. by left.
    + inversion H; subst; clear H.
      eapply Search_touches_trans; [apply Search_set_pools_touches|].
      eapply Search_touches_trans; [apply Search_set_vertex_touches|].
      split; try done. by left.
Qed.

(** The forward iterator enqueues fanout only. *)
Lemma BfsIterator_enqueue_elem vertex queue u :
  u ∈ BfsIterator_enqueue vertex queue <-> u ∈ queue \/ u = vertex.
Proof.
  unfold BfsIterator_enqueue, BfsIterator_inQueue. case_bool_decide as Hin.
  - split; [by left|]. intros [?| ->]; done.
  - by rewrite elem_of_app, list_elem_of_singleton.
Qed.

Lemma BfsFwdIterator_enqueueAdjacentVertices_loop_elem sta pred vp edges :
  forall p queue queue' p',
  BfsFwdIterator_enqueueAdjacentVertices_loop sta pred vp edges p queue = Ok (queue', p') ->
  forall u, u ∈ queue' -> u ∈ queue \/ exists e, e ∈ edges /\ u = edge_to e.
Proof.
  induction edges as [|edge rest IH]; intros p queue queue' p' H u Hu; simpl in H.
  - inversion H; subst. by left.
  - apply Result_bind_Ok in H as ([thru p1] & _ & H).
    destruct (IH _ _ _ _ H u Hu) as [Hin|(e & He & ->)].
    + destruct (thru && _).
      * apply BfsIterator_enqueue_elem in Hin as [?| ->]; [by left|].
        right. exists edge. split; [apply elem_of_cons; by left|done].
      * by left.
    + right. exists e. split; [apply elem_of_cons; by right|done].
Qed.

Lemma BfsFwdIterator_enqueueAdjacentVertices_elem sta pred vp vertex p queue queue' p' :
  BfsFwdIterator_enqueueAdjacentVertices sta pred vp vertex p queue = Ok (queue', p') ->
  forall u, u ∈ queue' ->
    u ∈ queue \/ exists e, e ∈ vertex_out_edges (graph_ sta) vertex /\ u = edge_to e.
Proof.
  unfold BfsFwdIterator_enqueueAdjacentVertices.
  destruct (SearchPred_searchFrom sta pred vertex).
  - apply BfsFwdIterator_enqueueAdjacentVertices_loop_elem.
  - intros [= <- <-] u Hu. by left.
Qed.

Lemma Search_enqueue_touches sta vertex st queue p :
  (forall u, u ∈ queue ->
     u ∈ arrival_iter_ (work st)
     \/ exists e, e ∈ vertex_out_edges (graph_ sta) vertex /\ u = edge_to e) ->
  Search_touches sta (eq vertex) st
    (Search_set_work (Search_set_pools st p) (Work_set_arrival_iter (work st) queue)).
Proof.
  intros Hq. split; try done. simpl. intros u Hu.
  destruct (Hq u Hu) as [?|(e & ? & ?)]; [by left|]. right. exists vertex, e. eauto.
Qed.

Lemma ArrivalVisitor_seedInputDelayArrival_touches sta pin vertex input_delay st st' :
  ArrivalVisitor_seedInputDelayArrival sta pin vertex input_delay st = Ok st' ->
  Search_touches sta (eq vertex) st st'.
Proof.
  unfold ArrivalVisitor_seedInputDelayArrival. cbv zeta. intros H.
  apply Result_bind_Ok in H as ([tag_bldr p1] & _ & H).
  apply Result_bind_Ok in H as (st1 & Hset & H).
  apply Result_bind_Ok in H as ([queue p2] & Henq & H). inversion H; subst; clear H.
  apply Search_setVertexArrivals_touches in Hset.
  eapply Search_touches_trans; [apply Search_set_pools_touches|].
  eapply Search_touches_trans; [exact Hset|].
  apply Search_enqueue_touches.
  by apply (BfsFwdIterator_enqueueAdjacentVertices_elem _ _ _ _ _ _ _ _ Henq).
Qed.

Lemma Result_foldl_touches {A} sta (W : Vertex -> Prop) (f : Search -> A -> Result Search) l :
  (forall st a st', a ∈ l -> f st a = Ok st' -> Search_touches sta W st st') ->
  forall st st', Result_foldl f l st = Ok st' -> Search_touches sta W st st'.
Proof.
  induction l as [|a l IH]; intros Hf st st' H; simpl in H.
  - inversion H; subst. split; try done. by left.
  - apply Result_bind_Ok in H as (st1 & H1 & H).
    eapply Search_touches_trans.
    + eapply Hf; [|exact H1]. apply elem_of_cons. by left.
    + eapply IH; [|exact H]. intros ? ? ? Ha. apply Hf. apply elem_of_cons. by right.
Qed.

Lemma ArrivalVisitor_enqueueRefPinInputDelays_touches sta ref_pin st st' :
  ArrivalVisitor_enqueueRefPinInputDelays sta ref_pin st = Ok st' ->
  Search_touches sta (refPinInputDelay_vertex sta ref_pin) st st'.
Proof.
  unfold ArrivalVisitor_enqueueRefPinInputDelays.
  apply Result_foldl_touches. intros st0 idl st0' Hin H.
  destruct (pinVertices (graph_ sta) (input_delay_pin idl)) as [v bv] eqn:Hpv.
  apply Result_bind_Ok in H as (st1 & H1 & H).
  apply ArrivalVisitor_seedInputDelayArrival_touches in H1.
  eapply Search_touches_trans.
  - eapply Search_touches_mono; [|exact H1]. intros u <-.
    exists idl. split; [done|]. left. by rewrite Hpv.
  - destruct bv as [b|].
    + apply ArrivalVisitor_seedInputDelayArrival_touches in H.
      eapply Search_touches_mono; [|exact H]. intros u <-.
      exists idl. split; [done|]. right. by rewrite Hpv.
    + inversion H; subst. split; try done. by left.
Qed.

Lemma queue_from_refl sta vertex queue : queue_from sta vertex queue queue.
Proof. intros u Hu. by left. Qed.

Lemma queue_from_trans sta vertex q1 q2 q3 :
  queue_from sta vertex q1 q2 -> queue_from sta vertex q2 q3 -> queue_from sta vertex q1 q3.
Proof.
  intros H1 H2 u Hu. destruct (H2 u Hu) as [Hin|?]; [|by right]. by apply H1.
Qed.

Lemma Search_seedClkArrivals_queue sta vp pin vertex tag_bldr p queue tag_bldr' p' queue' :
  Search_seedClkArrivals sta vp pin vertex tag_bldr p queue = Ok (tag_bldr', p', queue') ->
  queue_from sta vertex queue queue'.
Proof.
  unfold Search_seedClkArrivals.
  generalize (default [] (findVertexPinClocks (sdc_ sta) pin)). intros clks.
  revert tag_bldr p queue.
  induction clks as [|clk clks IH]; intros tag_bldr p queue H; simpl in H.
  - inversion H; subst. apply queue_from_refl.
  - apply Result_bind_Ok in H as ([[b1 p1] q1] & H1 & H).
    apply Result_bind_Ok in H1 as ([b2 p2] & _ & H1).
    apply Result_bind_Ok in H1 as ([q3 p3] & Henq & H1). inversion H1; subst; clear H1.
    eapply queue_from_trans; [|eapply IH; exact H].
    exact (BfsFwdIterator_enqueueAdjacentVertices_elem _ _ _ _ _ _ _ _ Henq).
Qed.

Lemma ArrivalVisitor_visit_build_queue sta vertex av st av1 is_clk p1 queue1 :
  ArrivalVisitor_visit_build sta vertex av st = Ok (av1, is_clk, p1, queue1) ->
  queue_from sta vertex (arrival_iter_ (work st)) queue1.
Proof.
  unfold ArrivalVisitor_visit_build. cbv zeta. intros H.
  apply Result_bind_Ok in H as ([av2 pa] & _ & H).
  apply Result_bind_Ok in H as ([b4 pb] & _ & H).
  apply Result_bind_Ok in H as ([b5 pc] & _ & H).
  apply Result_bind_Ok in H as ([[b6 pd] q1] & Hseed & H).
  apply Result_bind_Ok in H as ([b7 pe] & _ & H). inversion H; subst; clear H.
  destruct (_ && _) in Hseed.
  - eapply Search_seedClkArrivals_queue; exact Hseed.
  - inversion Hseed; subst. apply queue_from_refl.
Qed.

(** [arrivalsChanged] reads the slots of the vertex and the pools. *)
Lemma Search_arrivalsChanged_ext sta st st' vertex tag_bldr :
  vertex_paths st' = vertex_paths st -> pools st' = pools st ->
  Search_arrivalsChanged sta st' vertex tag_bldr = Search_arrivalsChanged sta st vertex tag_bldr.
Proof.
  intros Hvp Hp. unfold Search_arrivalsChanged, Search_vertex. by rewrite Hvp, Hp.
Qed.

(** The arrival-update step of a visit: everything between the build of
    the tag builder and the re-seeding of reference-pin input delays. *)
Lemma ArrivalVisitor_visit_inv sta vertex av st av' st' :
  ArrivalVisitor_visit sta vertex av st = Ok (av', st') ->
  (av' = av /\ st' = st)
  \/ exists is_clk p1 queue1 st4,
       ArrivalVisitor_visit_build sta vertex av st = Ok (av', is_clk, p1, queue1)
       /\ Search_touches sta (eq vertex) st st4
       /\ (Search_arrivalsChanged sta (Search_set_pools st p1) vertex (tag_bldr_ av') = false ->
           vertex_paths st4 = vertex_paths st)
       /\ ArrivalVisitor_enqueueRefPinInputDelays sta (vertex_pin (graph_ sta) vertex) st4
          = Ok st'.
Proof.
  unfold ArrivalVisitor_visit. cbv zeta.
  destruct (_ || _); [|intros [= <- <-]; by left].
  intros H. right.
  apply Result_bind_Ok in H as ([[[av1 is_clk] p1] queue1] & Hbuild & H).
  set (st1 := Search_set_work (Search_set_pools st p1)
                (Work_set_arrival_iter (work st) queue1)) in *.
  rewrite (Search_arrivalsChanged_ext sta (Search_set_pools st p1) st1) in H by done.
  set (changed := Search_arrivalsChanged sta (Search_set_pools st p1) vertex (tag_bldr_ av1))
    in *.
  apply Result_bind_Ok in H as (st3 & H3 & H).
  apply Result_bind_Ok in H as (st4 & H4 & H).
  apply Result_bind_Ok in H as (st5 & H5 & H). inversion H; subst; clear H.
  exists is_clk, p1, queue1, st4. split; [done|].
  pose proof (ArrivalVisitor_visit_build_queue _ _ _ _ _ _ _ _ Hbuild) as Hq1.
  assert (T1 : Search_touches sta (eq vertex) st st1).
  { by apply Search_enqueue_touches. }
  set (st2 := if isLatchData (network_ sta) (vertex_pin (graph_ sta) vertex)
              then if changed && isLatchData (network_ sta) (vertex_pin (graph_ sta) vertex)
                   then Search_enqueueLatchDataOutputs sta vertex st1 else st1
              else st1) in *.
  assert (K2 : Search_keeps st1 st2).
  { unfold st2. destruct (isLatchData _ _); [|apply Search_keeps_refl].
    destruct (changed && true); [apply Search_enqueueLatchDataOutputs_keeps
                                |apply Search_keeps_refl]. }
  assert (T3 : Search_touches sta (eq vertex) st2 st3
               /\ vertex_paths st3 = vertex_paths st2).
  { destruct (_ && _) in H3.
    - apply Result_bind_Ok in H3 as ([queue p] & Henq & H3). inversion H3; subst; clear H3.
      split; [|done]. apply Search_enqueue_touches.
      exact (BfsFwdIterator_enqueueAdjacentVertices_elem _ _ _ _ _ _ _ _ Henq).
    - inversion H3; subst. split; [|done]. apply Search_keeps_touches, Search_keeps_refl. }
  destruct T3 as [T3 E3].
  assert (T03 : Search_touches sta (eq vertex) st st3).
  { eapply Search_touches_trans; [exact T1|].
    eapply Search_touches_trans; [apply Search_keeps_touches; exact K2|exact T3]. }
  split; [|split; [|exact H5]].
  - eapply Search_touches_trans; [exact T03|].
    destruct changed.
    + apply Result_bind_Ok in H4 as (sts & Hset & H4). inversion H4; subst; clear H4.
      eapply Search_touches_trans; [eapply Search_setVertexArrivals_touches; exact Hset|].
      apply Search_keeps_touches.
      eapply Search_keeps_trans; [apply Search_tnsInvalid_keeps|].
      apply ArrivalVisitor_constrainedRequiredsInvalid_keeps.
    + inversion H4; subst. apply Search_keeps_touches, Search_keeps_refl.
  - intros Hch. change (changed = false) in Hch. rewrite Hch in H4. inversion H4; subst.
    rewrite E3. by destruct K2.
Qed.

Lemma ArrivalVisitor_visit_touches sta vertex av st av' st' :
  ArrivalVisitor_visit sta vertex av st = Ok (av', st') ->
  Search_touches sta
    (fun u => vertex = u
              \/ refPinInputDelay_vertex sta (vertex_pin (graph_ sta) vertex) u) st st'.
Proof.
  intros H. apply ArrivalVisitor_visit_inv in H
    as [[-> ->]|(is_clk & p1 & q1 & st4 & _ & T4 & _ & H5)].
  - apply Search_keeps_touches, Search_keeps_refl.
  - apply ArrivalVisitor_enqueueRefPinInputDelays_touches in H5.
    eapply Search_touches_trans.
    + eapply Search_touches_mono; [|exact T4]. intros; by left.
    + eapply Search_touches_mono; [|exact H5]. intros; by right.
Qed.



(** * Second run of findArrivals *)

Lemma BfsFwdIterator_next_levels_None sta queue levels :
  BfsFwdIterator_next_levels sta levels queue = None
  <-> forall u, u ∈ queue -> vertex_level (graph_ sta) u ∉ levels.
Proof.
  induction levels as [|level levels IH]; simpl.
  - split; [|done]. intros _ u _ H. by apply elem_of_nil in H.
  - destruct (List.find _ queue) as [v|] eqn:Hfind.
    + split; [done|]. intros Hall. apply List.find_some in Hfind as [Hin Hlevel].
      apply bool_decide_eq_true in Hlevel.
      destruct (Hall v); [by apply list_elem_of_In|]. rewrite Hlevel. left.
    + rewrite IH. split.
      * intros Hall u Hu Hl. apply elem_of_cons in Hl as [Hl|Hl]; [|by apply (Hall u)].
        pose proof (List.find_none _ _ Hfind u (proj1 (list_elem_of_In _ _) Hu)) as Hne.
        simpl in Hne. by apply bool_decide_eq_false in Hne.
      * intros Hall u Hu Hl. apply (Hall u Hu). by right.
Qed.

(** Nothing is next exactly when nothing is queued up to the level. *)
Lemma BfsFwdIterator_next_None sta to_level queue :
  BfsFwdIterator_next sta to_level queue = None <-> queue_above sta (S to_level) queue.
Proof.
  unfold BfsFwdIterator_next. rewrite BfsFwdIterator_next_levels_None.
  split; intros H u Hu; specialize (H u Hu).
  - destruct (decide (S to_level <= vertex_level (graph_ sta) u)%nat); [done|].
    destruct H. apply elem_of_seq. lia.
  - intros Hl. apply elem_of_seq in Hl. lia.
Qed.

Lemma BfsFwdIterator_visitParallel_loop_idle sta to_level fuel av st n :
  queue_above sta (S to_level) (arrival_iter_ (work st)) ->
  BfsFwdIterator_visitParallel_loop sta to_level fuel av st n = Some (Ok (n, av, st)).
Proof.
  intros Hq. apply BfsFwdIterator_next_None in Hq.
  destruct fuel; simpl; by rewrite Hq.
Qed.

Lemma Search_settled_findArrivals1 sta level st :
  Search_settled sta level st -> Search_findArrivals1 sta st = Ok st.
Proof.
  intros [Hseed Hinv _ _ _]. unfold Search_findArrivals1, Search_seedInvalidArrivals.
  rewrite Hseed. simpl. rewrite Hinv, elements_empty. simpl.
  destruct st as [? ? [] ? ? ?]; simpl in *. by subst.
Qed.

Lemma Search_settled_findArrivals sta fuel level av st :
  Search_settled sta level st ->
  BfsFwdIterator_visitParallel sta fuel level av st = Some (Ok (0%nat, av, st))
  /\ Search_findArrivals_visitor sta fuel level av st = Some (Ok (av, st)).
Proof.
  intros Hs.
  assert (Hidle : BfsFwdIterator_visitParallel sta fuel level av st
                  = Some (Ok (0%nat, av, st))).
  { unfold BfsFwdIterator_visitParallel.
    apply BfsFwdIterator_visitParallel_loop_idle, Hs. }
  split; [exact Hidle|].
  unfold Search_findArrivals_visitor.
  rewrite (Search_settled_findArrivals1 _ _ _ Hs), Hidle.
  destruct Hs as [Hseed Hinv Hq Hex Hval].
  f_equal. f_equal. f_equal.
  destruct st as [p vp w [f1 f2 f3 f4 f5 f6 f7 f8 f9 f10] tmin tmax]; simpl in *.
  unfold Search_set_flags; simpl. f_equal.
  destruct (BfsIterator_empty (arrival_iter_ w)) eqn:He; simpl.
  - destruct (Hval eq_refl) as [-> ->]. rewrite Hinv.
    rewrite bool_decide_eq_true_2 by done. by subst.
  - by subst.
Qed.

Lemma Search_enqueueAdjacent_search_adj_seeded sta vertex st st' :
  Search_enqueueAdjacent_search_adj sta vertex st = Ok st' ->
  arrivals_seeded_ (flags st') = arrivals_seeded_ (flags st).
Proof.
  unfold Search_enqueueAdjacent_search_adj. intros H.
  apply Result_bind_Ok in H as ([queue p] & _ & H). by inversion H.
Qed.

Lemma Search_setVertexArrivals_seeded sta vertex tag_bldr st st' :
  Search_setVertexArrivals sta vertex tag_bldr st = Ok st' ->
  arrivals_seeded_ (flags st') = arrivals_seeded_ (flags st).
Proof. intros H. by destruct (Search_setVertexArrivals_touches _ _ _ _ _ H). Qed.

Lemma Search_seedArrival_seeded sta vertex st st' :
  Search_seedArrival sta vertex st = Ok st' ->
  arrivals_seeded_ (flags st') = arrivals_seeded_ (flags st).
Proof.
  unfold Search_seedArrival. cbv zeta.
  destruct (isVertexPinClock _ _).
  { intros H.
    apply Result_bind_Ok in H as ([[b2 p1] q1] & _ & H).
    apply Result_bind_Ok in H as ([b3 p2] & _ & H).
    by apply Search_setVertexArrivals_seeded in H. }
  destruct (Search_isInputArrivalSrchStart _ _).
  { intros H.
    apply Result_bind_Ok in H as ([b1 p1] & _ & H).
    apply Result_bind_Ok in H as (st1 & Hset & H).
    apply Search_setVertexArrivals_seeded in Hset. simpl in Hset.
    destruct (negb _).
    - apply Search_enqueueAdjacent_search_adj_seeded in H. congruence.
    - inversion H; subst. done. }
  destruct (isRoot _ _); [|by intros [= <-]].
  destruct (_ || _).
  - intros H.
    apply Result_bind_Ok in H as ([[sf b1] p1] & _ & H).
    apply Result_bind_Ok in H as (st1 & H1 & H).
    apply Search_setVertexArrivals_seeded in H. rewrite H.
    destruct sf.
    + by apply Search_enqueueAdjacent_search_adj_seeded in H1.
    + by inversion H1.
  - pose proof (Search_deletePaths_touches sta vertex st) as [_ _ _ Hd].
    destruct (SearchPred_searchFrom _ _ _).
    + intros H. apply Search_enqueueAdjacent_search_adj_seeded in H. congruence.
    + intros [= <-]. done.
Qed.

Lemma Result_foldl_seedArrival_seeded sta l : forall st st',
  Result_foldl (fun st vertex => Search_seedArrival sta vertex st) l st = Ok st' ->
  arrivals_seeded_ (flags st') = arrivals_seeded_ (flags st).
Proof.
  induction l as [|v l IH]; intros st st' H; simpl in H.
  - by inversion H.
  - apply Result_bind_Ok in H as (st1 & H1 & H).
    apply Search_seedArrival_seeded in H1. apply IH in H. congruence.
Qed.

Lemma Search_findArrivals1_seeded sta st st' :
  Search_findArrivals1 sta st = Ok st' ->
  arrivals_seeded_ (flags st') = true /\ invalid_arrivals_ (work st') = ∅.
Proof.
  unfold Search_findArrivals1, Search_seedInvalidArrivals. intros H.
  apply Result_bind_Ok in H as (st1 & H1 & H).
  apply Result_bind_Ok in H as (st2 & H2 & H). inversion H; subst; clear H.
  split; [|done]. simpl.
  apply Result_foldl_seedArrival_seeded in H2. rewrite H2.
  destruct (arrivals_seeded_ (flags st)) eqn:Hs; simpl in H1.
  - by inversion H1; subst.
  - apply Result_bind_Ok in H1 as (st0 & _ & H1). by inversion H1.
Qed.

(** A [visitParallel] that returns has drained the queue up to its level;
    the visits leave the invalid arrivals and the seeded flag alone. *)
Lemma BfsFwdIterator_visitParallel_loop_drains sta to_level fuel :
  forall av st n n' av' st',
  BfsFwdIterator_visitParallel_loop sta to_level fuel av st n = Some (Ok (n', av', st')) ->
  queue_above sta (S to_level) (arrival_iter_ (work st'))
  /\ invalid_arrivals_ (work st') = invalid_arrivals_ (work st)
  /\ arrivals_seeded_ (flags st') = arrivals_seeded_ (flags st).
Proof.
  induction fuel as [|fuel IH]; intros av st n n' av' st' H; simpl in H.
  - destruct (BfsFwdIterator_next sta to_level (arrival_iter_ (work st))) eqn:Hnext;
      [done|]. inversion H; subst. by apply BfsFwdIterator_next_None in Hnext.
  - destruct (BfsFwdIterator_next sta to_level (arrival_iter_ (work st))) as [vertex|]
      eqn:Hnext.
    + destruct (ArrivalVisitor_visit sta vertex av _) as [[av2 st2]|msg] eqn:Hvisit;
        [|done].
      apply ArrivalVisitor_visit_touches in Hvisit as [_ _ Hi Hs].
      apply IH in H as (Hq & Hi' & Hs'). simpl in Hi, Hs.
      split; [done|]. split; congruence.
    + inversion H; subst. by apply BfsFwdIterator_next_None in Hnext.
Qed.

(** An arrival pass that returns leaves the search settled. *)
Lemma Search_findArrivals_visitor_settled sta fuel level av st av' st' :
  Search_findArrivals_visitor sta fuel level av st = Some (Ok (av', st')) ->
  Search_settled sta level st'.
Proof.
  unfold Search_findArrivals_visitor. intros H.
  destruct (Search_findArrivals1 sta st) as [st1|msg] eqn:H1; [|done].
  destruct (BfsFwdIterator_visitParallel sta fuel level av st1)
    as [[[[n av2] st2]|msg]|] eqn:H2; [|done|done].
  inversion H; subst; clear H.
  apply Search_findArrivals1_seeded in H1 as [Hs1 Hi1].
  unfold BfsFwdIterator_visitParallel in H2.
  apply BfsFwdIterator_visitParallel_loop_drains in H2 as (Hq & Hi2 & Hs2).
  split; simpl.
  - congruence.
  - congruence.
  - exact Hq.
  - done.
  - intros He. rewrite He. simpl. rewrite Hi2, Hi1.
    by rewrite bool_decide_eq_true_2.
Qed.

(** C8.  When [Search::findArrivals] has returned, a second
    [findArrivals] to the same level returns the same search state,
    whatever its fuel: it seeds nothing, visits no vertex (the visit count
    of [visitParallel] is 0), and so changes no tag group and no
    arrival. *)
Theorem Search_findArrivals_twice (sta : StaState) (fuel fuel' : nat) (level : Level)
  (arrival_visitor_ : ArrivalVisitor) (st : Search) (av1 : ArrivalVisitor) (st1 : Search) :
  Search_findArrivals sta fuel level arrival_visitor_ st = Some (Ok (av1, st1)) ->
  Search_findArrivals sta fuel' level av1 st1
    = Some (Ok (ArrivalVisitor_init sta false eval_pred_ av1, st1))
  /\ BfsFwdIterator_visitParallel sta fuel' level
       (ArrivalVisitor_init sta false eval_pred_ av1) st1
     = Some (Ok (0%nat, ArrivalVisitor_init sta false eval_pred_ av1, st1)).
Proof.
  unfold Search_findArrivals. intros H.
  apply Search_findArrivals_visitor_settled in H.
  destruct (Search_settled_findArrivals sta fuel' level
              (ArrivalVisitor_init sta false eval_pred_ av1) st1 H) as [Hidle Hrun].
  by split.
Qed.

(** ** Clock sources and latch D->Q edges *)


Lemma RequiredVisitor_fromToPath_latchDtoQ sta vp a1 a2 a3 a4 from_path edge arc arc_delay
  to_vertex to_tr to_tag to_arrival min_max path_ap p cmp :
  edge_role edge = role_latchDtoQ ->
  RequiredVisitor_fromToPath sta vp a1 a2 a3 a4 from_path edge arc arc_delay to_vertex to_tr
                             to_tag to_arrival min_max path_ap p cmp = (true, cmp).
Proof.
  intros Hrole. unfold RequiredVisitor_fromToPath, RequiredVisitor_visitFromToPath.
  rewrite Hrole. rewrite bool_decide_eq_false_2; [reflexivity|]. intros H. by apply H.
Qed.

Lemma RequiredVisitor_visitFromPath_latchDtoQ sta vp from_pin from_vertex from_tr from_path
  edge arc to_pin to_vertex to_tr min_max path_ap p cmp c cmp' p' :
  edge_role edge = role_latchDtoQ ->
  PathVisitor_visitFromPath (RequiredVisitor_fromToPath sta vp) sta vp from_pin from_vertex
    from_tr from_path edge arc to_pin to_vertex to_tr min_max path_ap p cmp
  = Ok (c, cmp', p') -> c = true /\ cmp' = cmp.
Proof.
  intros Hrole. unfold PathVisitor_visitFromPath.
  intros H. apply Result_bind_Ok in H as ([[[to_tag ad] ta] p1] & _ & H).
  destruct to_tag as [to_tag|].
  - rewrite RequiredVisitor_fromToPath_latchDtoQ in H by done.
    by inversion H.
  - by inversion H.
Qed.

Lemma RequiredVisitor_visitArc_latchDtoQ sta vp from_pin from_vertex from_tr from_path
  edge arc to_pin to_vertex min_max path_ap p cmp c cmp' p' :
  edge_role edge = role_latchDtoQ ->
  PathVisitor_visitArc (RequiredVisitor_fromToPath sta vp) sta vp from_pin from_vertex
    from_tr from_path edge arc to_pin to_vertex min_max path_ap p cmp
  = Ok (c, cmp', p') -> c = true /\ cmp' = cmp.
Proof.
  intros Hrole. unfold PathVisitor_visitArc. destruct arc as [arc|].
  - destruct (searchThruArc _ _ _ _ _ _).
    + by apply RequiredVisitor_visitFromPath_latchDtoQ.
    + intros H. by inversion H.
  - intros H. by inversion H.
Qed.

Lemma RequiredVisitor_visitEdge_loop_latchDtoQ sta vp from_pin from_vertex edge to_pin
  to_vertex from_paths p cmp c cmp' p' :
  edge_role edge = role_latchDtoQ ->
  PathVisitor_visitEdge_loop (RequiredVisitor_fromToPath sta vp) sta vp from_pin from_vertex
    edge to_pin to_vertex from_paths p cmp
  = Ok (c, cmp', p') -> c = true /\ cmp' = cmp.
Proof.
  intros Hrole. revert p. induction from_paths as [|from_path rest IH]; intros p; simpl.
  - intros H. by inversion H.
  - destruct (negb (Search_isSegmentStart sta from_pin) || is_segment_start (path_tag from_path));
      [|by apply IH].
    destruct (negb (Search_pathPropagatedToClkSrc sta from_pin from_path)); [|by apply IH].
    destruct (TimingArcSet_arcsFrom _ _) as [arc1 arc2].
    intros H. apply Result_bind_Ok in H as ([[c1 v1] p1] & H1 & H).
    apply RequiredVisitor_visitArc_latchDtoQ in H1 as [-> ->]; [|done].
    simpl in H.
    apply Result_bind_Ok in H as ([[c2 v2] p2] & H2 & H).
    apply RequiredVisitor_visitArc_latchDtoQ in H2 as [-> ->]; [|done].
    simpl in H. by apply IH in H.
Qed.

(** C5.  [RequiredVisitor::visitFromToPath] through a latch D->Q edge
    leaves the required times as they were, and so does the whole of
    [visitEdge] over such an edge.  Through an edge of any other role, when
    the to-tag is in the tag group of the to-vertex, the required time of
    the from-path is folded with [required(to) - arc_delay] by the
    tighter-value reduction [requiredSet], in the opposite min/max. *)
Theorem RequiredVisitor_no_required_thru_latchDtoQ (sta : StaState)
  (vp : gmap Vertex VertexPaths) (from_path : PathVertex) (edge : Edge)
  (arc_delay : ArcDelay) (to_vertex : Vertex) (to_tr : TransRiseFall) (to_tag : Tag)
  (min_max : MinMax) (path_ap : PathAPIndex) (p : Pools) (cmp : RequiredCmp) :
  (edge_role edge = role_latchDtoQ ->
     RequiredVisitor_visitFromToPath sta vp from_path edge arc_delay to_vertex to_tr to_tag
                                     min_max path_ap p cmp = (true, cmp)
     /\ (forall from_pin from_vertex to_pin c cmp' p',
           PathVisitor_visitEdge (RequiredVisitor_fromToPath sta vp) sta vp from_pin
                                 from_vertex edge to_pin to_vertex p cmp = Ok (c, cmp', p') ->
           cmp' = cmp))
  /\ (edge_role edge <> role_latchDtoQ ->
      forall to_tag_group,
        Search_tagGroup (limits sta) vp p to_vertex = Some to_tag_group ->
        TagGroup_hasTag (tag_ops sta) to_tag_group to_tag = true ->
        RequiredVisitor_visitFromToPath sta vp from_path edge arc_delay to_vertex to_tr to_tag
                                        min_max path_ap p cmp
        = (true,
           RequiredCmp_requiredSet (delay_ops sta) (path_arrival_index from_path)
             (PathVertex_required sta vp p to_vertex to_tag - arc_delay)
             (MinMax_opposite min_max) cmp)).
Proof.
  split.
  - intros Hrole. split.
    + unfold RequiredVisitor_visitFromToPath. rewrite Hrole.
      rewrite bool_decide_eq_false_2; [reflexivity|]. intros H. by apply H.
    + intros from_pin from_vertex to_pin c cmp' p'. unfold PathVisitor_visitEdge.
      destruct (Search_tagGroup _ _ _ _).
      * intros H. by apply RequiredVisitor_visitEdge_loop_latchDtoQ in H as [_ ->].
      * intros H. by inversion H.
  - intros Hrole tg Htg Hhas. unfold RequiredVisitor_visitFromToPath.
    rewrite bool_decide_eq_true_2 by done. cbv zeta. rewrite Htg, Hhas. reflexivity.
Qed.

(** C4 (amended).  For a from-path that is not a generated-clock source
    path, [PathVisitor::visitFromPath] derives no tag through a latch D->Q
    edge in the min corner, and then never calls the visitor; in the max
    corner the tag, arc delay and arrival are those of [latchOutArrival],
    the tag passed through [thruTag]. *)
Theorem PathVisitor_visitFromPath_latchDtoQ (sta : StaState) (vp : gmap Vertex VertexPaths)
  (from_pin : Pin) (from_vertex : Vertex) (from_tr : TransRiseFall) (from_path : PathVertex)
  (edge : Edge) (arc : TimingArc) (to_pin : Pin) (to_vertex : Vertex) (to_tr : TransRiseFall)
  (min_max : MinMax) (path_ap : PathAPIndex) (p : Pools) :
  edge_role edge = role_latchDtoQ ->
  is_gen_clk_src_path (clk_info (path_tag from_path)) = false ->
  PathVisitor_visitFromPath_to sta vp from_pin from_vertex from_tr from_path edge arc
                               to_pin to_vertex to_tr min_max path_ap p
  = match min_max with
    | MinMax_min => Ok (None, 0, 0, p)
    | MinMax_max =>
        '(to_tag0, arc_delay, to_arrival, p1) ←
           latchOutArrival (latches_ sta) vp from_path arc edge path_ap
             (Search_deratedDelay sta from_vertex arc edge false path_ap) p;
        '(to_tag, p2) ← match to_tag0 with
                        | Some t => Search_thruTag sta t edge to_tr min_max path_ap p1
                        | None => Ok (None, p1)
                        end;
        Ok (to_tag, arc_delay, to_arrival, p2)
    end
  /\ (min_max = MinMax_min ->
      forall (V : Type) visitFromToPath (v : V),
        PathVisitor_visitFromPath visitFromToPath sta vp from_pin from_vertex from_tr
          from_path edge arc to_pin to_vertex to_tr min_max path_ap p v = Ok (true, v, p)).
Proof.
  intros Hrole Hgen.
  assert (Hto : PathVisitor_visitFromPath_to sta vp from_pin from_vertex from_tr from_path
                  edge arc to_pin to_vertex to_tr MinMax_min path_ap p = Ok (None, 0, 0, p)).
  { unfold PathVisitor_visitFromPath_to. cbv zeta. rewrite Hgen, Hrole. reflexivity. }
  split.
  - destruct min_max; [exact Hto|].
    unfold PathVisitor_visitFromPath_to. cbv zeta. rewrite Hgen, Hrole. reflexivity.
  - intros -> V visit v. unfold PathVisitor_visitFromPath. rewrite Hto. reflexivity.
Qed.

(** ** Interning *)









Lemma tagGroupEqual_index i j m g :
  tagGroupEqual g (mkTagGroup i m) = tagGroupEqual g (mkTagGroup j m).
Proof. reflexivity. Qed.


Lemma find_Some_elem {A} (f : A -> bool) l x :
  List.find f l = Some x -> x ∈ l /\ f x = true.
Proof. intros H. apply find_some in H as [? ?]. split; [by apply list_elem_of_In|done]. Qed.



















(** C9.  [findTag] on a tag that is not pooled raises "max tag index
    exceeded" when the count after interning it exceeds [tag_index_max];
    below the sentinel it never errors, and it raises no other error.  The
    same for [findTagGroup] with "max tag group index exceeded" and
    [tag_group_index_max]. *)
Theorem Search_index_overflow (lim : Limits) (p : Pools) :
  (forall tr path_ap ci is_clk0 idl seg sts own,
     let probe := mkTag 0 tr path_ap ci is_clk0 idl seg sts in
     ((forall t, t ∈ tag_set_ p -> tagEqual t probe = false) ->
      (tag_index_max lim < S (tag_count_ p))%nat ->
      Search_findTag lim tr path_ap ci is_clk0 idl seg sts own p
      = InternalError "max tag index exceeded")
     /\ ((tag_count_ p < tag_index_max lim)%nat ->
         Result_isOk (Search_findTag lim tr path_ap ci is_clk0 idl seg sts own p) = true)
     /\ (forall msg, Search_findTag lim tr path_ap ci is_clk0 idl seg sts own p
                     = InternalError msg ->
           msg = "max tag index exceeded"%string
           /\ (tag_index_max lim < S (tag_count_ p))%nat))
  /\ (forall tag_bldr,
        let probe := TagGroupBldr_makeTagGroup 0 tag_bldr in
        ((forall g, g ∈ tag_group_set_ p -> tagGroupEqual g probe = false) ->
         (tag_group_index_max lim < S (tag_group_count_ p))%nat ->
         Search_findTagGroup lim tag_bldr p = InternalError "max tag group index exceeded")
        /\ ((tag_group_count_ p < tag_group_index_max lim)%nat ->
            Result_isOk (Search_findTagGroup lim tag_bldr p) = true)
        /\ (forall msg, Search_findTagGroup lim tag_bldr p = InternalError msg ->
              msg = "max tag group index exceeded"%string
              /\ (tag_group_index_max lim < S (tag_group_count_ p))%nat)).
Proof.
  split.
  - intros tr path_ap ci is_clk0 idl seg sts own probe.
    unfold Search_findTag. cbv zeta. fold probe.
    destruct (TagHashSet_findKey probe (tag_set_ p)) as [t|] eqn:Hfind.
    + unfold TagHashSet_findKey in Hfind. apply find_Some_elem in Hfind as [Hin Heq].
      split; [|split; [done|done]].
      intros Hnone. rewrite (Hnone _ Hin) in Heq. done.
    + unfold tag_count_. simpl. rewrite length_app. simpl.
      case_bool_decide as Hcmp.
      * split; [done|]. split; [intros; lia|].
        intros m [= <-]. split; [done|lia].
      * split; [intros; lia|]. split; [done|]. intros m Hm. done.
  - intros tag_bldr probe.
    unfold Search_findTagGroup. cbv zeta. fold probe.
    destruct (TagGroupSet_findKey probe (tag_group_set_ p)) as [g|] eqn:Hfind.
    + unfold TagGroupSet_findKey in Hfind. apply find_Some_elem in Hfind as [Hin Heq].
      split; [|split; [done|done]].
      intros Hnone. rewrite (Hnone _ Hin) in Heq. done.
    + unfold tag_group_count_. simpl. rewrite length_app. simpl.
      case_bool_decide as Hcmp.
      * split; [done|]. split; [intros; lia|].
        intros m [= <-]. split; [done|lia].
      * split; [intros; lia|]. split; [done|]. intros m Hm. done.
Qed.

(** ** Total negative slack *)

Ltac solve_elem :=
  rewrite ?elem_of_cons, ?elem_of_nil in *; intuition congruence.

Lemma negative_slacks_lookup d slack ends v :
  negative_slacks d slack ends !! v
  = if decide (v ∈ ends)
    then (if fuzzyLess d (slack v) 0 then Some (slack v) else None)
    else None.
Proof.
  induction ends as [|u ends IH]; cbn [negative_slacks foldr].
  - rewrite lookup_empty. by rewrite decide_False by solve_elem.
  - fold (negative_slacks d slack ends).
    destruct (decide (v = u)) as [->|Hne].
    + rewrite decide_True by solve_elem.
      destruct (fuzzyLess d (slack u) 0) eqn:Hlt.
      * by rewrite lookup_insert_eq.
      * rewrite IH. rewrite ?Hlt. by destruct (decide _).
    + assert (Hl : (if fuzzyLess d (slack u) 0
                    then <[u:=slack u]> (negative_slacks d slack ends)
                    else negative_slacks d slack ends) !! v
                   = negative_slacks d slack ends !! v).
      { destruct (fuzzyLess d (slack u) 0); [by rewrite lookup_insert_ne|done]. }
      rewrite Hl, IH.
      destruct (decide (v ∈ ends)) as [Hin|Hnin].
      * by rewrite decide_True by solve_elem.
      * by rewrite decide_False by solve_elem.
Qed.

Lemma float_round_small z : Z.abs z < 2 ^ 24 -> float_round z = z.
Proof.
  intros H. unfold float_round. cbv zeta.
  destruct (Z.ltb_spec (Z.abs z) (2 ^ 24)); [done|lia].
Qed.

Lemma total_abs_negative_slack_nonneg d slack ends :
  0 <= total_abs_negative_slack d slack ends.
Proof. induction ends as [|u ends IH]; simpl; lia. Qed.

Lemma Search_tnsIncr_fresh d vertex slack t :
  tns_slacks_ t !! vertex = None ->
  Z.abs (tns_ t + negative_slack d slack) < 2 ^ 24 ->
  Search_tnsIncr d vertex slack t
  = Ok {| tns_ := tns_ t + negative_slack d slack;
          tns_slacks_ := if fuzzyLess d slack 0
                         then <[vertex := slack]> (tns_slacks_ t) else tns_slacks_ t |}.
Proof.
  intros Hnone. unfold Search_tnsIncr, negative_slack.
  destruct (fuzzyLess d slack 0).
  - intros Hb. rewrite bool_decide_eq_false_2 by (rewrite Hnone; by intros [? ?]).
    unfold float_add. by rewrite float_round_small.
  - intros _. destruct t; simpl. f_equal. f_equal. lia.
Qed.

(** The accumulation loop, started from any table that does not mention
    the endpoints still to come, when no sum is rounded. *)
Lemma findTotalNegativeSlacks_loop_acc d slacks ends tmin tmax :
  NoDup ends ->
  (forall v, v ∈ ends -> tns_slacks_ tmin !! v = None /\ tns_slacks_ tmax !! v = None) ->
  Z.abs (tns_ tmin) + total_abs_negative_slack d (fun v => fst (slacks v)) ends < 2 ^ 24 ->
  Z.abs (tns_ tmax) + total_abs_negative_slack d (fun v => snd (slacks v)) ends < 2 ^ 24 ->
  exists tmin' tmax',
    findTotalNegativeSlacks_loop d slacks ends tmin tmax = Ok (tmin', tmax')
    /\ tns_ tmin' = tns_ tmin + total_negative_slack d (fun v => fst (slacks v)) ends
    /\ tns_ tmax' = tns_ tmax + total_negative_slack d (fun v => snd (slacks v)) ends
    /\ (forall v, tns_slacks_ tmin' !! v
                  = if decide (v ∈ ends)
                    then negative_slacks d (fun v => fst (slacks v)) ends !! v
                    else tns_slacks_ tmin !! v)
    /\ (forall v, tns_slacks_ tmax' !! v
                  = if decide (v ∈ ends)
                    then negative_slacks d (fun v => snd (slacks v)) ends !! v
                    else tns_slacks_ tmax !! v).
Proof.
  unfold findTotalNegativeSlacks_loop.
  intros Hnd. revert tmin tmax.
  induction Hnd as [|u ends Hu Hnd IH]; intros tmin tmax Hfresh Hbmin Hbmax.
  - cbn [Result_foldl]. exists tmin, tmax. split; [done|].
    cbn [total_negative_slack foldr]. split; [lia|]. split; [lia|].
    split; intros v; by rewrite decide_False by solve_elem.
  - cbn [Result_foldl].
    cbn [total_abs_negative_slack foldr] in Hbmin, Hbmax.
    fold (total_abs_negative_slack d (fun v => fst (slacks v)) ends) in Hbmin.
    fold (total_abs_negative_slack d (fun v => snd (slacks v)) ends) in Hbmax.
    pose proof (total_abs_negative_slack_nonneg d (fun v => fst (slacks v)) ends) as Hn1.
    pose proof (total_abs_negative_slack_nonneg d (fun v => snd (slacks v)) ends) as Hn2.
    destruct (Hfresh u) as [Hmin Hmax]; [solve_elem|].
    rewrite (Search_tnsIncr_fresh _ _ _ _ Hmin) by lia. cbn [mbind Result_bind].
    rewrite (Search_tnsIncr_fresh _ _ _ _ Hmax) by lia. cbn [mbind Result_bind].
    match goal with |- context [Result_foldl _ ends (?a, ?b)] =>
      destruct (IH a b) as (tmin' & tmax' & Hrun & Hs1 & Hs2 & Hm1 & Hm2) end.
    { intros v Hv. cbn [tns_ tns_slacks_]. assert (v <> u) by (intros ->; done).
      destruct (Hfresh v) as [H1 H2]; [solve_elem|].
      split.
      - destruct (fuzzyLess d (fst (slacks u)) 0); [by rewrite lookup_insert_ne|done].
      - destruct (fuzzyLess d (snd (slacks u)) 0); [by rewrite lookup_insert_ne|done]. }
    { cbn [tns_]. lia. }
    { cbn [tns_]. lia. }
    exists tmin', tmax'. split; [exact Hrun|].
    cbn [tns_ tns_slacks_] in Hs1, Hs2, Hm1, Hm2.
    cbn [total_negative_slack negative_slacks foldr].
    fold (total_negative_slack d (fun v => fst (slacks v)) ends).
    fold (total_negative_slack d (fun v => snd (slacks v)) ends).
    fold (negative_slacks d (fun v => fst (slacks v)) ends).
    fold (negative_slacks d (fun v => snd (slacks v)) ends).
    split; [lia|]. split; [lia|].
    split; intros v.
    + rewrite Hm1.
      destruct (decide (v ∈ ends)) as [Hin|Hnin].
      * rewrite decide_True by solve_elem. assert (v <> u) by (intros ->; done).
        destruct (fuzzyLess d (fst (slacks u)) 0); [by rewrite lookup_insert_ne|done].
      * destruct (decide (v = u)) as [->|Hne].
        -- rewrite decide_True by solve_elem.
           destruct (fuzzyLess d (fst (slacks u)) 0) eqn:Hlt.
           ++ by rewrite !lookup_insert_eq.
           ++ rewrite Hmin. rewrite negative_slacks_lookup. by rewrite decide_False.
        -- rewrite decide_False by solve_elem.
           destruct (fuzzyLess d (fst (slacks u)) 0); [by rewrite lookup_insert_ne|done].
    + rewrite Hm2.
      destruct (decide (v ∈ ends)) as [Hin|Hnin].
      * rewrite decide_True by solve_elem. assert (v <> u) by (intros ->; done).
        destruct (fuzzyLess d (snd (slacks u)) 0); [by rewrite lookup_insert_ne|done].
      * destruct (decide (v = u)) as [->|Hne].
        -- rewrite decide_True by solve_elem.
           destruct (fuzzyLess d (snd (slacks u)) 0) eqn:Hlt.
           ++ by rewrite !lookup_insert_eq.
           ++ rewrite Hmax. rewrite negative_slacks_lookup. by rewrite decide_False.
        -- rewrite decide_False by solve_elem.
           destruct (fuzzyLess d (snd (slacks u)) 0); [by rewrite lookup_insert_ne|done].
Qed.

Lemma Tns_eq (t1 t2 : Tns) :
  tns_ t1 = tns_ t2 -> (forall v, tns_slacks_ t1 !! v = tns_slacks_ t2 !! v) -> t1 = t2.
Proof.
  destruct t1, t2; simpl. intros -> Hm. f_equal. by apply map_eq.
Qed.

(** From scratch: the loop computes the spec-side sum and table, when no
    sum is rounded. *)
Lemma findTotalNegativeSlacks_loop_from_scratch d slacks ends :
  NoDup ends ->
  total_abs_negative_slack d (fun v => fst (slacks v)) ends < 2 ^ 24 ->
  total_abs_negative_slack d (fun v => snd (slacks v)) ends < 2 ^ 24 ->
  findTotalNegativeSlacks_loop d slacks ends Tns_zero Tns_zero
  = Ok (Tns_from_scratch d (fun v => fst (slacks v)) ends,
        Tns_from_scratch d (fun v => snd (slacks v)) ends).
Proof.
  intros Hnd Hb1 Hb2.
  destruct (findTotalNegativeSlacks_loop_acc d slacks ends Tns_zero Tns_zero Hnd)
    as (tmin & tmax & Hrun & Hs1 & Hs2 & Hm1 & Hm2).
  { intros v _. simpl. by rewrite lookup_empty. }
  { simpl. lia. }
  { simpl. lia. }
  rewrite Hrun. f_equal. f_equal.
  - apply Tns_eq; simpl; [simpl in Hs1; lia|].
    intros v. rewrite Hm1. destruct (decide _) as [|Hn]; [done|].
    simpl. rewrite lookup_empty, negative_slacks_lookup. by rewrite decide_False.
  - apply Tns_eq; simpl; [simpl in Hs2; lia|].
    intros v. rewrite Hm2. destruct (decide _) as [|Hn]; [done|].
    simpl. rewrite lookup_empty, negative_slacks_lookup. by rewrite decide_False.
Qed.

Lemma total_negative_slack_update_notin d slack ends vertex s :
  vertex ∉ ends ->
  total_negative_slack d (slacks_update slack vertex s) ends
  = total_negative_slack d slack ends
  /\ total_abs_negative_slack d (slacks_update slack vertex s) ends
     = total_abs_negative_slack d slack ends.
Proof.
  induction ends as [|u ends IH]; simpl; [done|]. intros Hn.
  destruct IH as [-> ->]; [solve_elem|].
  assert (Hu : slacks_update slack vertex s u = slack u).
  { unfold slacks_update. by rewrite decide_False by solve_elem. }
  by rewrite Hu.
Qed.

(** The sums without the contribution of one endpoint. *)
Lemma total_negative_slack_split d slack ends vertex :
  NoDup ends -> vertex ∈ ends ->
  exists rest_sum rest_abs,
    Z.abs rest_sum <= rest_abs
    /\ total_negative_slack d slack ends = negative_slack d (slack vertex) + rest_sum
    /\ total_abs_negative_slack d slack ends
       = Z.abs (negative_slack d (slack vertex)) + rest_abs
    /\ forall s,
         total_negative_slack d (slacks_update slack vertex s) ends
         = negative_slack d s + rest_sum
         /\ total_abs_negative_slack d (slacks_update slack vertex s) ends
            = Z.abs (negative_slack d s) + rest_abs.
Proof.
  induction 1 as [|u ends Hu Hnd IH]; simpl; [solve_elem|]. intros Hin.
  destruct (decide (u = vertex)) as [->|Hne].
  - exists (total_negative_slack d slack ends), (total_abs_negative_slack d slack ends).
    split.
    { clear. induction ends as [|u ends IH]; simpl; lia. }
    split; [done|]. split; [done|]. intros s.
    destruct (total_negative_slack_update_notin d slack ends vertex s Hu) as [-> ->].
    assert (Hu' : slacks_update slack vertex s vertex = s).
    { unfold slacks_update. by rewrite decide_True by done. }
    by rewrite Hu'.
  - destruct IH as (rest_sum & rest_abs & Hle & Hsum & Habs & Hupd); [solve_elem|].
    exists (negative_slack d (slack u) + rest_sum),
           (Z.abs (negative_slack d (slack u)) + rest_abs).
    split; [lia|]. split; [lia|]. split; [lia|]. intros s.
    destruct (Hupd s) as [-> ->].
    assert (Hu' : slacks_update slack vertex s u = slack u).
    { unfold slacks_update. by rewrite decide_False by done. }
    rewrite Hu'. lia.
Qed.

(** One corner of [updateTns], on the table a from-scratch pass left. *)
Lemma Search_updateTns_corner d slack ends vertex s :
  NoDup ends -> vertex ∈ ends ->
  total_abs_negative_slack d slack ends + Z.abs (negative_slack d s) < 2 ^ 24 ->
  Search_tnsIncr d vertex s
    (Search_tnsDecr d vertex (Tns_from_scratch d slack ends))
  = Ok (Tns_from_scratch d (slacks_update slack vertex s) ends).
Proof.
  intros Hnd Hin Hbound.
  destruct (total_negative_slack_split d slack ends vertex Hnd Hin)
    as (rest_sum & rest_abs & Hle & Hsum & Habs & Hupd).
  assert (Hdecr : exists t,
             Search_tnsDecr d vertex (Tns_from_scratch d slack ends) = t
             /\ tns_ t = rest_sum
             /\ forall v, tns_slacks_ t !! v
                          = if decide (v = vertex) then None
                            else negative_slacks d slack ends !! v).
  { unfold Search_tnsDecr, delayFuzzyLess. simpl.
    rewrite negative_slacks_lookup. rewrite decide_True by done.
    unfold negative_slack in Hsum, Habs.
    destruct (fuzzyLess d (slack vertex) 0) eqn:Hlt.
    - rewrite Hlt. eexists. split; [done|]. simpl. split.
      + unfold float_sub. rewrite float_round_small; lia.
      + intros v. destruct (decide (v = vertex)) as [->|Hne].
        * by rewrite lookup_delete_eq.
        * by rewrite lookup_delete_ne.
    - eexists. split; [done|]. simpl. split; [lia|].
      intros v. destruct (decide (v = vertex)) as [->|Hne]; [|done].
      rewrite negative_slacks_lookup. rewrite decide_True by done. by rewrite Hlt. }
  destruct Hdecr as (t & -> & Hsum' & Hmap).
  destruct (Hupd s) as [Hs1 Hs2].
  rewrite Search_tnsIncr_fresh.
  2:{ rewrite Hmap. by rewrite decide_True. }
  2:{ rewrite Hsum'. lia. }
  f_equal. apply Tns_eq; simpl.
  - rewrite Hs1, Hsum'. lia.
  - intros v.
    assert (Hl : (if fuzzyLess d s 0 then <[vertex:=s]> (tns_slacks_ t) else tns_slacks_ t) !! v
                 = if decide (v = vertex)
                   then (if fuzzyLess d s 0 then Some s else None)
                   else negative_slacks d slack ends !! v).
    { destruct (decide (v = vertex)) as [->|Hne].
      - destruct (fuzzyLess d s 0).
        + by rewrite lookup_insert_eq.
        + rewrite Hmap. by rewrite decide_True.
      - destruct (fuzzyLess d s 0).
        + rewrite lookup_insert_ne by done. rewrite Hmap. by rewrite decide_False.
        + rewrite Hmap. by rewrite decide_False. }
    rewrite Hl. rewrite !negative_slacks_lookup.
    unfold slacks_update.
    destruct (decide (v = vertex)) as [->|Hne].
    + by rewrite decide_True.
    + done.
Qed.

Lemma Tns_from_scratch_ext d f g ends :
  (forall v, f v = g v) -> Tns_from_scratch d f ends = Tns_from_scratch d g ends.
Proof.
  intros Hfg. unfold Tns_from_scratch. f_equal.
  - induction ends as [|u ends IH]; cbn [total_negative_slack foldr]; [done|].
    fold (total_negative_slack d f ends). fold (total_negative_slack d g ends).
    by rewrite IH, Hfg.
  - induction ends as [|u ends IH]; cbn [negative_slacks foldr]; [done|].
    fold (negative_slacks d f ends). fold (negative_slacks d g ends).
    by rewrite IH, Hfg.
Qed.

Lemma total_abs_negative_slack_ext d f g ends :
  (forall v, f v = g v) ->
  total_abs_negative_slack d f ends = total_abs_negative_slack d g ends.
Proof.
  intros Hfg. induction ends as [|u ends IH]; simpl; [done|]. by rewrite IH, Hfg.
Qed.

(** C7 (amended).  [findTotalNegativeSlacks] over the endpoints computes,
    per min/max index, the sum of the fuzzy-negative endpoint slacks and
    the table of them.  When the slack of one endpoint changes, [updateTns]
    (tnsDecr of the old contribution, tnsIncr of the new one) turns that
    state into the state that [findTotalNegativeSlacks] computes from
    scratch for the new slacks, so its [tns_] is the sum of the negative
    endpoint slacks, as long as no sum is rounded: [tns_] is a float, and
    the equality is proved when the magnitudes of the negative endpoint
    slacks, with that of the new slack, add up to less than 2^24 units. *)
Theorem Search_updateTns_equals_findTotalNegativeSlacks (d : DelayOps)
  (slacks : Vertex -> Slack * Slack) (ends : list Vertex) (vertex : Vertex)
  (new_slacks : Slack * Slack) :
  NoDup ends -> vertex ∈ ends ->
  total_abs_negative_slack d (fun v => fst (slacks v)) ends
  + Z.abs (negative_slack d (fst new_slacks)) < 2 ^ 24 ->
  total_abs_negative_slack d (fun v => snd (slacks v)) ends
  + Z.abs (negative_slack d (snd new_slacks)) < 2 ^ 24 ->
  exists tmin tmax tmin' tmax',
    findTotalNegativeSlacks_loop d slacks ends Tns_zero Tns_zero = Ok (tmin, tmax)
    /\ Search_updateTns d vertex new_slacks tmin tmax = Ok (tmin', tmax')
    /\ findTotalNegativeSlacks_loop d (slacks_update slacks vertex new_slacks) ends
                                    Tns_zero Tns_zero = Ok (tmin', tmax')
    /\ tns_ tmin' = total_negative_slack d
                      (fun v => fst (slacks_update slacks vertex new_slacks v)) ends
    /\ tns_ tmax' = total_negative_slack d
                      (fun v => snd (slacks_update slacks vertex new_slacks v)) ends.
Proof.
  intros Hnd Hin Hb1 Hb2.
  assert (Hext1 : forall v, slacks_update (fun v => fst (slacks v)) vertex (fst new_slacks) v
                            = fst (slacks_update slacks vertex new_slacks v))
    by (intros v; unfold slacks_update; by destruct (decide _)).
  assert (Hext2 : forall v, slacks_update (fun v => snd (slacks v)) vertex (snd new_slacks) v
                            = snd (slacks_update slacks vertex new_slacks v))
    by (intros v; unfold slacks_update; by destruct (decide _)).
  destruct (total_negative_slack_split d (fun v => fst (slacks v)) ends vertex Hnd Hin)
    as (rs1 & ra1 & Hle1 & _ & Habs1 & Hupd1).
  destruct (total_negative_slack_split d (fun v => snd (slacks v)) ends vertex Hnd Hin)
    as (rs2 & ra2 & Hle2 & _ & Habs2 & Hupd2).
  destruct (Hupd1 (fst new_slacks)) as [_ Hu1].
  destruct (Hupd2 (snd new_slacks)) as [_ Hu2].
  rewrite (total_abs_negative_slack_ext d _ _ ends Hext1) in Hu1.
  rewrite (total_abs_negative_slack_ext d _ _ ends Hext2) in Hu2.
  pose proof (Z.abs_nonneg (negative_slack d (fst new_slacks))).
  pose proof (Z.abs_nonneg (negative_slack d (snd new_slacks))).
  pose proof (Z.abs_nonneg (negative_slack d (fst (slacks vertex)))).
  pose proof (Z.abs_nonneg (negative_slack d (snd (slacks vertex)))).
  eexists _, _, _, _.
  split; [apply findTotalNegativeSlacks_loop_from_scratch; [done|lia|lia]|].
  rewrite (findTotalNegativeSlacks_loop_from_scratch d
             (slacks_update slacks vertex new_slacks)) by (done || lia).
  unfold Search_updateTns.
  rewrite !Search_updateTns_corner by done. cbn [mbind Result_bind].
  rewrite (Tns_from_scratch_ext d _ _ ends Hext1), (Tns_from_scratch_ext d _ _ ends Hext2).
  split; [reflexivity|]. split; [reflexivity|]. split; reflexivity.
Qed.

(** ** The theorems on the sample design *)

Lemma demo_tagMatch_refl t crpr : demo_tagMatch t t crpr = true.
Proof.
  unfold demo_tagMatch. rewrite !bool_decide_eq_true_2 by done. by destruct crpr.
Qed.

Lemma demo_tagMatch_sym t1 t2 crpr :
  demo_tagMatch t1 t2 crpr = true -> demo_tagMatch t2 t1 crpr = true.
Proof.
  unfold demo_tagMatch. intros [H1 H2]%andb_true_iff.
  apply bool_decide_eq_true in H1. rewrite bool_decide_eq_true_2 by done. simpl.
  destruct crpr; simpl in *; [|done].
  apply bool_decide_eq_true in H2. by rewrite bool_decide_eq_true_2.
Qed.

Lemma demo_tagMatch_trans t1 t2 t3 crpr :
  demo_tagMatch t1 t2 crpr = true -> demo_tagMatch t2 t3 crpr = true ->
  demo_tagMatch t1 t3 crpr = true.
Proof.
  unfold demo_tagMatch. intros [H1 H2]%andb_true_iff [H3 H4]%andb_true_iff.
  apply bool_decide_eq_true in H1, H3.
  rewrite bool_decide_eq_true_2 by congruence. simpl.
  destruct crpr; simpl in *; [|done].
  apply bool_decide_eq_true in H2, H4. rewrite bool_decide_eq_true_2; congruence.
Qed.

Lemma demo_fuzzyGreater_irrefl tolerance a mm :
  0 <= tolerance -> delayFuzzyGreater (demo_delay_ops tolerance) a a mm = false.
Proof. intros Ht. destruct mm; simpl; apply Z.ltb_ge; lia. Qed.

Lemma demo_fuzzyGreater_trans tolerance a b c mm :
  0 <= tolerance ->
  delayFuzzyGreater (demo_delay_ops tolerance) a b mm = true ->
  delayFuzzyGreater (demo_delay_ops tolerance) b c mm = true ->
  delayFuzzyGreater (demo_delay_ops tolerance) a c mm = true.
Proof. intros Ht. destruct mm; simpl; rewrite !Z.ltb_lt; lia. Qed.

Lemma TagGroupBldr_new_wf ops crpr : TagGroupBldr_wf ops (TagGroupBldr_new crpr).
Proof.
  split.
  - intros t i Hin. by apply elem_of_nil in Hin.
  - intros t1 i1 t2 i2 Hin. by apply elem_of_nil in Hin.
Qed.

Lemma demo_candidates_min_max c1 c2 :
  c1 ∈ demo_candidates -> c2 ∈ demo_candidates -> cand_min_max c1 = cand_min_max c2.
Proof.
  unfold demo_candidates. rewrite !elem_of_cons, !elem_of_nil.
  intros [->|[->|[]]] [->|[->|[]]]; reflexivity.
Qed.

(** The merge theorem on the two sample candidates, with a tolerance of 1. *)
Lemma ArrivalVisitor_visitFromToPath_keeps_fuzzy_worst_witness :
  match_crpr_clk_pin_ (tag_bldr_ demo_visitor) = true
  /\ TagGroupBldr_wf (tag_ops demo_fuzzy) (tag_bldr_ demo_visitor)
  /\ forall c, c ∈ demo_candidates ->
     exists s,
       TagGroupBldr_tagArrival (tag_ops demo_fuzzy) (cand_to_tag c)
         (tag_bldr_ (ArrivalVisitor_drain demo_fuzzy demo_candidates demo_visitor)) = Some s
       /\ forall c', c' ∈ demo_candidates ->
            tagMatch (tag_ops demo_fuzzy) (cand_to_tag c') (cand_to_tag c) true = true ->
            delayFuzzyGreater (delay_ops demo_fuzzy) (cand_to_arrival c') s (cand_min_max c)
            = false.
Proof.
  split; [reflexivity|]. split; [apply TagGroupBldr_new_wf|].
  intros c Hc.
  destruct (ArrivalVisitor_visitFromToPath_keeps_fuzzy_worst demo_fuzzy true
              demo_candidates demo_visitor
              (fun t => demo_tagMatch_refl t true)
              (fun t1 t2 => demo_tagMatch_sym t1 t2 true)
              (fun t1 t2 t3 => demo_tagMatch_trans t1 t2 t3 true)
              (fun a mm => demo_fuzzyGreater_irrefl 1 a mm ltac:(lia))
              (fun a b c mm => demo_fuzzyGreater_trans 1 a b c mm ltac:(lia))
              (fun c1 c2 H1 H2 _ => demo_candidates_min_max c1 c2 H1 H2)
              eq_refl (TagGroupBldr_new_wf _ _)) as [_ Hdrain].
  destruct (Hdrain c Hc) as (s & Hs & _ & Hworst). exists s. split; [exact Hs|exact Hworst].
Defined.

(** With a tolerance of 1 the candidate arrival 11 does not replace the
    stored 10: the slot is not written although 11 is greater, and the
    arrival stored after the drain is not the maximum. *)
Lemma ArrivalVisitor_drain_keeps_arrival_below_max :
  let av1 := snd (ArrivalVisitor_visitFromToPath demo_fuzzy (demo_from_path 7) demo_tag 10
                                                 MinMax_max demo_visitor) in
  TagGroupBldr_tagArrival (tag_ops demo_fuzzy) demo_tag (tag_bldr_ av1) = Some 10
  /\ snd (ArrivalVisitor_visitFromToPath demo_fuzzy (demo_from_path 8) demo_tag 11
                                         MinMax_max av1) = av1
  /\ 10 < 11
  /\ TagGroupBldr_tagArrival (tag_ops demo_fuzzy) demo_tag
       (tag_bldr_ (ArrivalVisitor_drain demo_fuzzy demo_candidates demo_visitor)) = Some 10
  /\ Z.max 10 11 = 11.
Proof. vm_compute. repeat split. Qed.





(** A data path through the latch of the sample design, in both corners. *)
Lemma PathVisitor_visitFromPath_latchDtoQ_witness :
  edge_role edge_d_q = role_latchDtoQ
  /\ is_gen_clk_src_path (clk_info (path_tag (demo_d_path false))) = false
  /\ PathVisitor_visitFromPath_to demo ∅ 3 3 TR_rise (demo_d_path false) edge_d_q demo_arc
                                  4 4 TR_rise MinMax_min 0 Pools_init
     = Ok (None, 0, 0, Pools_init)
  /\ exists to_tag p',
       PathVisitor_visitFromPath_to demo ∅ 3 3 TR_rise (demo_from_path 2) edge_d_q demo_arc
                                    4 4 TR_rise MinMax_max 1 Pools_init
       = Ok (Some to_tag, 3, 5, p').
Proof.
  split; [reflexivity|]. split; [reflexivity|]. split.
  - exact (proj1 (PathVisitor_visitFromPath_latchDtoQ demo ∅ 3 3 TR_rise (demo_d_path false)
                    edge_d_q demo_arc 4 4 TR_rise MinMax_min 0 Pools_init eq_refl eq_refl)).
  - eexists _, _.
    rewrite (proj1 (PathVisitor_visitFromPath_latchDtoQ demo ∅ 3 3 TR_rise (demo_from_path 2)
                      edge_d_q demo_arc 4 4 TR_rise MinMax_max 1 Pools_init
                      eq_refl eq_refl)).
    vm_compute. reflexivity.
Defined.

(** A source path of the generated clock passes the latch D->Q edge in
    the min corner. *)
Lemma gen_clk_src_path_thru_latch_in_min_corner :
  edge_role edge_d_q = role_latchDtoQ
  /\ pathMinMax (corners_ demo) 0 = MinMax_min
  /\ exists to_tag p',
       PathVisitor_visitFromPath_to demo ∅ 3 3 TR_rise (demo_d_path true) edge_d_q demo_arc
                                    4 4 TR_rise MinMax_min 0 Pools_init
       = Ok (Some to_tag, 3, 5, p')
       /\ path_ap_index to_tag = 0%nat.
Proof.
  split; [reflexivity|]. split; [reflexivity|].
  eexists _, _. split; vm_compute; reflexivity.
Qed.


(** The slack of [r] changes from (2, -1) to (-4, 1). *)
Lemma Search_updateTns_equals_findTotalNegativeSlacks_witness :
  NoDup [4; 5]%nat /\ (5%nat ∈ [4; 5]%nat)
  /\ total_abs_negative_slack (delay_ops demo) (fun v => fst (demo_slacks v)) [4; 5]%nat
     + Z.abs (negative_slack (delay_ops demo) (-4)) < 2 ^ 24
  /\ total_abs_negative_slack (delay_ops demo) (fun v => snd (demo_slacks v)) [4; 5]%nat
     + Z.abs (negative_slack (delay_ops demo) 1) < 2 ^ 24
  /\ exists tmin tmax tmin' tmax',
       findTotalNegativeSlacks_loop (delay_ops demo) demo_slacks [4; 5]%nat Tns_zero Tns_zero
       = Ok (tmin, tmax)
       /\ Search_updateTns (delay_ops demo) 5 (-4, 1) tmin tmax = Ok (tmin', tmax')
       /\ findTotalNegativeSlacks_loop (delay_ops demo) (slacks_update demo_slacks 5 (-4, 1))
                                       [4; 5]%nat Tns_zero Tns_zero = Ok (tmin', tmax')
       /\ tns_ tmin' = -7 /\ tns_ tmax' = -5.
Proof.
  assert (Hnd : NoDup [4; 5]%nat).
  { apply NoDup_cons. split; [|apply NoDup_singleton].
    rewrite list_elem_of_singleton. lia. }
  assert (Hin : 5%nat ∈ [4; 5]%nat).
  { apply elem_of_cons. right. apply elem_of_cons. by left. }
  assert (Hb1 : total_abs_negative_slack (delay_ops demo) (fun v => fst (demo_slacks v))
                  [4; 5]%nat
                + Z.abs (negative_slack (delay_ops demo) (-4)) < 2 ^ 24)
    by (vm_compute; reflexivity).
  assert (Hb2 : total_abs_negative_slack (delay_ops demo) (fun v => snd (demo_slacks v))
                  [4; 5]%nat
                + Z.abs (negative_slack (delay_ops demo) 1) < 2 ^ 24)
    by (vm_compute; reflexivity).
  assert (Hb1' : total_abs_negative_slack (delay_ops demo) (fun v => fst (demo_slacks v))
                   [4; 5]%nat
                 + Z.abs (negative_slack (delay_ops demo) (fst (-4, 1))) < 2 ^ 24)
    by (vm_compute; reflexivity).
  assert (Hb2' : total_abs_negative_slack (delay_ops demo) (fun v => snd (demo_slacks v))
                   [4; 5]%nat
                 + Z.abs (negative_slack (delay_ops demo) (snd (-4, 1))) < 2 ^ 24)
    by (vm_compute; reflexivity).
  split; [exact Hnd|]. split; [exact Hin|]. split; [exact Hb1|]. split; [exact Hb2|].
  destruct (Search_updateTns_equals_findTotalNegativeSlacks (delay_ops demo) demo_slacks
              [4; 5]%nat 5%nat (-4, 1) Hnd Hin Hb1' Hb2')
    as (tmin & tmax & tmin' & tmax' & H1 & H2 & H3 & H4 & H5).
  exists tmin, tmax, tmin', tmax'.
  split; [exact H1|]. split; [exact H2|]. split; [exact H3|].
  split; [rewrite H4|rewrite H5]; vm_compute; reflexivity.
Defined.

(** Slacks of -1.0 and -0.3: their sum is rounded, so after the slack of
    [r] has become 0 the accumulator holds -0.99999994, where the pass
    over all endpoints computes -1.0. *)
Lemma Search_updateTns_rounds :
  NoDup [4; 5]%nat /\ (5%nat ∈ [4; 5]%nat)
  /\ float_round (-33554432) = -33554432
  /\ float_round (-10066330) = -10066330
  /\ exists tmin tmax tmin' tmax' tmin'' tmax'',
       findTotalNegativeSlacks_loop (delay_ops demo) demo_float_slacks [4; 5]%nat
                                    Tns_zero Tns_zero = Ok (tmin, tmax)
       /\ tns_ tmin = -43620760
       /\ Search_updateTns (delay_ops demo) 5 (0, 0) tmin tmax = Ok (tmin', tmax')
       /\ tns_ tmin' = -33554430
       /\ findTotalNegativeSlacks_loop (delay_ops demo)
                                       (slacks_update demo_float_slacks 5 (0, 0)) [4; 5]%nat
                                       Tns_zero Tns_zero = Ok (tmin'', tmax'')
       /\ tns_ tmin'' = -33554432
       /\ total_negative_slack (delay_ops demo)
            (fun v => fst (slacks_update demo_float_slacks 5 (0, 0) v)) [4; 5]%nat
          = -33554432.
Proof.
  split.
  { apply NoDup_cons. split; [|apply NoDup_singleton].
    rewrite list_elem_of_singleton. lia. }
  split.
  { apply elem_of_cons. right. apply elem_of_cons. by left. }
  split; [reflexivity|]. split; [reflexivity|].
  eexists _, _, _, _, _, _.
  repeat (split; [vm_compute; reflexivity|]). vm_compute; reflexivity.
Qed.

(** Two arrival passes over the sample design: the first one computes the
    arrivals and drains the queue, the second one returns the same state
    and visits no vertex. *)
Lemma Search_findArrivals_twice_witness :
  exists av1 st1,
    Search_findArrivals demo 100 2 demo_visitor Search_init = Some (Ok (av1, st1))
    /\ vertex_arrivals (Search_vertex (limits demo) st1 4) = Some [5; 5; 4; 9; 4; 9]
    /\ Search_findArrivals demo 0 2 av1 st1
       = Some (Ok (ArrivalVisitor_init demo false eval_pred_ av1, st1))
    /\ BfsFwdIterator_visitParallel demo 0 2 (ArrivalVisitor_init demo false eval_pred_ av1)
                                    st1
       = Some (Ok (0%nat, ArrivalVisitor_init demo false eval_pred_ av1, st1)).
Proof.
  eexists _, _.
  split; [vm_compute; reflexivity|].
  split; [vm_compute; reflexivity|].
  eapply (Search_findArrivals_twice demo 100 0 2 demo_visitor Search_init _ _).
  vm_compute. reflexivity.
Defined.



